(** * Reciprocity engine of the incentive-design prototype

    A shallow embedding of [project1_incentive_design_prototype.py]: the
    credit ledger and access engine ([ReciprocityEngine]) and the round driver
    ([simulate]), followed by the properties of the mechanism.

    Conventions of the embedding.
    - Python [int] is [Z]; Python [float] is an IEEE-754 binary64 value,
      [spec_float] with the operations of [SpecFloat] at precision 53.
    - A Python [dict] whose iteration order is observed ([clinics]) is an
      insertion-ordered association list; the dictionary and the lists that are
      only looked up are finite maps.
    - Every slot of [clinics] holds its own [Clinic] object (what [add_clinic]
      builds from distinct objects), so a reference to a clinic object is the
      index of its slot and a mutation of the object is an update of the slot.
    - Lists of history entries are objects with identity: they live in a heap
      of list objects, the engine and the callers hold locations.
    - [random] and [time.time] are threaded explicitly: the generator is an
      abstract deterministic state machine, the wall clock is the sequence of
      its successive readings.
    - An operation runs on a world and either returns a value or raises a
      Python exception; both outcomes carry the world reached. *)

From Stdlib Require Import ZArith String List Bool Lia DecimalString DecimalNat.
From Stdlib Require Import Floats.SpecFloat.
From stdpp Require Import base option list gmap strings fin_maps.

Local Open Scope Z_scope.

(** ** Python floats *)

Module PyFloat.

Definition prec : Z := 53.
Definition emax : Z := 1024.

(** [float(z)] before the overflow check: the nearest binary64 value,
    ties to even, infinite when [z] is out of range. *)
Definition of_int (z : Z) : spec_float := binary_normalize prec emax z 0 false.

(** The integer [z] itself, as an unrounded floating-point number. *)
Definition exact (z : Z) : spec_float :=
  match z with
  | Z0 => S754_zero false
  | Zpos p => S754_finite false p 0
  | Zneg p => S754_finite true p 0
  end.

Definition add : spec_float -> spec_float -> spec_float := SFadd prec emax.
Definition sub : spec_float -> spec_float -> spec_float := SFsub prec emax.
Definition mul : spec_float -> spec_float -> spec_float := SFmul prec emax.
Definition div : spec_float -> spec_float -> spec_float := SFdiv prec emax.

(** [x < y] and [x > y]; both are false when an operand is a NaN. *)
Definition lt (x y : spec_float) : bool := SFltb x y.
Definition gt (x y : spec_float) : bool := SFltb y x.
Definition le (x y : spec_float) : bool := SFleb x y.

Definition is_inf (x : spec_float) : bool :=
  match x with S754_infinity _ => true | _ => false end.

Definition is_nan (x : spec_float) : bool :=
  match x with S754_nan => true | _ => false end.

Definition is_zero (x : spec_float) : bool :=
  match x with S754_zero _ => true | _ => false end.

(** The integer part of a finite float, rounded toward zero. *)
Definition truncate (x : spec_float) : Z :=
  match x with
  | S754_finite s m e =>
      cond_Zopp s (if 0 <=? e then Zpos m * 2 ^ e else Zpos m / 2 ^ (- e))
  | _ => 0
  end.

(** The largest integer below or equal to a finite float. *)
Definition floor (x : spec_float) : Z :=
  match x with
  | S754_finite s m e =>
      if 0 <=? e then cond_Zopp s (Zpos m * 2 ^ e)
      else cond_Zopp s (Zpos m) / 2 ^ (- e)
  | _ => 0
  end.

(** A decimal literal [n / d], e.g. [0.9] is [lit 9 10]: the nearest
    binary64 value of the quotient. *)
Definition lit (n d : Z) : spec_float := div (of_int n) (of_int d).

Definition zero : spec_float := S754_zero false.
Definition one : spec_float := of_int 1.

End PyFloat.

Abbreviation float := spec_float.

(** ** Exceptions and results *)

Inductive exn : Type :=
| KeyError
| IndexError
| ValueError
| OverflowError
| ZeroDivisionError.

Inductive Res (A : Type) : Type :=
| Ok (a : A)
| Err (x : exn).
Arguments Ok {A} a.
Arguments Err {A} x.

(** [float(z)], as the interpreter applies it to an [int] operand of a float
    operation. *)
Definition float_of_int (z : Z) : Res float :=
  let x := PyFloat.of_int z in
  if PyFloat.is_inf x then Err OverflowError else Ok x.

(** [int(x)] on a float. *)
Definition int_of_float (x : float) : Res Z :=
  match x with
  | S754_nan => Err ValueError
  | S754_infinity _ => Err OverflowError
  | _ => Ok (PyFloat.truncate x)
  end.

(** [a / b] on two [int]s: the correctly rounded quotient. *)
Definition int_truediv (a b : Z) : Res float :=
  if b =? 0 then Err ZeroDivisionError
  else
    let q := PyFloat.div (PyFloat.exact a) (PyFloat.exact b) in
    if PyFloat.is_inf q then Err OverflowError else Ok q.

(** [z * x] with [z] an [int] and [x] a float. *)
Definition int_mul_float (z : Z) (x : float) : Res float :=
  match float_of_int z with
  | Ok y => Ok (PyFloat.mul y x)
  | Err e => Err e
  end.

(** [x + z] with [x] a float and [z] an [int]. *)
Definition float_add_int (x : float) (z : Z) : Res float :=
  match float_of_int z with
  | Ok y => Ok (PyFloat.add x y)
  | Err e => Err e
  end.

(** [x / z] with [x] a float and [z] an [int]. *)
Definition float_div_int (x : float) (z : Z) : Res float :=
  match float_of_int z with
  | Ok y => if PyFloat.is_zero y then Err ZeroDivisionError else Ok (PyFloat.div x y)
  | Err e => Err e
  end.

(** ** Data model *)

Module HistoryEntry.
Record t : Type := mk {
  patient_id : string;
  author_clinic_id : string;
  summary : string;
  quality_score : float;
  timestamp : float;
  stake : Z;
  redacted_author : bool
}.

Definition set_stake (v : Z) (e : t) : t :=
  mk (patient_id e) (author_clinic_id e) (summary e) (quality_score e)
     (timestamp e) v (redacted_author e).
End HistoryEntry.

Module AccessToken.
Record t : Type := mk {
  patient_id : string;
  issued_to_clinic_id : string;
  expires_at : float;
  encounter_bound : bool
}.
End AccessToken.

Module Clinic.
Record t : Type := mk {
  clinic_id : string;
  credits : Z;
  reputation : float;
  opted_in : bool;
  share_propensity : float;
  free_ride : bool;
  low_quality : bool;
  last_round_contribution : Z
}.

Definition set_credits (v : Z) (c : t) : t :=
  mk (clinic_id c) v (reputation c) (opted_in c) (share_propensity c)
     (free_ride c) (low_quality c) (last_round_contribution c).

Definition set_reputation (v : float) (c : t) : t :=
  mk (clinic_id c) (credits c) v (opted_in c) (share_propensity c)
     (free_ride c) (low_quality c) (last_round_contribution c).

Definition set_opted_in (v : bool) (c : t) : t :=
  mk (clinic_id c) (credits c) (reputation c) v (share_propensity c)
     (free_ride c) (low_quality c) (last_round_contribution c).

Definition set_last_round_contribution (v : Z) (c : t) : t :=
  mk (clinic_id c) (credits c) (reputation c) (opted_in c) (share_propensity c)
     (free_ride c) (low_quality c) v.
End Clinic.

(** ** Insertion-ordered dictionaries *)

Module Dict.
Abbreviation t V := (list (string * V)).

Section Dict.
Context {V : Type}.
Implicit Types d : t V.

(** [d.get(k)]. *)
Fixpoint get (k : string) d : option V :=
  match d with
  | [] => None
  | (k', v) :: r => if String.eqb k k' then Some v else get k r
  end.

(** [d[k] = v]: the slot of an existing key keeps its place, a new key
    goes last. *)
Fixpoint set (k : string) (v : V) d : t V :=
  match d with
  | [] => [(k, v)]
  | (k', v') :: r =>
      if String.eqb k k' then (k', v) :: r else (k', v') :: set k v r
  end.

Definition keys d : list string := map fst d.
Definition values d : list V := map snd d.

(** The slot that holds key [k]. *)
Fixpoint find (k : string) d : option nat :=
  match d with
  | [] => None
  | (k', _) :: r => if String.eqb k k' then Some 0%nat else S <$> find k r
  end.

(** The slots of [d], in order, and the value held by a slot. *)
Definition slots d : list nat := seq 0 (length d).
Definition slot (i : nat) d : option V := snd <$> d !! i.

(** The slots, in order, whose value satisfies [p]: the references that
    [[v for v in d.values() if p(v)]] collects. *)
Fixpoint select_from (n : nat) (p : V -> bool) d : list nat :=
  match d with
  | [] => []
  | (_, v) :: r =>
      if p v then n :: select_from (S n) p r else select_from (S n) p r
  end.
Definition select (p : V -> bool) d : list nat := select_from 0 p d.

(** A new state [v] for the value held by slot [i]. *)
Definition store (i : nat) (v : V) d : t V :=
  alter (fun kv => (fst kv, v)) i d.

(** A loop [for v in d.values(): v.mutate()] that touches nothing else. *)
Definition update_all (f : V -> V) d : t V :=
  map (fun kv => (fst kv, f (snd kv))) d.
End Dict.
End Dict.

(** ** The engine object *)

Abbreviation loc := positive.

Module Engine.
Record t : Type := mk {
  read_cost : Z;
  publish_reward : Z;
  publish_stake : Z;
  decay_per_round : Z;
  min_credits_to_read : Z;
  dispute_probability : float;
  dispute_threshold : float;
  slash_amount : Z;
  match_pool_rate : float;
  clinics : Dict.t Clinic.t;
  patient_histories : gmap string loc;
  access_log : list (float * string * string);
  pool_balance : Z
}.

Definition set_clinics (v : Dict.t Clinic.t) (e : t) : t :=
  mk (read_cost e) (publish_reward e) (publish_stake e) (decay_per_round e)
     (min_credits_to_read e) (dispute_probability e) (dispute_threshold e)
     (slash_amount e) (match_pool_rate e)
     v (patient_histories e) (access_log e) (pool_balance e).

Definition set_patient_histories (v : gmap string loc) (e : t) : t :=
  mk (read_cost e) (publish_reward e) (publish_stake e) (decay_per_round e)
     (min_credits_to_read e) (dispute_probability e) (dispute_threshold e)
     (slash_amount e) (match_pool_rate e)
     (clinics e) v (access_log e) (pool_balance e).

Definition set_access_log (v : list (float * string * string)) (e : t) : t :=
  mk (read_cost e) (publish_reward e) (publish_stake e) (decay_per_round e)
     (min_credits_to_read e) (dispute_probability e) (dispute_threshold e)
     (slash_amount e) (match_pool_rate e)
     (clinics e) (patient_histories e) v (pool_balance e).

Definition set_pool_balance (v : Z) (e : t) : t :=
  mk (read_cost e) (publish_reward e) (publish_stake e) (decay_per_round e)
     (min_credits_to_read e) (dispute_probability e) (dispute_threshold e)
     (slash_amount e) (match_pool_rate e)
     (clinics e) (patient_histories e) (access_log e) v.

(** [ReciprocityEngine.__init__]. *)
Definition init (read_cost publish_reward publish_stake decay_per_round
                 min_credits_to_read : Z)
                (dispute_probability dispute_threshold : float)
                (slash_amount : Z) (match_pool_rate : float) : t :=
  mk read_cost publish_reward publish_stake decay_per_round
     min_credits_to_read dispute_probability dispute_threshold
     slash_amount match_pool_rate [] ∅ [] 0.
End Engine.

(** ** Worlds, outcomes and the monad of operations *)

(** The random source: the state reached by [random.seed(s)], one step of
    [random.random()], and the index drawn by [random.choice] for a sequence
    of the given length. *)
Record Entropy (R : Type) : Type := mkEntropy {
  rng_seed : Z -> R;
  rng_random : R -> float * R;
  rng_below : nat -> R -> nat * R
}.
Arguments mkEntropy {R} _ _ _.
Arguments rng_seed {R} _ _.
Arguments rng_random {R} _ _.
Arguments rng_below {R} _ _ _.

Record World (R : Type) : Type := mkWorld {
  engine : Engine.t;
  heap : gmap loc (list HistoryEntry.t);
  rng : R;
  wall : nat -> float;
  reads : nat
}.
Arguments mkWorld {R} _ _ _ _ _.
Arguments engine {R} _.
Arguments heap {R} _.
Arguments rng {R} _.
Arguments wall {R} _ _.
Arguments reads {R} _.

Inductive Outcome (R A : Type) : Type :=
| Return (a : A) (w : World R)
| Raise (x : exn) (w : World R).
Arguments Return {R A} a w.
Arguments Raise {R A} x w.

Definition final {R A} (o : Outcome R A) : World R :=
  match o with Return _ w => w | Raise _ w => w end.

Definition returned {R A} (o : Outcome R A) : option A :=
  match o with Return a _ => Some a | Raise _ _ => None end.

Definition raised {R A} (o : Outcome R A) : option exn :=
  match o with Return _ _ => None | Raise x _ => Some x end.

Definition M (R A : Type) : Type := World R -> Outcome R A.

#[global] Instance M_ret {R} : MRet (M R) :=
  fun A a w => Return a w.

#[global] Instance M_bind {R} : MBind (M R) :=
  fun A B k m w =>
    match m w with
    | Return a w' => k a w'
    | Raise x w' => Raise x w'
    end.

Section Primitives.
Context {R : Type}.

Definition raise {A} (x : exn) : M R A := fun w => Raise x w.

Definition lift {A} (r : Res A) : M R A :=
  match r with Ok a => mret a | Err x => raise x end.

(** [self.attr]. *)
Definition self {A} (attr : Engine.t -> A) : M R A :=
  fun w => Return (attr (engine w)) w.

(** [self.attr = v], as a function of the object. *)
Definition update_self (f : Engine.t -> Engine.t) : M R unit :=
  fun w => Return tt (mkWorld (f (engine w)) (heap w) (rng w) (wall w) (reads w)).

(** [time.time()]. *)
Definition time : M R float :=
  fun w => Return (wall w (reads w))
                  (mkWorld (engine w) (heap w) (rng w) (wall w) (S (reads w))).

(** A new list object holding [items]. *)
Definition new_list (items : list HistoryEntry.t) : M R loc :=
  fun w =>
    let l := fresh (dom (heap w)) in
    Return l (mkWorld (engine w) (<[l := items]> (heap w)) (rng w) (wall w) (reads w)).

(** The items of a list object. *)
Definition list_items (l : loc) : M R (list HistoryEntry.t) :=
  fun w => Return (default [] (heap w !! l)) w.

(** [l.append(x)]. *)
Definition list_append (l : loc) (x : HistoryEntry.t) : M R unit :=
  fun w =>
    Return tt (mkWorld (engine w) (<[l := default [] (heap w !! l) ++ [x]]> (heap w))
                       (rng w) (wall w) (reads w)).

(** [self.clinics[clinic_id]]: a reference to the clinic object of that key. *)
Definition find_clinic (clinic_id : string) : M R nat :=
  fun w =>
    match Dict.find clinic_id (Engine.clinics (engine w)) with
    | Some clinic => Return clinic w
    | None => Raise KeyError w
    end.

(** The present state of a clinic object. *)
Definition read_clinic (clinic : nat) : M R Clinic.t :=
  fun w =>
    match Dict.slot clinic (Engine.clinics (engine w)) with
    | Some c => Return c w
    | None => Raise KeyError w
    end.

(** An assignment to attributes of a clinic object. *)
Definition write_clinic (clinic : nat) (f : Clinic.t -> Clinic.t) : M R unit :=
  c ← read_clinic clinic;
  update_self (fun e => Engine.set_clinics (Dict.store clinic (f c) (Engine.clinics e)) e).

(** [for x in xs: body(x)]. *)
Fixpoint for_each {A} (xs : list A) (body : A -> M R unit) : M R unit :=
  match xs with
  | [] => mret tt
  | x :: r => body x;; for_each r body
  end.

(** A loop that updates local variables [acc]. *)
Fixpoint for_fold {A S} (xs : list A) (acc : S) (body : A -> S -> M R S) : M R S :=
  match xs with
  | [] => mret acc
  | x :: r => acc' ← body x acc; for_fold r acc' body
  end.
End Primitives.

(** [not xs] on a list. *)
Definition is_nil {A} (xs : list A) : bool :=
  match xs with [] => true | _ => false end.

(** [range(n)]. *)
Definition range (n : Z) : list nat := seq 0 (Z.to_nat n).

(** ** ReciprocityEngine *)

Section ReciprocityEngine.
Context {R : Type} (E : Entropy R).

(** [random.random()]. *)
Definition random : M R float :=
  fun w =>
    let '(u, r) := rng_random E (rng w) in
    Return u (mkWorld (engine w) (heap w) r (wall w) (reads w)).

Definition add_clinic (clinic : Clinic.t) : M R unit :=
  update_self (fun e =>
    Engine.set_clinics (Dict.set (Clinic.clinic_id clinic) clinic (Engine.clinics e)) e).

Definition issue_patient_token (patient_id clinic_id : string) (ttl_seconds : Z)
  : M R AccessToken.t :=
  now ← time;
  expires_at ← lift (float_add_int now ttl_seconds);
  mret (AccessToken.mk patient_id clinic_id expires_at true).

Definition can_read (clinic_id : string) (token : AccessToken.t) : M R bool :=
  clinic ← find_clinic clinic_id;
  c ← read_clinic clinic;
  if negb (Clinic.opted_in c) then mret false else
  if negb (String.eqb (AccessToken.issued_to_clinic_id token) clinic_id) then mret false else
  now ← time;
  if PyFloat.gt now (AccessToken.expires_at token) then mret false else
  min_credits ← self Engine.min_credits_to_read;
  if Clinic.credits c <? min_credits then mret false else
  mret true.

Definition read_history (clinic_id : string) (token : AccessToken.t) : M R loc :=
  ok ← can_read clinic_id token;
  if negb ok then new_list [] else
  clinic ← find_clinic clinic_id;
  c ← read_clinic clinic;
  read_cost ← self Engine.read_cost;
  if Clinic.credits c <? read_cost then new_list [] else
  write_clinic clinic (fun c => Clinic.set_credits (Clinic.credits c - read_cost) c);;
  pool ← self Engine.pool_balance;
  rate ← self Engine.match_pool_rate;
  fee ← lift (int_mul_float read_cost rate);
  part ← lift (int_of_float fee);
  update_self (Engine.set_pool_balance (pool + part));;
  now ← time;
  update_self (fun e =>
    Engine.set_access_log
      (Engine.access_log e ++ [(now, clinic_id, AccessToken.patient_id token)]) e);;
  histories ← self Engine.patient_histories;
  stored ← match histories !! AccessToken.patient_id token with
           | Some l => mret l
           | None => new_list []
           end;
  items ← list_items stored;
  new_list items.

Definition _maybe_dispute (entry : HistoryEntry.t) : M R unit :=
  threshold ← self Engine.dispute_threshold;
  if PyFloat.lt (HistoryEntry.quality_score entry) threshold then
    author ← find_clinic (HistoryEntry.author_clinic_id entry);
    a ← read_clinic author;
    slash ← self Engine.slash_amount;
    let penalty := Z.min slash (Clinic.credits a) in
    write_clinic author (fun c => Clinic.set_credits (Clinic.credits c - penalty) c);;
    write_clinic author (fun c =>
      Clinic.set_reputation (PyFloat.mul (Clinic.reputation c) (PyFloat.lit 9 10)) c)
  else mret tt.

Definition publish_history (clinic_id : string) (entry : HistoryEntry.t) : M R bool :=
  clinic ← find_clinic clinic_id;
  c ← read_clinic clinic;
  if negb (Clinic.opted_in c) then mret false else
  publish_stake ← self Engine.publish_stake;
  if Clinic.credits c <? publish_stake then mret false else
  write_clinic clinic (fun c => Clinic.set_credits (Clinic.credits c - publish_stake) c);;
  let entry := HistoryEntry.set_stake publish_stake entry in
  publish_reward ← self Engine.publish_reward;
  write_clinic clinic (fun c => Clinic.set_credits (Clinic.credits c + publish_reward) c);;
  write_clinic clinic (fun c =>
    Clinic.set_last_round_contribution (Clinic.last_round_contribution c + 1) c);;
  histories ← self Engine.patient_histories;
  stored ← match histories !! HistoryEntry.patient_id entry with
           | Some l => mret l
           | None =>
               l ← new_list [];
               update_self (Engine.set_patient_histories
                              (<[HistoryEntry.patient_id entry := l]> histories));;
               mret l
           end;
  list_append stored entry;;
  u ← random;
  p ← self Engine.dispute_probability;
  (if PyFloat.lt u p then _maybe_dispute entry else mret tt);;
  mret true.

Definition decay_one (decay_per_round : Z) (clinic : Clinic.t) : Clinic.t :=
  if Clinic.opted_in clinic && (0 <? Clinic.credits clinic) then
    Clinic.set_credits (Z.max 0 (Clinic.credits clinic - decay_per_round)) clinic
  else clinic.

Definition decay_credits : M R unit :=
  decay ← self Engine.decay_per_round;
  update_self (fun e =>
    Engine.set_clinics (Dict.update_all (decay_one decay) (Engine.clinics e)) e).

Definition reset_contributions : M R unit :=
  update_self (fun e =>
    Engine.set_clinics
      (Dict.update_all (Clinic.set_last_round_contribution 0) (Engine.clinics e)) e).

(** [int(pool_balance * (contribution / total_contribs))]. *)
Definition pool_share (pool_balance contribution total_contribs : Z) : Res Z :=
  match int_truediv contribution total_contribs with
  | Ok ratio =>
      match int_mul_float pool_balance ratio with
      | Ok x => int_of_float x
      | Err e => Err e
      end
  | Err e => Err e
  end.

(** The contribution of the clinic object in a slot. *)
Definition contribution (clinics : Dict.t Clinic.t) (clinic : nat) : Z :=
  match Dict.slot clinic clinics with
  | Some c => Clinic.last_round_contribution c
  | None => 0
  end.

Definition distribute_pool : M R unit :=
  clinics ← self Engine.clinics;
  let contributors :=
    Dict.select (fun c => 0 <? Clinic.last_round_contribution c) clinics in
  pool ← self Engine.pool_balance;
  if is_nil contributors || (pool <=? 0) then reset_contributions else
  let total_contribs := fold_left Z.add (map (contribution clinics) contributors) 0 in
  for_each contributors (fun clinic =>
    c ← read_clinic clinic;
    pool ← self Engine.pool_balance;
    share ← lift (pool_share pool (Clinic.last_round_contribution c) total_contribs);
    write_clinic clinic (fun c => Clinic.set_credits (Clinic.credits c + share) c));;
  update_self (Engine.set_pool_balance 0);;
  reset_contributions.

Definition opt_in_rate : M R float :=
  clinics ← self Engine.clinics;
  if is_nil clinics then mret PyFloat.zero else
  lift (int_truediv
          (Z.of_nat (length (List.filter (fun kc => Clinic.opted_in (snd kc)) clinics)))
          (Z.of_nat (length clinics))).

End ReciprocityEngine.

(** ** The round driver *)

(** The result record of [simulate], in the order of its keys. *)
Record Stats : Type := mkStats {
  stat_opt_in_rate : float;
  stat_total_reads : float;
  stat_total_publishes : float;
  stat_avg_credits : float;
  stat_avg_reputation : float;
  stat_remaining_clinics : float
}.

(** [f"{i:0<width>d}"] for a natural number. *)
Definition fmt_d (width : nat) (i : nat) : string :=
  let s := NilZero.string_of_uint (Nat.to_uint i) in
  String.concat "" (repeat "0"%string (width - String.length s)) ++ s.

Definition low_summary : string :=
  "Generic note: exercises advised. (low detail)".
Definition high_summary : string :=
  "Structured summary: Dx, red flags checked, plan-of-care, response, discharge status.".

Section Driver.
Context {R : Type} (E : Entropy R).

(** [random.seed(seed)]. *)
Definition seed_random (seed : Z) : M R unit :=
  fun w => Return tt (mkWorld (engine w) (heap w) (rng_seed E seed) (wall w) (reads w)).

(** [random.choice(seq)]. *)
Definition choice {A} (seq : list A) : M R A :=
  match seq with
  | [] => raise IndexError
  | _ =>
      fun w =>
        let '(i, r) := rng_below E (length seq) (rng w) in
        let w' := mkWorld (engine w) (heap w) r (wall w) (reads w) in
        match nth_error seq i with
        | Some x => Return x w'
        | None => Raise IndexError w'
        end
  end.

(** [random.uniform(a, b)]. *)
Definition uniform (a b : float) : M R float :=
  u ← random E;
  mret (PyFloat.add a (PyFloat.mul (PyFloat.sub b a) u)).

(** [engine = ReciprocityEngine(...)]. *)
Definition new_engine (e : Engine.t) : M R unit := update_self (fun _ => e).

(** The body of the loop that registers the clinics. *)
Definition register_clinic (starter_credits : Z)
           (free_rider_fraction low_quality_fraction : float) (i : nat) : M R unit :=
  let cid := ("C" ++ fmt_d 3 i)%string in
  u ← random E;
  let free_ride := PyFloat.lt u free_rider_fraction in
  low_quality ← (if negb free_ride
                 then u' ← random E; mret (PyFloat.lt u' low_quality_fraction)
                 else mret false);
  let share_propensity := if negb free_ride then PyFloat.lit 75 100 else PyFloat.lit 5 100 in
  add_clinic (Clinic.mk cid starter_credits PyFloat.one true share_propensity
                        free_ride low_quality 0).

(** The optional read of one clinic in a round. *)
Definition attempt_read (patients : list string) (clinic : nat) (total_reads : Z)
  : M R Z :=
  u ← random E;
  if PyFloat.lt u (PyFloat.lit 55 100) then
    pid ← choice patients;
    c ← read_clinic clinic;
    token ← issue_patient_token pid (Clinic.clinic_id c) 3600;
    hist ← read_history (Clinic.clinic_id c) token;
    items ← list_items hist;
    mret (if is_nil items then total_reads else total_reads + 1)
  else mret total_reads.

(** The optional publish of one clinic in a round. *)
Definition attempt_publish (patients : list string) (clinic : nat) (total_publishes : Z)
  : M R Z :=
  c ← read_clinic clinic;
  let needs_credits := Clinic.credits c <? 6 in
  will_publish ← (if negb (Clinic.free_ride c) then
                    if needs_credits then mret true
                    else u ← random E; mret (PyFloat.lt u (Clinic.share_propensity c))
                  else mret false);
  if will_publish : bool then
    pid ← choice patients;
    low ← (if Clinic.low_quality c
           then u ← random E; mret (PyFloat.lt u (PyFloat.lit 6 10))
           else mret false);
    '(q, summary) ← (if low : bool
                     then q ← uniform (PyFloat.lit 1 10) (PyFloat.lit 5 10);
                          mret (q, low_summary)
                     else q ← uniform (PyFloat.lit 6 10) PyFloat.one;
                          mret (q, high_summary));
    created ← time;
    ok ← publish_history E (Clinic.clinic_id c)
           (HistoryEntry.mk pid (Clinic.clinic_id c) summary q created 0 true);
    mret (if ok : bool then total_publishes + 1 else total_publishes)
  else mret total_publishes.

(** The optional exit of one clinic at the end of its turn. *)
Definition consider_opt_out (clinic : nat) : M R unit :=
  c ← read_clinic clinic;
  if Clinic.credits c <? 3 then
    u ← random E;
    if PyFloat.lt u (PyFloat.lit 5 100) then
      if Clinic.free_ride c || PyFloat.lt (Clinic.reputation c) (PyFloat.lit 7 10)
      then write_clinic clinic (Clinic.set_opted_in false)
      else mret tt
    else mret tt
  else mret tt.

(** One clinic's turn in a round; the state is the pair of counters
    [(total_reads, total_publishes)]. *)
Definition clinic_turn (patients : list string) (clinic : nat) (totals : Z * Z)
  : M R (Z * Z) :=
  c ← read_clinic clinic;
  if negb (Clinic.opted_in c) then mret totals else
  total_reads ← attempt_read patients clinic (fst totals);
  total_publishes ← attempt_publish patients clinic (snd totals);
  consider_opt_out clinic;;
  mret (total_reads, total_publishes).

Definition round (patients : list string) (totals : Z * Z) : M R (Z * Z) :=
  decay_credits;;
  clinics ← self Engine.clinics;
  totals ← for_fold (Dict.slots clinics) totals (clinic_turn patients);
  distribute_pool;;
  mret totals.

(** [sum] of floats, from the integer [0], left to right. *)
Definition float_sum (xs : list float) : float :=
  fold_left PyFloat.add xs PyFloat.zero.

Definition report (totals : Z * Z) : M R Stats :=
  opt_in ← opt_in_rate;
  clinics ← self Engine.clinics;
  let n := Z.of_nat (length clinics) in
  avg_credits ← lift (int_truediv
                        (fold_left Z.add (map Clinic.credits (Dict.values clinics)) 0) n);
  avg_rep ← (if is_nil clinics then raise ZeroDivisionError
             else lift (float_div_int
                          (float_sum (map Clinic.reputation (Dict.values clinics))) n));
  reads ← lift (float_of_int (fst totals));
  publishes ← lift (float_of_int (snd totals));
  remaining ← lift (float_of_int
                      (Z.of_nat (length (List.filter (fun kc => Clinic.opted_in (snd kc))
                                                     clinics))));
  mret (mkStats opt_in reads publishes avg_credits avg_rep remaining).

Definition simulate (n_clinics n_patients rounds starter_credits : Z)
           (free_rider_fraction low_quality_fraction : float) (seed : Z) : M R Stats :=
  seed_random seed;;
  new_engine (Engine.init 3 4 2 1 3 (PyFloat.lit 12 100) (PyFloat.lit 45 100) 6
                          (PyFloat.lit 5 10));;
  for_each (range n_clinics)
           (register_clinic starter_credits free_rider_fraction low_quality_fraction);;
  let patients := map (fun i => ("P" ++ fmt_d 4 i)%string) (range n_patients) in
  totals ← for_fold (range rounds) (0, 0) (fun _ => round patients);
  report totals.

End Driver.

(** ** Observations on worlds *)

(** The published history of a patient: the items of the list object that
    [patient_histories] holds for it. *)
Definition history (e : Engine.t) (h : gmap loc (list HistoryEntry.t)) (pid : string)
  : list HistoryEntry.t :=
  match Engine.patient_histories e !! pid with
  | Some l => default [] (h !! l)
  | None => []
  end.

(** Every list object that the engine holds is allocated. *)
Definition histories_allocated (e : Engine.t) (h : gmap loc (list HistoryEntry.t)) : Prop :=
  forall pid l, Engine.patient_histories e !! pid = Some l -> is_Some (h !! l).

(** ** Relations between worlds *)

(** Slot by slot, the same keys and clinic states related by [rho]. *)
Definition slot_rel (rho : Clinic.t -> Clinic.t -> Prop) (kc kc' : string * Clinic.t) : Prop :=
  fst kc = fst kc' /\ rho (snd kc) (snd kc').

(** No constraint on how a clinic changes. *)
Definition any_change : Clinic.t -> Clinic.t -> Prop := fun _ _ => True.

Definition evolves {R} (rho : Clinic.t -> Clinic.t -> Prop) (w w' : World R) : Prop :=
  Forall2 (slot_rel rho) (Engine.clinics (engine w)) (Engine.clinics (engine w')).

(** The reputation after one more dispute penalty, and the reputations that
    follow from [r] by penalties alone. *)
Definition penalised (r : float) : float := PyFloat.mul r (PyFloat.lit 9 10).

Definition decays_to (r r' : float) : Prop :=
  exists n : nat, r' = Nat.iter n penalised r.

Definition reputation_decays (c c' : Clinic.t) : Prop :=
  decays_to (Clinic.reputation c) (Clinic.reputation c').

(** Every registered clinic has a reputation that follows from 1.0. *)
Definition reputations_from_one (e : Engine.t) : Prop :=
  Forall (fun kc => decays_to PyFloat.one (Clinic.reputation (snd kc))) (Engine.clinics e).

Definition positive_finite (x : float) : Prop :=
  match x with S754_finite false _ _ => True | _ => False end.

(** The first [fuel] penalties from [x] never raise the reputation, stay at
    or below 1.0 and give positive finite floats; the result is the
    reputation reached. *)
Fixpoint penalties_ok (fuel : nat) (x : float) : option float :=
  match fuel with
  | O => Some x
  | S k =>
      let y := penalised x in
      match y with
      | S754_finite false _ _ =>
          if PyFloat.le y x && PyFloat.le y PyFloat.one then penalties_ok k y else None
      | _ => None
      end
  end.

(** A balance that was not negative is not negative. *)
Definition credits_kept (c c' : Clinic.t) : Prop :=
  0 <= Clinic.credits c -> 0 <= Clinic.credits c'.

(** Only the clinic table of the engine may differ. *)
Definition same_frame {R} (w w' : World R) : Prop :=
  engine w' = Engine.set_clinics (Engine.clinics (engine w')) (engine w).

Definition rel_and {R} (P Q : World R -> World R -> Prop) (w w' : World R) : Prop :=
  P w w' /\ Q w w'.

(** [P] relates every world to the world in which [m] ends, returning or
    raising. *)
Definition stable {R A} (P : World R -> World R -> Prop) (m : M R A) : Prop :=
  forall w, P w (final (m w)).

(** [I] is kept: it holds of the engine afterwards when it held before. *)
Definition keeps {R} (I : Engine.t -> Prop) (w w' : World R) : Prop :=
  I (engine w) -> I (engine w').

(** The operations of the engine and of the driver on a running simulation. *)
Inductive operation : Type :=
| Issue_patient_token (patient_id clinic_id : string) (ttl_seconds : Z)
| Can_read (clinic_id : string) (token : AccessToken.t)
| Read_history (clinic_id : string) (token : AccessToken.t)
| Publish_history (clinic_id : string) (entry : HistoryEntry.t)
| Maybe_dispute (entry : HistoryEntry.t)
| Decay_credits
| Distribute_pool
| Opt_in_rate
| Attempt_read (patients : list string) (clinic : nat) (total_reads : Z)
| Attempt_publish (patients : list string) (clinic : nat) (total_publishes : Z)
| Consider_opt_out (clinic : nat)
| Clinic_turn (patients : list string) (clinic : nat) (totals : Z * Z)
| Round (patients : list string) (totals : Z * Z)
| Rounds (patients : list string) (rounds : Z) (totals : Z * Z)
| Report (totals : Z * Z).

(** The operations that move credits. *)
Definition ledger_operation (op : operation) : bool :=
  match op with
  | Read_history _ _ | Publish_history _ _ | Maybe_dispute _
  | Decay_credits | Distribute_pool => true
  | _ => false
  end.

Definition is_publish (op : operation) : bool :=
  match op with Publish_history _ _ => true | _ => false end.

(** The world in which an operation ends, whether it returns or raises. *)
Definition world_after {R} (E : Entropy R) (op : operation) (w : World R) : World R :=
  match op with
  | Issue_patient_token pid cid ttl => final (issue_patient_token pid cid ttl w)
  | Can_read cid token => final (can_read cid token w)
  | Read_history cid token => final (read_history cid token w)
  | Publish_history cid entry => final (publish_history E cid entry w)
  | Maybe_dispute entry => final (_maybe_dispute entry w)
  | Decay_credits => final (decay_credits w)
  | Distribute_pool => final (distribute_pool w)
  | Opt_in_rate => final (opt_in_rate w)
  | Attempt_read patients clinic total => final (attempt_read E patients clinic total w)
  | Attempt_publish patients clinic total =>
      final (attempt_publish E patients clinic total w)
  | Consider_opt_out clinic => final (consider_opt_out E clinic w)
  | Clinic_turn patients clinic totals => final (clinic_turn E patients clinic totals w)
  | Round patients totals => final (round E patients totals w)
  | Rounds patients n totals =>
      final (for_fold (range n) totals (fun _ => round E patients) w)
  | Report totals => final (report totals w)
  end.

(** [P] looks at the engine only. *)
Class EngineOnly {R} (P : World R -> World R -> Prop) : Prop :=
  engine_only : forall w w1 w2, engine w1 = engine w2 -> P w w1 -> P w w2.

(** ** Two runs side by side *)

(** No reading of the clock is more than the lifetime of a token, 3600
    seconds, after the reading before it. *)
Definition steady (clock : nat -> float) : Prop :=
  forall i, PyFloat.gt (clock (S i)) (PyFloat.add (clock i) (PyFloat.of_int 3600)) = false.

(** The engine without its histories and its access log. *)
Definition ledger (e : Engine.t) : Engine.t :=
  Engine.set_patient_histories ∅ (Engine.set_access_log [] e).

(** The number of entries published for each patient. *)
Definition history_lengths (e : Engine.t) (h : gmap loc (list HistoryEntry.t))
  : gmap string nat :=
  (fun l => length (default [] (h !! l))) <$> Engine.patient_histories e.

(** The list objects of the engine are allocated and no two patients share
    one. *)
Definition histories_wf (e : Engine.t) (h : gmap loc (list HistoryEntry.t)) : Prop :=
  histories_allocated e h
  /\ forall pid pid' l,
       Engine.patient_histories e !! pid = Some l ->
       Engine.patient_histories e !! pid' = Some l -> pid = pid'.

(** Two worlds that differ in their clocks, in the time stamps they hold
    and in the names of their list objects only. *)
Definition akin {R} (w1 w2 : World R) : Prop :=
  rng w1 = rng w2
  /\ ledger (engine w1) = ledger (engine w2)
  /\ history_lengths (engine w1) (heap w1) = history_lengths (engine w2) (heap w2)
  /\ histories_wf (engine w1) (heap w1)
  /\ histories_wf (engine w2) (heap w2)
  /\ steady (wall w1)
  /\ steady (wall w2).

(** From worlds related by [Pre], [m1] and [m2] both return, in a relation
    [Post], or both raise the same exception. *)
Definition rel_run {R A} (Pre : World R -> World R -> Prop) (m1 m2 : M R A)
           (Post : A -> World R -> A -> World R -> Prop) : Prop :=
  forall w1 w2, Pre w1 w2 ->
    match m1 w1, m2 w2 with
    | Return a1 w1', Return a2 w2' => Post a1 w1' a2 w2'
    | Raise x1 _, Raise x2 _ => x1 = x2
    | _, _ => False
    end.

(** Values related by [Rv] in akin worlds. *)
Definition agree {R A} (Rv : A -> A -> Prop) : A -> World R -> A -> World R -> Prop :=
  fun a1 w1 a2 w2 => Rv a1 a2 /\ akin w1 w2.

(** The two runs of one computation agree. *)
Definition sim {R A} (Rv : A -> A -> Prop) (m1 m2 : M R A) : Prop :=
  rel_run akin m1 m2 (agree Rv).

(** A token issued at the last reading of the clock. *)
Definition just_issued {R} (t : AccessToken.t) (w : World R) : Prop :=
  exists i, reads w = S i
            /\ AccessToken.expires_at t = PyFloat.add (wall w i) (PyFloat.of_int 3600).

(** Two tokens for one patient and one clinic, each just issued in its
    world, in akin worlds. *)
Definition issued_pair {R} (t1 : AccessToken.t) (w1 : World R)
           (t2 : AccessToken.t) (w2 : World R) : Prop :=
  akin w1 w2
  /\ just_issued t1 w1 /\ just_issued t2 w2
  /\ AccessToken.patient_id t1 = AccessToken.patient_id t2
  /\ AccessToken.issued_to_clinic_id t1 = AccessToken.issued_to_clinic_id t2.

(** Two list objects of the same length in akin worlds. *)
Definition same_length_lists {R} (l1 : loc) (w1 : World R) (l2 : loc) (w2 : World R)
  : Prop :=
  akin w1 w2
  /\ length (default [] (heap w1 !! l1)) = length (default [] (heap w2 !! l2)).

(** Entries that differ in their time stamp only. *)
Definition same_entry (x1 x2 : HistoryEntry.t) : Prop :=
  HistoryEntry.patient_id x1 = HistoryEntry.patient_id x2
  /\ HistoryEntry.author_clinic_id x1 = HistoryEntry.author_clinic_id x2
  /\ HistoryEntry.quality_score x1 = HistoryEntry.quality_score x2.

(** ** Scenarios *)

(** A random source whose draws are all [0.0] and whose choices are all the
    first item. *)
Definition still : Entropy unit :=
  mkEntropy (fun _ => tt) (fun r => (PyFloat.zero, r)) (fun _ r => (0%nat, r)).

Definition midnight : nat -> float := fun _ => PyFloat.zero.

(** A world around an engine, with no list object yet. *)
Definition world_of (e : Engine.t) : World unit := mkWorld e ∅ tt midnight 0%nat.

(** The engine of [simulate] with one more setting of the pool rate. *)
Definition engine_with (match_pool_rate : float) (clinics : Dict.t Clinic.t)
           (pool_balance : Z) : Engine.t :=
  Engine.mk 3 4 2 1 3 (PyFloat.lit 12 100) (PyFloat.lit 45 100) 6 match_pool_rate
            clinics ∅ [] pool_balance.

Definition default_engine (clinics : Dict.t Clinic.t) (pool_balance : Z) : Engine.t :=
  engine_with (PyFloat.lit 5 10) clinics pool_balance.

(** A clinic as [Clinic(clinic_id, credits)] builds it, with two attributes
    set afterwards. *)
Definition clinic_of (clinic_id : string) (credits : Z) (opted_in : bool)
           (last_round_contribution : Z) : Clinic.t :=
  Clinic.mk clinic_id credits PyFloat.one opted_in (PyFloat.lit 7 10) false false
            last_round_contribution.

(** The token that clinic [A] gets for patient [P] at midnight, for an hour. *)
Definition token_A_P : AccessToken.t :=
  AccessToken.mk "P" "A" (PyFloat.of_int 3600) true.

(** An entry of clinic [B] on patient [P]. *)
Definition entry_B_P : HistoryEntry.t :=
  HistoryEntry.mk "P" "B" high_summary (PyFloat.lit 9 10) PyFloat.zero 2 true.

(** Clinic [A] holds [credits]; patient [P] has one published entry. *)
Definition reading_world (match_pool_rate : float) (credits : Z) : World unit :=
  mkWorld
    (Engine.mk 3 4 2 1 3 (PyFloat.lit 12 100) (PyFloat.lit 45 100) 6 match_pool_rate
               [("A"%string, clinic_of "A" credits true 0)]
               {["P"%string := 1%positive]} [] 0)
    {[1%positive := [entry_B_P]]} tt midnight 0%nat.

(** Clinic [A] holds 3 credits under an engine whose publish reward is -5. *)
Definition negative_reward_world : World unit :=
  world_of (Engine.mk 3 (-5) 2 1 3 (PyFloat.lit 12 100) (PyFloat.lit 45 100) 6
                      (PyFloat.lit 5 10)
                      [("A"%string, clinic_of "A" 3 true 0)] ∅ [] 0).

(** An entry of low quality by clinic [A] on patient [P]. *)
Definition poor_entry_A_P : HistoryEntry.t :=
  HistoryEntry.mk "P" "A" low_summary (PyFloat.lit 3 10) PyFloat.zero 0 true.

(** Three clinics that contributed 1, 1 and 2, and a pool of 8. *)
Definition sharing_world : World unit :=
  world_of (default_engine [("A"%string, clinic_of "A" 0 true 1);
                            ("B"%string, clinic_of "B" 0 true 1);
                            ("C"%string, clinic_of "C" 0 true 2)] 8).

(** Two clinics that contributed 1 and 48, and a pool of 49. *)
Definition rounding_world : World unit :=
  world_of (default_engine [("A"%string, clinic_of "A" 0 true 1);
                            ("B"%string, clinic_of "B" 0 true 48)] 49).

(** A clock that shows noon at every reading. *)
Definition noon : nat -> float := fun _ => PyFloat.of_int 43200.

(** A clock that is two hours further at every reading. *)
Definition leaping : nat -> float := fun i => PyFloat.of_int (7200 * Z.of_nat i).

(** One clinic, one patient and one round, with the fractions and the seed
    of the demo, from an empty world with the given clock. *)
Definition small_run (clock : nat -> float) : Outcome unit Stats :=
  simulate still 1 1 1 10 (PyFloat.lit 18 100) (PyFloat.lit 10 100) 7
           (mkWorld (Engine.init 0 0 0 0 0 PyFloat.zero PyFloat.zero 0 PyFloat.zero)
                    ∅ tt clock 0%nat).

(** ** Operations that return *)

(** The operation raises no exception from that world. *)
Definition returns {R A} (m : M R A) (w : World R) : Prop := raised (m w) = None.

(** The identifier is a key of [clinics]. *)
Definition registered {R} (clinic_id : string) (w : World R) : Prop :=
  is_Some (Dict.get clinic_id (Engine.clinics (engine w))).

(** A float that is zero, or finite with a mantissa of [d] bits and an
    exponent [e] such that [d + e <= B] and [e <= C]: its magnitude is below
    [2 ^ B]. *)
Definition within (B C : Z) (x : float) : Prop :=
  match x with
  | S754_zero _ => True
  | S754_finite _ m e => Z.pos (digits2_pos m) + e <= B /\ e <= C
  | _ => False
  end.

(** ** Further observations *)

(** What no operation changes in a clinic: its identifier and its archetype;
    and a clinic that has left stays out. *)
Definition profile_kept (c c' : Clinic.t) : Prop :=
  Clinic.clinic_id c' = Clinic.clinic_id c
  /\ Clinic.share_propensity c' = Clinic.share_propensity c
  /\ Clinic.free_ride c' = Clinic.free_ride c
  /\ Clinic.low_quality c' = Clinic.low_quality c
  /\ (Clinic.opted_in c = false -> Clinic.opted_in c' = false).

(** What [distribute_pool] may do to a clinic: pay it a share that is not
    negative when it has contributed, and reset its contribution counter. *)
Definition rewarded (c c' : Clinic.t) : Prop :=
  Clinic.credits c <= Clinic.credits c'
  /\ (Clinic.last_round_contribution c <= 0 -> Clinic.credits c' = Clinic.credits c)
  /\ (Clinic.last_round_contribution c' = Clinic.last_round_contribution c
      \/ Clinic.last_round_contribution c' = 0)
  /\ Clinic.set_last_round_contribution 0 (Clinic.set_credits 0 c')
     = Clinic.set_last_round_contribution 0 (Clinic.set_credits 0 c).

(** [sum(c.last_round_contribution for c in contributors)], where the
    contributors are the clinics with [last_round_contribution > 0]. *)
Definition total_contribs (clinics : Dict.t Clinic.t) : Z :=
  fold_left Z.add
    (map (contribution clinics)
         (Dict.select (fun c => 0 <? Clinic.last_round_contribution c) clinics)) 0.

(** Clinic [A] has stayed and contributed 1, clinic [B] holds 5 credits,
    has contributed 3 and has left; the pool holds 8. *)
Definition lapsed_world : World unit :=
  world_of (default_engine [("A"%string, clinic_of "A" 0 true 1);
                            ("B"%string, clinic_of "B" 5 false 3)] 8).

(** The access log has only grown, at its end. *)
Definition log_grows {R} (w w' : World R) : Prop :=
  Engine.access_log (engine w) `prefix_of` Engine.access_log (engine w').

(** The access log is what it was. *)
Definition log_kept {R} (w w' : World R) : Prop :=
  Engine.access_log (engine w') = Engine.access_log (engine w).

(** The operations in which a history may be read. *)
Definition reading_operation (op : operation) : bool :=
  match op with
  | Read_history _ _ | Attempt_read _ _ _ | Clinic_turn _ _ _
  | Round _ _ | Rounds _ _ _ => true
  | _ => false
  end.

(** The decimal number that a string of digits writes, leading zeros
    allowed. *)
Definition parse_d (s : string) : option nat :=
  Nat.of_uint <$> NilEmpty.uint_of_string s.

(** The identifiers that [simulate] gives to its clinics. *)
Definition clinic_ids (n_clinics : Z) : list string :=
  map (fun i => ("C" ++ fmt_d 3 i)%string) (range n_clinics).

(** ** A running simulation *)

(** The settings that [simulate] gives its engine, as far as credits go. *)
Definition simulation_settings (e : Engine.t) : Prop :=
  Engine.read_cost e = 3 /\ Engine.publish_reward e = 4 /\ Engine.publish_stake e = 2
  /\ Engine.decay_per_round e = 1 /\ Engine.min_credits_to_read e = 3
  /\ Engine.slash_amount e = 6 /\ Engine.match_pool_rate e = PyFloat.lit 5 10.

(** A clinic filed under its own identifier, with a balance from 0 to [c]. *)
Definition clinic_ok (c : Z) (kc : string * Clinic.t) : Prop :=
  Clinic.clinic_id (snd kc) = fst kc /\ 0 <= Clinic.credits (snd kc) <= c.

(** The engine of a running simulation of [n] clinics: the settings of
    [simulate], balances from 0 to [c] and a pool from 0 to [b]. *)
Definition running (n : nat) (b c : Z) (e : Engine.t) : Prop :=
  simulation_settings e
  /\ length (Engine.clinics e) = n
  /\ Forall (clinic_ok c) (Engine.clinics e)
  /\ 0 <= Engine.pool_balance e <= b.

(** [random.choice] picks an index of its sequence. *)
Definition picks_in_range {R} (E : Entropy R) : Prop :=
  forall n r, (0 < n)%nat -> (fst (rng_below E n r) < n)%nat.

(** A random source whose draws are all [0.99] and whose choices are all
    the first item. *)
Definition idle : Entropy unit :=
  mkEntropy (fun _ => tt) (fun r => (PyFloat.lit 99 100, r)) (fun _ r => (0%nat, r)).

(** The list objects stay well formed and every patient's history has only
    grown, at its end. *)
Definition histories_grow {R} (w w' : World R) : Prop :=
  histories_wf (engine w) (heap w) ->
  histories_wf (engine w') (heap w')
  /\ forall pid,
       history (engine w) (heap w) pid `prefix_of` history (engine w') (heap w') pid.

(** * Properties *)

Arguments float_of_int : simpl never.
Arguments int_of_float : simpl never.
Arguments int_truediv : simpl never.
Arguments int_mul_float : simpl never.
Arguments float_add_int : simpl never.
Arguments float_div_int : simpl never.
Arguments PyFloat.lit : simpl never.
Arguments PyFloat.of_int : simpl never.
Arguments PyFloat.mul : simpl never.
Arguments PyFloat.add : simpl never.
Arguments PyFloat.sub : simpl never.
Arguments PyFloat.div : simpl never.
Arguments PyFloat.lt : simpl never.
Arguments PyFloat.gt : simpl never.
Arguments PyFloat.le : simpl never.
Arguments PyFloat.truncate : simpl never.
Arguments PyFloat.floor : simpl never.

(** Unfolding of the monad and of the primitive statements. *)
Ltac run :=
  unfold write_clinic;
  unfold find_clinic, read_clinic, update_self, self, time, lift, raise,
    list_items, list_append, new_list, mbind, M_bind, mret, M_ret;
  simpl.

(** ** Dictionaries *)

Section DictFacts.
Context {V : Type}.
Implicit Types (d : Dict.t V) (k : string) (v : V).

Lemma get_set_eq k v d : Dict.get k (Dict.set k v d) = Some v.
Proof.
  induction d as [|[k' v'] r IH]; simpl.
  - now rewrite String.eqb_refl.
  - destruct (String.eqb k k') eqn:Hk; simpl; rewrite Hk; auto.
Qed.

Lemma get_set_ne k k' v d : k <> k' -> Dict.get k' (Dict.set k v d) = Dict.get k' d.
Proof.
  intros Hne. induction d as [|[k0 v0] r IH]; simpl.
  - destruct (String.eqb_spec k' k); congruence.
  - destruct (String.eqb_spec k k0) as [->|]; simpl.
    + destruct (String.eqb_spec k' k0); congruence.
    + now rewrite IH.
Qed.

Lemma get_set k k' v d :
  Dict.get k' (Dict.set k v d) = if String.eqb k k' then Some v else Dict.get k' d.
Proof.
  destruct (String.eqb_spec k k') as [->|Hne].
  - apply get_set_eq.
  - now apply get_set_ne.
Qed.

Lemma get_update_all (f : V -> V) k d :
  Dict.get k (Dict.update_all f d) = f <$> Dict.get k d.
Proof.
  induction d as [|[k' v'] r IH]; simpl; auto.
  destruct (String.eqb k k'); auto.
Qed.

Lemma get_In k v d : Dict.get k d = Some v -> In (k, v) d.
Proof.
  induction d as [|[k' v'] r IH]; simpl; [discriminate|].
  destruct (String.eqb_spec k k') as [->|]; intros H.
  - left. congruence.
  - right. auto.
Qed.

Lemma In_get k v d : In (k, v) d -> exists v', Dict.get k d = Some v'.
Proof.
  induction d as [|[k' v'] r IH]; simpl; [tauto|].
  intros [H|H]; destruct (String.eqb_spec k k'); eauto; congruence.
Qed.

Lemma get_find k d : Dict.get k d = Dict.find k d ≫= fun i => Dict.slot i d.
Proof.
  induction d as [|[k' v'] r IH]; simpl; auto.
  destruct (String.eqb k k'); simpl; auto.
  rewrite IH. destruct (Dict.find k r); reflexivity.
Qed.

Lemma get_slot k v d :
  Dict.get k d = Some v ->
  exists i, Dict.find k d = Some i /\ Dict.slot i d = Some v.
Proof.
  rewrite get_find. destruct (Dict.find k d) as [i|]; simpl; [eauto|discriminate].
Qed.

Lemma find_get k i d : Dict.find k d = Some i -> Dict.get k d = Dict.slot i d.
Proof. intros H. rewrite get_find, H. reflexivity. Qed.

Lemma find_lookup k i d : Dict.find k d = Some i -> exists v, d !! i = Some (k, v).
Proof.
  revert i. induction d as [|[k' v'] r IH]; simpl; intros i; [discriminate|].
  destruct (String.eqb_spec k k') as [->|].
  - intros [= <-]. eauto.
  - destruct (Dict.find k r) as [j|]; simpl; [|discriminate].
    intros [= <-]. simpl. eauto.
Qed.

Lemma find_None_get k d : Dict.find k d = None -> Dict.get k d = None.
Proof. intros H. rewrite get_find, H. reflexivity. Qed.

Lemma store_set k i v d : Dict.find k d = Some i -> Dict.store i v d = Dict.set k v d.
Proof.
  revert i. induction d as [|[k' v'] r IH]; simpl; intros i; [discriminate|].
  destruct (String.eqb_spec k k') as [->|].
  - intros [= <-]. reflexivity.
  - destruct (Dict.find k r) as [j|]; simpl; [|discriminate].
    intros [= <-]. unfold Dict.store in *. simpl. f_equal. auto.
Qed.

Lemma slot_store_eq i v v' d :
  Dict.slot i d = Some v -> Dict.slot i (Dict.store i v' d) = Some v'.
Proof.
  unfold Dict.slot, Dict.store. rewrite list_lookup_alter_eq.
  destruct (d !! i); simpl; [reflexivity|discriminate].
Qed.

Lemma slot_store_same i v' d :
  Dict.slot i (Dict.store i v' d) = (fun _ => v') <$> Dict.slot i d.
Proof.
  unfold Dict.slot, Dict.store. rewrite list_lookup_alter_eq.
  destruct (d !! i); reflexivity.
Qed.

Lemma slot_store_ne i j v d : i <> j -> Dict.slot j (Dict.store i v d) = Dict.slot j d.
Proof.
  intros Hne. unfold Dict.slot, Dict.store. now rewrite list_lookup_alter_ne.
Qed.

Lemma store_store i v v' d : Dict.store i v' (Dict.store i v d) = Dict.store i v' d.
Proof.
  unfold Dict.store. rewrite list_alter_alter_eq. now apply list_alter_ext.
Qed.

Lemma keys_store i v d : Dict.keys (Dict.store i v d) = Dict.keys d.
Proof.
  unfold Dict.keys, Dict.store. revert i. induction d as [|kv r IH]; intros [|i]; simpl;
    auto. f_equal. apply IH.
Qed.

Lemma find_store k i v d : Dict.find k (Dict.store i v d) = Dict.find k d.
Proof.
  unfold Dict.store. revert i. induction d as [|[k' v'] r IH]; intros [|i]; simpl; auto.
  destruct (String.eqb k k'); auto. f_equal. apply IH.
Qed.

Lemma length_store i v d : length (Dict.store i v d) = length d.
Proof. apply length_alter. Qed.

Lemma slot_update_all (f : V -> V) i d :
  Dict.slot i (Dict.update_all f d) = f <$> Dict.slot i d.
Proof.
  unfold Dict.slot, Dict.update_all.
  change (map (fun kv => (kv.1, f kv.2)) d) with ((fun kv : string * V => (kv.1, f kv.2)) <$> d).
  rewrite list_lookup_fmap. destruct (d !! i); reflexivity.
Qed.

Lemma slot_In i v d : Dict.slot i d = Some v -> exists k, In (k, v) d.
Proof.
  unfold Dict.slot. destruct (d !! i) as [[k v']|] eqn:H; simpl; [|discriminate].
  intros [= <-]. exists k. apply list_elem_of_In. eapply list_elem_of_lookup_2; eauto.
Qed.

Lemma slot_lt i v d : Dict.slot i d = Some v -> (i < length d)%nat.
Proof.
  unfold Dict.slot. destruct (d !! i) eqn:H; simpl; [|discriminate].
  intros _. eapply lookup_lt_Some; eauto.
Qed.
End DictFacts.

Arguments Dict.get : simpl never.
Arguments Dict.set : simpl never.
Arguments Dict.update_all : simpl never.
Arguments Dict.find : simpl never.
Arguments Dict.slot : simpl never.
Arguments Dict.store : simpl never.

(** ** Relations that every step of a computation respects *)

Section Stability.
Context {R : Type} (P : World R -> World R -> Prop).
Context `{!Reflexive P} `{!Transitive P}.

Lemma stable_ret {A} (a : A) : stable P (mret a).
Proof. intros w. apply reflexivity. Qed.

Lemma stable_raise {A} x : stable P (raise (A := A) x).
Proof. intros w. apply reflexivity. Qed.

Lemma stable_lift {A} (r : Res A) : stable P (lift r).
Proof. destruct r; [apply stable_ret | apply stable_raise]. Qed.

Lemma stable_self {A} (attr : Engine.t -> A) : stable P (self attr).
Proof. intros w. apply reflexivity. Qed.

Lemma stable_find_clinic k : stable P (find_clinic k).
Proof. intros w. unfold find_clinic. destruct (Dict.find _ _); apply reflexivity. Qed.

Lemma stable_read_clinic i : stable P (read_clinic i).
Proof. intros w. unfold read_clinic. destruct (Dict.slot _ _); apply reflexivity. Qed.

Lemma stable_list_items l : stable P (list_items l).
Proof. intros w. apply reflexivity. Qed.

Lemma stable_bind {A B} (m : M R A) (k : A -> M R B) :
  stable P m -> (forall a, stable P (k a)) -> stable P (m ≫= k).
Proof.
  intros Hm Hk w. unfold mbind, M_bind. specialize (Hm w).
  destruct (m w) as [a w'|x w']; simpl in *; auto.
  etransitivity; [exact Hm | apply Hk].
Qed.

Lemma stable_for_each {A} (xs : list A) body :
  (forall x, stable P (body x)) -> stable P (for_each xs body).
Proof.
  intros Hb. induction xs as [|x r IH]; simpl.
  - apply stable_ret.
  - apply stable_bind; auto.
Qed.

Lemma stable_for_fold {A S} (xs : list A) (acc : S) body :
  (forall x s, stable P (body x s)) -> stable P (for_fold xs acc body).
Proof.
  intros Hb. revert acc. induction xs as [|x r IH]; intros acc; simpl.
  - apply stable_ret.
  - apply stable_bind; auto.
Qed.

Lemma stable_update_self f :
  (forall w, P w (mkWorld (f (engine w)) (heap w) (rng w) (wall w) (reads w))) ->
  stable P (update_self f).
Proof. intros H w. apply H. Qed.

Lemma stable_write_clinic i f :
  (forall w c,
      Dict.slot i (Engine.clinics (engine w)) = Some c ->
      P w (mkWorld (Engine.set_clinics (Dict.store i (f c) (Engine.clinics (engine w)))
                                       (engine w))
                   (heap w) (rng w) (wall w) (reads w))) ->
  stable P (write_clinic i f).
Proof.
  intros H w. unfold write_clinic. run.
  destruct (Dict.slot i _) as [c|] eqn:Hs; simpl; [auto | apply reflexivity].
Qed.

Context `{!EngineOnly P}.

Lemma stable_time : stable P time.
Proof. intros w. eapply engine_only; [|apply reflexivity]. reflexivity. Qed.

Lemma stable_new_list items : stable P (new_list items).
Proof. intros w. eapply engine_only; [|apply reflexivity]. reflexivity. Qed.

Lemma stable_list_append l x : stable P (list_append l x).
Proof. intros w. eapply engine_only; [|apply reflexivity]. reflexivity. Qed.

Lemma stable_random E : stable P (random E).
Proof.
  intros w. unfold random. destruct (rng_random E (rng w)).
  eapply engine_only; [|apply reflexivity]. reflexivity.
Qed.

Lemma stable_seed_random E seed : stable P (seed_random E seed).
Proof. intros w. eapply engine_only; [|apply reflexivity]. reflexivity. Qed.

Lemma stable_choice E {A} (xs : list A) : stable P (choice E xs).
Proof.
  intros w. unfold choice. destruct xs as [|x r]; [apply reflexivity|].
  destruct (rng_below E _ (rng w)) as [i r'].
  destruct (nth_error _ i); (eapply engine_only; [|apply reflexivity]); reflexivity.
Qed.
End Stability.

(** Symbolic execution of a stability goal down to the assignments. *)
Ltac cls := try (solve [apply _]).
Ltac stab_step :=
  first
    [ apply stable_ret; cls | apply stable_raise; cls | apply stable_lift; cls
    | apply stable_self; cls | apply stable_find_clinic; cls
    | apply stable_read_clinic; cls | apply stable_list_items; cls
    | apply stable_time; cls | apply stable_new_list; cls
    | apply stable_list_append; cls | apply stable_random; cls
    | apply stable_choice; cls
    | apply stable_for_each; [cls .. | intros ?]
    | apply stable_for_fold; [cls .. | intros ? ?]
    | match goal with
      | |- stable _ (if ?b then _ else _) => destruct b
      | |- stable _ (match ?x with _ => _ end) => destruct x
      | |- stable _ (mbind _ _) => apply stable_bind; [cls .. | | intros ?]
      end ].
Ltac stab := repeat stab_step.

(** ** Facts on related clinic tables *)

Section Evolves.
Context {R : Type} (rho : Clinic.t -> Clinic.t -> Prop).
Implicit Types (w : World R) (d : Dict.t Clinic.t).

Lemma slot_rel_store i c c' d :
  Reflexive rho ->
  Dict.slot i d = Some c -> rho c c' ->
  Forall2 (slot_rel rho) d (Dict.store i c' d).
Proof.
  intros Hrefl. unfold Dict.slot, Dict.store. revert i.
  induction d as [|[k v] r IH]; intros [|i]; simpl; try discriminate.
  - intros [= ->] Hr. constructor; [split; auto|].
    apply Forall2_same_length_lookup_2; [reflexivity|].
    intros j x y Hx Hy. assert (x = y) as -> by congruence. split; auto.
  - intros Hs Hr. constructor; [split; simpl; auto|]. apply IH; auto.
Qed.

Lemma slot_rel_update_all (f : Clinic.t -> Clinic.t) d :
  (forall c, rho c (f c)) -> Forall2 (slot_rel rho) d (Dict.update_all f d).
Proof.
  intros Hf. unfold Dict.update_all. induction d as [|[k v] r IH]; simpl; constructor; auto.
  split; simpl; auto.
Qed.

Lemma slot_rel_keys d d' : Forall2 (slot_rel rho) d d' -> Dict.keys d = Dict.keys d'.
Proof.
  induction 1 as [|[k v] [k' v'] r r' [Hk _] _ IH]; simpl in *; congruence.
Qed.

Lemma slot_rel_slot i c d d' :
  Forall2 (slot_rel rho) d d' -> Dict.slot i d = Some c ->
  exists c', Dict.slot i d' = Some c' /\ rho c c'.
Proof.
  intros H. revert i. unfold Dict.slot.
  induction H as [|[k v] [k' v'] r r' [Hk Hr] _ IH]; intros [|i]; simpl in *;
    try discriminate; eauto.
  intros [= <-]. eauto.
Qed.

Lemma slot_rel_find k d d' :
  Forall2 (slot_rel rho) d d' -> Dict.find k d' = Dict.find k d.
Proof.
  unfold Dict.find.
  induction 1 as [|[k0 v] [k' v'] r r' [Hk Hr] _ IH]; simpl in *; auto.
  subst k'. destruct (String.eqb k k0); auto. fold (Dict.find k r) (Dict.find k r') in *.
  now rewrite IH.
Qed.

Lemma slot_rel_get k c d d' :
  Forall2 (slot_rel rho) d d' -> Dict.get k d = Some c ->
  exists c', Dict.get k d' = Some c' /\ rho c c'.
Proof.
  intros H Hc. destruct (get_slot _ _ _ Hc) as (i & Hf & Hs).
  destruct (slot_rel_slot _ _ _ _ H Hs) as (c' & Hs' & Hr).
  exists c'. split; auto.
  rewrite get_find, (slot_rel_find k _ _ H), Hf. exact Hs'.
Qed.

#[global] Instance evolves_refl : Reflexive rho -> Reflexive (evolves (R := R) rho).
Proof.
  intros Hr w. unfold evolves. apply Forall2_same_length_lookup_2; [reflexivity|].
  intros j x y Hx Hy. assert (x = y) as -> by congruence. split; auto.
Qed.

#[global] Instance evolves_trans : Transitive rho -> Transitive (evolves (R := R) rho).
Proof.
  intros Ht w1 w2 w3 H12 H23. unfold evolves in *.
  eapply Forall2_trans; [|exact H12|exact H23].
  intros x y z [Hk Hr] [Hk' Hr']. split; [congruence|]. eapply Ht; eauto.
Qed.

#[global] Instance evolves_engine_only : EngineOnly (evolves (R := R) rho).
Proof. intros w w1 w2 He H. unfold evolves in *. now rewrite <- He. Qed.
End Evolves.

#[global] Instance any_change_refl : Reflexive any_change.
Proof. intros c. exact I. Qed.

#[global] Instance any_change_trans : Transitive any_change.
Proof. intros c1 c2 c3 _ _. exact I. Qed.

#[global] Instance same_frame_refl {R} : Reflexive (same_frame (R := R)).
Proof. intros w. unfold same_frame. now destruct (engine w). Qed.

#[global] Instance same_frame_trans {R} : Transitive (same_frame (R := R)).
Proof.
  intros w1 w2 w3 H12 H23. unfold same_frame in *. rewrite H23, H12. reflexivity.
Qed.

#[global] Instance same_frame_engine_only {R} : EngineOnly (same_frame (R := R)).
Proof. intros w w1 w2 He H. unfold same_frame in *. now rewrite <- He. Qed.

#[global] Instance rel_and_refl {R} (P Q : World R -> World R -> Prop) :
  Reflexive P -> Reflexive Q -> Reflexive (rel_and P Q).
Proof. intros HP HQ w. split; reflexivity. Qed.

#[global] Instance rel_and_trans {R} (P Q : World R -> World R -> Prop) :
  Transitive P -> Transitive Q -> Transitive (rel_and P Q).
Proof. intros HP HQ w1 w2 w3 [] []. split; etransitivity; eauto. Qed.

#[global] Instance rel_and_engine_only {R} (P Q : World R -> World R -> Prop) :
  EngineOnly P -> EngineOnly Q -> EngineOnly (rel_and P Q).
Proof. intros HP HQ w w1 w2 He []. split; eapply engine_only; eauto. Qed.

Lemma stable_write_clinic_evolves {R} rho i f :
  Reflexive rho -> (forall c, rho c (f c)) ->
  stable (evolves (R := R) rho) (write_clinic i f).
Proof.
  intros Hr Hf. apply stable_write_clinic; [apply evolves_refl, Hr|].
  intros w c Hs. unfold evolves. simpl. eapply slot_rel_store; eauto.
Qed.

Lemma stable_write_clinic_frame {R} rho i f :
  Reflexive rho -> (forall c, rho c (f c)) ->
  stable (rel_and (evolves (R := R) rho) same_frame) (write_clinic i f).
Proof.
  intros Hr Hf. apply stable_write_clinic; [apply rel_and_refl; apply _|].
  intros w c Hs. split.
  - unfold evolves. simpl. eapply slot_rel_store; eauto.
  - unfold same_frame. simpl. reflexivity.
Qed.

(** ** Selected slots *)

Section Select.
Context {V : Type} (p : V -> bool).
Implicit Types d : Dict.t V.

Lemma select_from_In n i d :
  In i (Dict.select_from n p d) <->
  exists j v, i = (n + j)%nat /\ Dict.slot j d = Some v /\ p v = true.
Proof.
  revert n. induction d as [|[k v] r IH]; intros n; simpl.
  - split; [tauto|]. intros (j & v & _ & H & _). destruct j; discriminate.
  - destruct (p v) eqn:Hp; simpl; rewrite IH; split.
    + intros [<-|(j & v' & -> & Hs & Hv)].
      * exists 0%nat, v. rewrite Nat.add_0_r. auto.
      * exists (S j), v'. split; [lia|]. auto.
    + intros ([|j] & v' & -> & Hs & Hv).
      * left. lia.
      * right. exists j, v'. split; [lia|]. auto.
    + intros (j & v' & -> & Hs & Hv). exists (S j), v'. split; [lia|]. auto.
    + intros ([|j] & v' & -> & Hs & Hv).
      * injection Hs as <-. congruence.
      * exists j, v'. split; [lia|]. auto.
Qed.

Lemma select_In i d :
  In i (Dict.select p d) <-> exists v, Dict.slot i d = Some v /\ p v = true.
Proof.
  unfold Dict.select. rewrite select_from_In. split.
  - intros (j & v & -> & H). eauto.
  - intros (v & H). exists i, v. auto.
Qed.

Lemma select_nil d :
  is_nil (Dict.select p d) = true <-> Forall (fun kv => p (snd kv) = false) d.
Proof.
  split.
  - intros Hnil. apply Forall_forall. intros [k v] Hin.
    apply list_elem_of_lookup in Hin. destruct Hin as [i Hi].
    destruct (p v) eqn:Hp; auto.
    assert (Hsel : In i (Dict.select p d)).
    { apply select_In. exists v. unfold Dict.slot. rewrite Hi. auto. }
    destruct (Dict.select p d); [destruct Hsel | discriminate].
  - intros Hall. destruct (Dict.select p d) as [|i r] eqn:Hsel; auto.
    assert (Hin : In i (Dict.select p d)) by (rewrite Hsel; left; auto).
    apply select_In in Hin. destruct Hin as (v & Hs & Hp).
    destruct (slot_In _ _ _ Hs) as [k Hk]. apply list_elem_of_In in Hk.
    rewrite Forall_forall in Hall. specialize (Hall _ Hk). simpl in Hall. congruence.
Qed.
End Select.

(** ** Rejected publishes and denied reads *)

Section EngineFacts.
Context {R : Type} (E : Entropy R).
Implicit Types (w : World R) (c : Clinic.t).

(** C8. A publish by an opted-out clinic, or by a clinic that holds fewer
    credits than the publish stake, returns [False] and leaves the whole
    world as it was: no debit, no reward, no contribution, no entry, no
    random draw. *)
Theorem publish_history_rejected clinic_id entry w c :
  Dict.get clinic_id (Engine.clinics (engine w)) = Some c ->
  Clinic.opted_in c = false \/ Clinic.credits c < Engine.publish_stake (engine w) ->
  publish_history E clinic_id entry w = Return false w.
Proof.
  intros Hc Hrej. destruct (get_slot _ _ _ Hc) as (i & Hf & Hs).
  unfold publish_history. run. rewrite Hf. simpl. rewrite Hs.
  destruct (Clinic.opted_in c); simpl.
  - destruct Hrej as [|Hlt]; [discriminate|].
    apply Z.ltb_lt in Hlt. now rewrite Hlt.
  - reflexivity.
Qed.

(** [can_read] is a pure predicate of the engine: it reads the clock and
    nothing else changes; on a registered clinic it returns. *)
Lemma can_read_returns clinic_id token w c :
  Dict.get clinic_id (Engine.clinics (engine w)) = Some c ->
  exists b n,
    can_read clinic_id token w
    = Return b (mkWorld (engine w) (heap w) (rng w) (wall w) n)
    /\ (b = true ->
        n = S (reads w)
        /\ Clinic.opted_in c = true
        /\ AccessToken.issued_to_clinic_id token = clinic_id
        /\ PyFloat.gt (wall w (reads w)) (AccessToken.expires_at token) = false
        /\ Engine.min_credits_to_read (engine w) <= Clinic.credits c).
Proof.
  intros Hc. destruct (get_slot _ _ _ Hc) as (i & Hf & Hs).
  destruct w as [e h r cl n].
  unfold can_read. run. simpl in *. rewrite Hf. simpl. rewrite Hs.
  destruct (Clinic.opted_in c); simpl; [|exists false, n; split; [easy|discriminate]].
  destruct (String.eqb_spec (AccessToken.issued_to_clinic_id token) clinic_id);
    simpl; [|exists false, n; split; [easy|discriminate]].
  destruct (PyFloat.gt _ _) eqn:Hgt; simpl;
    [exists false, (S n); split; [easy|discriminate]|].
  destruct (Z.ltb_spec (Clinic.credits c) (Engine.min_credits_to_read e));
    [exists false, (S n); split; [easy|discriminate]|].
  exists true, (S n). split; [easy|]. intros _. repeat split; auto.
Qed.

(** C7. When [can_read] answers [False], or the clinic holds fewer credits
    than the read cost, [read_history] returns a new empty list and leaves
    the engine (balances, pool, access log, histories) and every list
    object and the random source as they were. *)
Theorem read_history_denied clinic_id token w c :
  Dict.get clinic_id (Engine.clinics (engine w)) = Some c ->
  returned (can_read clinic_id token w) = Some false
  \/ Clinic.credits c < Engine.read_cost (engine w) ->
  exists l,
    returned (read_history clinic_id token w) = Some l
    /\ heap w !! l = None
    /\ heap (final (read_history clinic_id token w)) = <[l := []]> (heap w)
    /\ engine (final (read_history clinic_id token w)) = engine w
    /\ rng (final (read_history clinic_id token w)) = rng w.
Proof.
  intros Hc Hden.
  destruct (can_read_returns clinic_id token w c Hc) as (b & n & Hcr & _).
  destruct (get_slot _ _ _ Hc) as (i & Hf & Hs).
  assert (Hfresh : heap w !! fresh (dom (heap w)) = None)
    by (apply not_elem_of_dom, is_fresh).
  assert (Hrh : exists m,
             read_history clinic_id token w
             = Return (fresh (dom (heap w)))
                 (mkWorld (engine w) (<[fresh (dom (heap w)) := []]> (heap w))
                          (rng w) (wall w) m)).
  { unfold read_history. unfold mbind at 1. unfold M_bind at 1. rewrite Hcr.
    rewrite Hcr in Hden. simpl in Hden.
    destruct b; simpl.
    - destruct Hden as [|Hlt]; [discriminate|].
      run. rewrite Hf. simpl. rewrite Hs. simpl.
      apply Z.ltb_lt in Hlt. rewrite Hlt. simpl. eauto.
    - run. eauto. }
  destruct Hrh as [m ->]. simpl. exists (fresh (dom (heap w))). auto.
Qed.

Lemma truncate_floor x :
  PyFloat.lt x PyFloat.zero = false -> PyFloat.truncate x = PyFloat.floor x.
Proof.
  destruct x as [s|s| |s m e]; simpl; auto.
  destruct s; [discriminate|]. intros _. unfold PyFloat.truncate, PyFloat.floor. simpl.
  destruct (0 <=? e); reflexivity.
Qed.

(** The outcome of a granted read, step by step. *)
Lemma read_history_granted_run clinic_id token w c fee part n :
  Dict.get clinic_id (Engine.clinics (engine w)) = Some c ->
  can_read clinic_id token w
  = Return true (mkWorld (engine w) (heap w) (rng w) (wall w) n) ->
  Engine.read_cost (engine w) <= Clinic.credits c ->
  int_mul_float (Engine.read_cost (engine w)) (Engine.match_pool_rate (engine w)) = Ok fee ->
  int_of_float fee = Ok part ->
  let e := engine w in
  let pid := AccessToken.patient_id token in
  let h1 := match Engine.patient_histories e !! pid with
            | Some _ => heap w
            | None => <[fresh (dom (heap w)) := []]> (heap w)
            end in
  read_history clinic_id token w
  = Return (fresh (dom h1))
      (mkWorld
         (Engine.set_access_log
            (Engine.access_log e ++ [(wall w n, clinic_id, pid)])
            (Engine.set_pool_balance (Engine.pool_balance e + part)
               (Engine.set_clinics
                  (Dict.set clinic_id
                     (Clinic.set_credits (Clinic.credits c - Engine.read_cost e) c)
                     (Engine.clinics e)) e)))
         (<[fresh (dom h1) := history e (heap w) pid]> h1)
         (rng w) (wall w) (S n)).
Proof.
  intros Hc Hcr Hcost Hfee Hpart e pid h1.
  destruct (get_slot _ _ _ Hc) as (i & Hf & Hs).
  assert (Hnlt : (Clinic.credits c <? Engine.read_cost (engine w)) = false)
    by (apply Z.ltb_ge; lia).
  unfold read_history. unfold mbind at 1. unfold M_bind at 1. rewrite Hcr.
  subst e h1 pid. destruct w as [e h r cl m]. simpl in *.
  run.
  repeat (first [rewrite Hf | rewrite Hs | rewrite Hnlt | rewrite Hfee | rewrite Hpart];
          simpl).
  rewrite (store_set _ _ _ _ Hf).
  unfold history.
  destruct (Engine.patient_histories e !! AccessToken.patient_id token) as [ls|] eqn:Hls;
    simpl; [reflexivity|].
  now rewrite lookup_insert_eq.
Qed.

(** C6 (amended). A granted read debits exactly the read cost, adds to the
    pool the float product [read_cost * match_pool_rate] truncated toward
    zero (its floor when the product is not negative), appends one entry to
    the access log and returns a new list object that holds the patient's
    history in order; whatever is later stored in that object, every
    patient's history stays what it was. *)
Theorem read_history_granted clinic_id token w c fee part :
  Dict.get clinic_id (Engine.clinics (engine w)) = Some c ->
  returned (can_read clinic_id token w) = Some true ->
  Engine.read_cost (engine w) <= Clinic.credits c ->
  int_mul_float (Engine.read_cost (engine w)) (Engine.match_pool_rate (engine w)) = Ok fee ->
  int_of_float fee = Ok part ->
  histories_allocated (engine w) (heap w) ->
  let o := read_history clinic_id token w in
  let e := engine w in
  exists l now,
    returned o = Some l
    /\ engine (final o)
       = Engine.set_access_log
           (Engine.access_log e ++ [(now, clinic_id, AccessToken.patient_id token)])
           (Engine.set_pool_balance (Engine.pool_balance e + part)
              (Engine.set_clinics
                 (Dict.set clinic_id
                    (Clinic.set_credits (Clinic.credits c - Engine.read_cost e) c)
                    (Engine.clinics e)) e))
    /\ part = PyFloat.truncate fee
    /\ (PyFloat.lt fee PyFloat.zero = false -> part = PyFloat.floor fee)
    /\ heap w !! l = None
    /\ heap (final o) !! l = Some (history e (heap w) (AccessToken.patient_id token))
    /\ forall items pid,
         history (engine (final o)) (<[l := items]> (heap (final o))) pid
         = history e (heap w) pid.
Proof.
  intros Hc Hcan Hcost Hfee Hpart Halloc o e.
  destruct (can_read_returns clinic_id token w c Hc) as (b & n & Hcr & _).
  rewrite Hcr in Hcan. simpl in Hcan. injection Hcan as ->.
  assert (Hpt : part = PyFloat.truncate fee).
  { destruct fee; unfold int_of_float in Hpart; try discriminate;
      now injection Hpart as <-. }
  subst o. rewrite (read_history_granted_run _ _ _ _ _ _ _ Hc Hcr Hcost Hfee Hpart).
  fold e. set (pid := AccessToken.patient_id token).
  set (h1 := match Engine.patient_histories e !! pid with
             | Some _ => heap w
             | None => <[fresh (dom (heap w)) := []]> (heap w)
             end).
  set (l := fresh (dom h1)).
  assert (Hl1 : h1 !! l = None) by (apply not_elem_of_dom, is_fresh).
  assert (Hsub : forall l' xs, heap w !! l' = Some xs -> h1 !! l' = Some xs).
  { intros l' xs Hl'. unfold h1. destruct (Engine.patient_histories e !! pid); auto.
    rewrite lookup_insert_ne; auto.
    intros <-. pose proof (is_fresh (dom (heap w))) as Hfr.
    apply not_elem_of_dom in Hfr. congruence. }
  assert (Hlw : heap w !! l = None).
  { destruct (heap w !! l) as [xs|] eqn:Hx; auto.
    apply Hsub in Hx. congruence. }
  exists l, (wall w n). simpl. repeat split; auto.
  - subst part. apply truncate_floor.
  - now rewrite lookup_insert_eq.
  - intros items pid'. unfold history. simpl. fold e.
    destruct (Engine.patient_histories e !! pid') as [l'|] eqn:Hl'; auto.
    destruct (Halloc pid' l' Hl') as [xs Hxs].
    assert (l <> l') by congruence.
    rewrite !lookup_insert_ne by auto.
    now rewrite (Hsub _ _ Hxs), Hxs.
Qed.

End EngineFacts.

(** ** Decay *)

Section Decay.
Context {R : Type}.
Implicit Types (w : World R) (c : Clinic.t).

(** C2 (amended). [decay_credits] returns; a clinic that is opted in and
    holds a positive balance ends with [max(0, balance - decay_per_round)],
    every other clinic keeps its balance, and nothing but balances changes:
    not the other attributes of the engine, the list objects, the random
    source or the clock, nor the keys of the clinics and their other
    attributes. *)
Theorem decay_credits_balances w :
  let d := Engine.decay_per_round (engine w) in
  exists w',
    decay_credits w = Return tt w'
    /\ same_frame w w'
    /\ heap w' = heap w
    /\ rng w' = rng w
    /\ wall w' = wall w
    /\ reads w' = reads w
    /\ Dict.keys (Engine.clinics (engine w')) = Dict.keys (Engine.clinics (engine w))
    /\ forall k c,
         Dict.get k (Engine.clinics (engine w)) = Some c ->
         exists c',
           Dict.get k (Engine.clinics (engine w')) = Some c'
           /\ Clinic.credits c'
              = (if Clinic.opted_in c && (0 <? Clinic.credits c)
                 then Z.max 0 (Clinic.credits c - d) else Clinic.credits c)
           /\ Clinic.set_credits (Clinic.credits c) c' = c.
Proof.
  intros d. unfold decay_credits. run. eexists. split; [reflexivity|]. simpl.
  do 5 (split; [reflexivity|]). split.
  - unfold Dict.keys, Dict.update_all. rewrite map_map. reflexivity.
  - intros k c Hc. rewrite get_update_all, Hc. simpl. eexists. split; [reflexivity|].
    unfold decay_one. fold d.
    destruct (Clinic.opted_in c && (0 <? Clinic.credits c)); destruct c; auto.
Qed.
End Decay.

(** C2, as stated, fails on an opted-out clinic: with 5 credits and a decay
    of 1 it keeps 5 credits, not [max(0, 5 - 1)]. *)
Lemma decay_credits_opted_out_counterexample :
  let w := world_of (default_engine [("A"%string, clinic_of "A" 5 false 0)] 0) in
  exists c c',
    Dict.get "A" (Engine.clinics (engine w)) = Some c
    /\ Dict.get "A" (Engine.clinics (engine (final (decay_credits w)))) = Some c'
    /\ Clinic.credits c' <> Z.max 0 (Clinic.credits c - Engine.decay_per_round (engine w)).
Proof.
  simpl. do 2 eexists. split; [reflexivity|]. split; [reflexivity|].
  vm_compute. discriminate.
Qed.

(** An opted-in clinic with 5 credits holds 4 after a decay of 1, and the
    list objects are what they were. *)
Lemma decay_credits_balances_witness :
  let w := reading_world (PyFloat.lit 5 10) 5 in
  exists c',
    Dict.get "A" (Engine.clinics (engine (final (decay_credits w)))) = Some c'
    /\ Clinic.credits c' = 4
    /\ heap (final (decay_credits w)) = heap w.
Proof.
  intros w.
  destruct (decay_credits_balances w) as (w' & Hrun & _ & Hheap & _ & _ & _ & _ & Hall).
  destruct (Hall "A"%string (clinic_of "A" 5 true 0)) as (c' & Hc' & Hcr & _);
    [reflexivity|].
  rewrite Hrun. exists c'. split; [exact Hc'|]. split; [exact Hcr|exact Hheap].
Defined.

(** ** Distribution of the pool *)

Section Distribution.
Context {R : Type}.
Implicit Types (w : World R) (c : Clinic.t).

Lemma reset_contributions_run w :
  reset_contributions w
  = Return tt (mkWorld (Engine.set_clinics
                          (Dict.update_all (Clinic.set_last_round_contribution 0)
                                           (Engine.clinics (engine w))) (engine w))
                       (heap w) (rng w) (wall w) (reads w)).
Proof. reflexivity. Qed.

Lemma update_all_reset (d : Dict.t Clinic.t) :
  Forall (fun kc => Clinic.last_round_contribution (snd kc) = 0)
         (Dict.update_all (Clinic.set_last_round_contribution 0) d).
Proof. unfold Dict.update_all. induction d; simpl; constructor; auto. Qed.

Lemma keys_update_all {V} (f : V -> V) (d : Dict.t V) :
  Dict.keys (Dict.update_all f d) = Dict.keys d.
Proof. unfold Dict.keys, Dict.update_all. rewrite map_map. reflexivity. Qed.

(** The loop that credits the shares changes clinic states only, slot by
    slot. *)
Lemma credit_loop_stable (contributors : list nat) total_contribs :
  stable (rel_and (evolves (R := R) any_change) same_frame)
    (for_each contributors (fun clinic =>
       c ← read_clinic clinic;
       pool ← self Engine.pool_balance;
       share ← lift (pool_share pool (Clinic.last_round_contribution c) total_contribs);
       write_clinic clinic (fun c => Clinic.set_credits (Clinic.credits c + share) c))).
Proof.
  stab. apply stable_write_clinic_frame; [apply _|]. intros c0. exact I.
Qed.

(** C1 (amended). When [distribute_pool] returns, the same clinics are
    registered and each has a contribution counter of 0; the pool is 0 when
    some clinic had contributed and the pool was positive, and is otherwise
    what it was before the call. *)
Theorem distribute_pool_resets w w' :
  distribute_pool w = Return tt w' ->
  Dict.keys (Engine.clinics (engine w')) = Dict.keys (Engine.clinics (engine w))
  /\ Forall (fun kc => Clinic.last_round_contribution (snd kc) = 0)
            (Engine.clinics (engine w'))
  /\ (Exists (fun kc => 0 < Clinic.last_round_contribution (snd kc))
             (Engine.clinics (engine w))
      /\ 0 < Engine.pool_balance (engine w) ->
      Engine.pool_balance (engine w') = 0)
  /\ (Forall (fun kc => Clinic.last_round_contribution (snd kc) <= 0)
             (Engine.clinics (engine w))
      \/ Engine.pool_balance (engine w) <= 0 ->
      Engine.pool_balance (engine w') = Engine.pool_balance (engine w)).
Proof.
  unfold distribute_pool.
  unfold mbind at 1 2. unfold M_bind at 1 2. unfold self at 1 2.
  set (d := Engine.clinics (engine w)).
  set (contributors := Dict.select (fun c => 0 <? Clinic.last_round_contribution c) d).
  set (total := fold_left Z.add (map (contribution d) contributors) 0).
  destruct (is_nil contributors || (Engine.pool_balance (engine w) <=? 0)) eqn:Hguard.
  - rewrite reset_contributions_run. intros [= <-]. simpl. fold d.
    split; [apply keys_update_all|]. split; [apply update_all_reset|]. split; auto.
    intros [Hex Hpool]. apply orb_true_iff in Hguard. destruct Hguard as [Hnil|Hle].
    + apply select_nil in Hnil. rewrite Exists_exists in Hex.
      destruct Hex as (kc & Hin & Hpos). rewrite Forall_forall in Hnil.
      specialize (Hnil _ Hin). simpl in Hnil. apply Z.ltb_ge in Hnil. lia.
    + apply Z.leb_le in Hle. lia.
  - unfold mbind at 1. unfold M_bind at 1.
    pose proof (credit_loop_stable contributors total w) as Hloop.
    match goal with |- context [for_each ?xs ?b w] => destruct (for_each xs b w) as [[] w1|x w1] end;
      [|discriminate].
    simpl in Hloop. destruct Hloop as [Hev Hfr].
    unfold mbind, M_bind, reset_contributions, update_self. simpl.
    intros [= <-]. simpl.
    rewrite keys_update_all. split; [symmetry; eapply slot_rel_keys; exact Hev|].
    split; [apply update_all_reset|]. split; auto.
    apply orb_false_iff in Hguard. destruct Hguard as [Hnil Hpos].
    apply Z.leb_gt in Hpos. intros [Hall|Hle]; [|lia].
    assert (Hn : is_nil contributors = true).
    { apply select_nil. eapply Forall_impl; [exact Hall|].
      intros kc Hkc. simpl in *. apply Z.ltb_ge. exact Hkc. }
    congruence.
Qed.
End Distribution.

(** ** Scenarios of the specification *)

(** The token of the scenarios is the one that [issue_patient_token] hands
    out at midnight. *)
Lemma issue_patient_token_midnight :
  returned (issue_patient_token "P" "A" 3600 (reading_world (PyFloat.lit 5 10) 5))
  = Some token_A_P.
Proof. vm_compute. reflexivity. Qed.

(** C1, as stated, fails when no clinic contributed: a pool of 5 is still 5
    after [distribute_pool]. *)
Lemma distribute_pool_idle_counterexample :
  let w := world_of (default_engine [("A"%string, clinic_of "A" 5 true 0)] 5) in
  exists w', distribute_pool w = Return tt w' /\ Engine.pool_balance (engine w') <> 0.
Proof. eexists. split; [vm_compute; reflexivity|]. vm_compute. discriminate. Qed.

Lemma distribute_pool_resets_witness :
  let w := sharing_world in
  let w' := final (distribute_pool w) in
  Dict.keys (Engine.clinics (engine w')) = Dict.keys (Engine.clinics (engine w))
  /\ Forall (fun kc => Clinic.last_round_contribution (snd kc) = 0)
            (Engine.clinics (engine w'))
  /\ (Exists (fun kc => 0 < Clinic.last_round_contribution (snd kc))
             (Engine.clinics (engine w))
      /\ 0 < Engine.pool_balance (engine w) ->
      Engine.pool_balance (engine w') = 0)
  /\ (Forall (fun kc => Clinic.last_round_contribution (snd kc) <= 0)
             (Engine.clinics (engine w))
      \/ Engine.pool_balance (engine w) <= 0 ->
      Engine.pool_balance (engine w') = Engine.pool_balance (engine w)).
Proof.
  intros w w'. apply (distribute_pool_resets w w'). vm_compute. reflexivity.
Defined.

(** The scenario of C3: contributions 1, 1, 2 and a pool of 8 give the shares
    2, 2, 4 and an empty pool. *)
Lemma distribute_pool_sharing :
  let w' := final (distribute_pool sharing_world) in
  map (fun kc => Clinic.credits (snd kc)) (Engine.clinics (engine w')) = [2; 2; 4]
  /\ Engine.pool_balance (engine w') = 0.
Proof. vm_compute. auto. Qed.

(** C3 on the code: with contributions 1 and 48 and a pool of 49, the exact
    share of the first clinic is [49 * 1 // 49 = 1], but the float quotient
    [1 / 49] times 49 is below 1 and [distribute_pool] credits 0. *)
Theorem distribute_pool_share_rounding :
  let w := rounding_world in
  let w' := final (distribute_pool w) in
  raised (distribute_pool w) = None
  /\ (49 * 1) / 49 = 1
  /\ pool_share 49 1 49 = Ok 0
  /\ map (fun kc => Clinic.credits (snd kc)) (Engine.clinics (engine w')) = [0; 48]
  /\ Engine.pool_balance (engine w') = 0.
Proof. vm_compute. auto 10. Qed.

Lemma publish_history_rejected_witness :
  let e := default_engine [("A"%string, clinic_of "A" 1 true 0)] 0 in
  publish_history still "A" entry_B_P (world_of e) = Return false (world_of e).
Proof.
  intros e.
  apply (publish_history_rejected still "A" entry_B_P (world_of e) (clinic_of "A" 1 true 0)).
  - reflexivity.
  - right. simpl. lia.
Defined.

Lemma read_history_denied_witness :
  let w := reading_world (PyFloat.lit 5 10) 2 in
  exists l,
    returned (read_history "A" token_A_P w) = Some l
    /\ heap w !! l = None
    /\ heap (final (read_history "A" token_A_P w)) = <[l := []]> (heap w)
    /\ engine (final (read_history "A" token_A_P w)) = engine w
    /\ rng (final (read_history "A" token_A_P w)) = rng w.
Proof.
  intros w.
  apply (read_history_denied "A" token_A_P w (clinic_of "A" 2 true 0)).
  - reflexivity.
  - left. vm_compute. reflexivity.
Defined.

Lemma reading_world_allocated rate credits :
  histories_allocated (engine (reading_world rate credits))
                      (heap (reading_world rate credits)).
Proof.
  intros pid l H. simpl in H. apply lookup_singleton_Some in H as [_ <-].
  simpl. rewrite lookup_singleton_eq. eauto.
Defined.

(** The scenario of C6: with a read cost of 3, a threshold of 3 and a pool
    rate of 0.5, a clinic with 5 credits that reads a patient with one entry
    ends with 2 credits, the pool grows by 1 and the returned list has one
    item. *)
Lemma read_history_granted_witness :
  let w := reading_world (PyFloat.lit 5 10) 5 in
  let o := read_history "A" token_A_P w in
  (exists c', Dict.get "A" (Engine.clinics (engine (final o))) = Some c'
              /\ Clinic.credits c' = 2)
  /\ Engine.pool_balance (engine (final o)) = Engine.pool_balance (engine w) + 1
  /\ exists l items,
       returned o = Some l /\ heap (final o) !! l = Some items /\ length items = 1%nat.
Proof.
  intros w o.
  destruct (read_history_granted "A" token_A_P w (clinic_of "A" 5 true 0)
              (PyFloat.mul (PyFloat.of_int 3) (PyFloat.lit 5 10)) 1)
    as (l & now & Hret & Heng & _ & _ & _ & Hl & _).
  - reflexivity.
  - vm_compute. reflexivity.
  - simpl. lia.
  - vm_compute. reflexivity.
  - vm_compute. reflexivity.
  - apply reading_world_allocated.
  - fold o in Hret, Heng, Hl. rewrite Heng. split; [|split].
    + eexists. split; [reflexivity|]. reflexivity.
    + reflexivity.
    + exists l. eexists. split; [exact Hret|]. split; [exact Hl|]. reflexivity.
Defined.

(** C6, as stated, fails when the product is negative: with a read cost of 3
    and a pool rate of -0.5 the product is -1.5, its floor is -2, and the
    pool receives [int(-1.5) = -1]. *)
Lemma read_history_floor_counterexample :
  let w := reading_world (PyFloat.lit (-5) 10) 5 in
  let fee := PyFloat.mul (PyFloat.of_int 3) (PyFloat.lit (-5) 10) in
  returned (can_read "A" token_A_P w) = Some true
  /\ Engine.read_cost (engine w) <= 5
  /\ Dict.get "A" (Engine.clinics (engine w)) = Some (clinic_of "A" 5 true 0)
  /\ int_mul_float (Engine.read_cost (engine w)) (Engine.match_pool_rate (engine w)) = Ok fee
  /\ PyFloat.floor fee = -2
  /\ Engine.pool_balance (engine (final (read_history "A" token_A_P w)))
     = Engine.pool_balance (engine w) - 1
  /\ Engine.pool_balance (engine (final (read_history "A" token_A_P w)))
     <> Engine.pool_balance (engine w) + PyFloat.floor fee.
Proof. vm_compute. repeat split; auto; discriminate. Qed.

(** ** Reputation *)

Lemma le_trans_positive x y z :
  positive_finite x -> positive_finite y -> positive_finite z ->
  PyFloat.le x y = true -> PyFloat.le y z = true -> PyFloat.le x z = true.
Proof.
  destruct x as [| | |[] mx ex], y as [| | |[] my ey], z as [| | |[] mz ez];
    simpl; try tauto. intros _ _ _.
  unfold PyFloat.le, SFleb, SFcompare.
  rewrite !Pos.compare_cont_spec. simpl.
  destruct (Z.compare_spec ex ey), (Z.compare_spec ey ez), (Z.compare_spec ex ez);
    try lia; try discriminate; auto;
    destruct (Pos.compare_spec mx my), (Pos.compare_spec my mz), (Pos.compare_spec mx mz);
    try lia; try discriminate; auto.
Qed.

Lemma le_refl_positive x : positive_finite x -> PyFloat.le x x = true.
Proof.
  destruct x as [| | |[] mx ex]; simpl; try tauto. intros _.
  unfold PyFloat.le, SFleb, SFcompare. rewrite Z.compare_refl.
  rewrite Pos.compare_cont_spec. simpl. now rewrite Pos.compare_refl.
Qed.

Lemma penalties_ok_sound k :
  forall x y,
    penalties_ok k x = Some y ->
    y = Nat.iter k penalised x
    /\ forall j, (j < k)%nat ->
         positive_finite (Nat.iter (S j) penalised x)
         /\ PyFloat.le (Nat.iter (S j) penalised x) (Nat.iter j penalised x) = true
         /\ PyFloat.le (Nat.iter (S j) penalised x) PyFloat.one = true.
Proof.
  induction k as [|k IH]; intros x y H.
  - simpl in H. injection H as <-. split; [reflexivity|]. intros j Hj. lia.
  - cbn [penalties_ok] in H.
    destruct (penalised x) as [| | |[] m e] eqn:Hp; try discriminate.
    destruct (PyFloat.le _ x && PyFloat.le _ PyFloat.one) eqn:Hle; [|discriminate].
    apply andb_true_iff in Hle. destruct Hle as [Hle1 Hle2].
    destruct (IH _ _ H) as [Hy Hsteps]. split.
    + rewrite Nat.iter_succ_r, Hp. exact Hy.
    + intros [|j] Hj.
      * simpl. rewrite Hp. simpl. auto.
      * assert (Hshift : forall i, Nat.iter (S i) penalised x
                                   = Nat.iter i penalised (S754_finite false m e))
          by (intros i; now rewrite Nat.iter_succ_r, Hp).
        rewrite (Hshift (S j)), (Hshift j). apply Hsteps. lia.
Qed.

Lemma orbit_checked :
  penalties_ok (Z.to_nat 7100) PyFloat.one = Some (S754_finite false 5 (-1074))
  /\ penalised (S754_finite false 5 (-1074)) = S754_finite false 5 (-1074).
Proof. vm_compute. auto. Qed.

Lemma orbit_tail n :
  (Z.to_nat 7100 <= n)%nat -> Nat.iter n penalised PyFloat.one = S754_finite false 5 (-1074).
Proof.
  destruct orbit_checked as [Hok Hfix].
  destruct (penalties_ok_sound _ _ _ Hok) as [Hd _].
  intros Hn. replace n with ((n - Z.to_nat 7100) + Z.to_nat 7100)%nat by lia.
  rewrite Nat.iter_add, <- Hd.
  induction (n - Z.to_nat 7100)%nat as [|k IH]; simpl; [reflexivity|].
  rewrite IH. exact Hfix.
Qed.

Lemma orbit_floor :
  positive_finite (S754_finite false 5 (-1074))
  /\ PyFloat.le (S754_finite false 5 (-1074)) PyFloat.one = true.
Proof. split; [exact I | vm_compute; reflexivity]. Qed.

Lemma orbit_step n :
  let orbit k := Nat.iter k penalised PyFloat.one in
  positive_finite (orbit n)
  /\ PyFloat.le (orbit (S n)) (orbit n) = true
  /\ PyFloat.le (orbit n) PyFloat.one = true.
Proof.
  intros orbit. subst orbit. cbv beta.
  destruct orbit_checked as [Hok Hfix].
  destruct (penalties_ok_sound _ _ _ Hok) as [Hd Hsteps].
  pose proof orbit_floor as Hlast.
  destruct (Nat.lt_ge_cases n (Z.to_nat 7100)) as [Hlt|Hge].
  - destruct (Hsteps n Hlt) as (_ & Hle & _). split; [|split; [exact Hle|]].
    + destruct n as [|n]; [vm_compute; exact I|]. apply (Hsteps n). lia.
    + destruct n as [|n]; [vm_compute; reflexivity|]. apply (Hsteps n). lia.
  - rewrite (orbit_tail n Hge), (orbit_tail (S n)) by lia.
    destruct Hlast as [Hp Hl]. split; [exact Hp|]. split; [|exact Hl].
    now apply le_refl_positive.
Qed.

Lemma orbit_monotone n k :
  PyFloat.le (Nat.iter (k + n) penalised PyFloat.one) (Nat.iter n penalised PyFloat.one)
  = true.
Proof.
  induction k as [|k IH]; simpl.
  - apply le_refl_positive. apply (orbit_step n).
  - eapply le_trans_positive; [| | | |exact IH].
    + apply (orbit_step (S (k + n))).
    + apply (orbit_step (k + n)).
    + apply (orbit_step n).
    + apply (orbit_step (k + n)).
Qed.

(** A reputation that started at 1.0 never rises under penalties and never
    exceeds 1.0. *)
Lemma decays_from_one r r' :
  decays_to PyFloat.one r -> decays_to r r' ->
  decays_to PyFloat.one r' /\ PyFloat.le r' r = true /\ PyFloat.le r' PyFloat.one = true.
Proof.
  intros [n ->] [k ->]. rewrite <- Nat.iter_add. split; [|split].
  - exists (k + n)%nat. reflexivity.
  - apply orbit_monotone.
  - apply (orbit_step (k + n)).
Qed.

#[global] Instance reputation_decays_refl : Reflexive reputation_decays.
Proof. intros c. exists 0%nat. reflexivity. Qed.

#[global] Instance reputation_decays_trans : Transitive reputation_decays.
Proof.
  intros c1 c2 c3 [n Hn] [k Hk]. exists (k + n)%nat.
  rewrite Nat.iter_add, <- Hn. exact Hk.
Qed.

(** ** Operations as steps of the clinic table *)

Section LedgerSteps.
Context {R : Type} (E : Entropy R) (rho : Clinic.t -> Clinic.t -> Prop).
Context `{!Reflexive rho} `{!Transitive rho}.
Hypothesis rho_credits : forall c v, rho c (Clinic.set_credits v c).
Hypothesis rho_contribution : forall c v, rho c (Clinic.set_last_round_contribution v c).
Hypothesis rho_opted_in : forall c, rho c (Clinic.set_opted_in false c).
Hypothesis rho_penalty :
  forall c, rho c (Clinic.set_reputation
                     (PyFloat.mul (Clinic.reputation c) (PyFloat.lit 9 10)) c).

Lemma slot_rel_refl (d : Dict.t Clinic.t) : Forall2 (slot_rel rho) d d.
Proof. induction d; constructor; auto. split; reflexivity. Qed.

Lemma stable_update_self_evolves f :
  (forall e, Forall2 (slot_rel rho) (Engine.clinics e) (Engine.clinics (f e))) ->
  stable (evolves (R := R) rho) (update_self f).
Proof. intros H w. unfold evolves. simpl. apply H. Qed.

Ltac ledger_leaf :=
  first
    [ apply stable_write_clinic_evolves; [cls | intros ?; auto]
    | apply stable_update_self_evolves; intros ?; simpl;
      first [ apply slot_rel_refl | apply slot_rel_update_all; intros ?; auto ] ].
Ltac ledger := stab; try ledger_leaf.

Lemma stable_issue_patient_token pid cid ttl :
  stable (evolves (R := R) rho) (issue_patient_token pid cid ttl).
Proof. unfold issue_patient_token. ledger. Qed.

Lemma stable_can_read cid token : stable (evolves (R := R) rho) (can_read cid token).
Proof. unfold can_read. ledger. Qed.

Lemma stable_read_history cid token :
  stable (evolves (R := R) rho) (read_history cid token).
Proof. unfold read_history. stab; try apply stable_can_read; ledger. Qed.

Lemma stable_maybe_dispute entry : stable (evolves (R := R) rho) (_maybe_dispute entry).
Proof. unfold _maybe_dispute. ledger. Qed.

Lemma stable_publish_history cid entry :
  stable (evolves (R := R) rho) (publish_history E cid entry).
Proof. unfold publish_history. stab; try apply stable_maybe_dispute; ledger. Qed.

Lemma stable_decay_credits : stable (evolves (R := R) rho) decay_credits.
Proof.
  unfold decay_credits. stab. apply stable_update_self_evolves. intros e. simpl.
  apply slot_rel_update_all. intros c. unfold decay_one.
  destruct (Clinic.opted_in c && _); [apply rho_credits | reflexivity].
Qed.

Lemma stable_reset_contributions : stable (evolves (R := R) rho) reset_contributions.
Proof. unfold reset_contributions. ledger. Qed.

Lemma stable_distribute_pool : stable (evolves (R := R) rho) distribute_pool.
Proof. unfold distribute_pool. stab; try apply stable_reset_contributions; ledger. Qed.

Lemma stable_opt_in_rate : stable (evolves (R := R) rho) opt_in_rate.
Proof. unfold opt_in_rate. ledger. Qed.

Lemma stable_uniform a b : stable (evolves (R := R) rho) (uniform E a b).
Proof. unfold uniform. ledger. Qed.

Lemma stable_attempt_read patients clinic total :
  stable (evolves (R := R) rho) (attempt_read E patients clinic total).
Proof.
  unfold attempt_read.
  stab; try apply stable_issue_patient_token; try apply stable_read_history; ledger.
Qed.

Lemma stable_attempt_publish patients clinic total :
  stable (evolves (R := R) rho) (attempt_publish E patients clinic total).
Proof.
  unfold attempt_publish.
  stab; try apply stable_uniform; try apply stable_publish_history; ledger.
Qed.

Lemma stable_consider_opt_out clinic :
  stable (evolves (R := R) rho) (consider_opt_out E clinic).
Proof. unfold consider_opt_out. ledger. Qed.

Lemma stable_clinic_turn patients clinic totals :
  stable (evolves (R := R) rho) (clinic_turn E patients clinic totals).
Proof.
  unfold clinic_turn.
  stab; try apply stable_attempt_read; try apply stable_attempt_publish;
    try apply stable_consider_opt_out; ledger.
Qed.

Lemma stable_round patients totals :
  stable (evolves (R := R) rho) (round E patients totals).
Proof.
  unfold round.
  stab; try apply stable_decay_credits; try apply stable_clinic_turn;
    try apply stable_distribute_pool; ledger.
Qed.

Lemma stable_rounds patients n totals :
  stable (evolves (R := R) rho)
         (for_fold (range n) totals (fun _ => round E patients)).
Proof. stab. apply stable_round. Qed.

Lemma stable_report totals : stable (evolves (R := R) rho) (report totals).
Proof. unfold report. stab; try apply stable_opt_in_rate; ledger. Qed.
End LedgerSteps.

(** ** Reputation over the operations and over a simulation *)

#[global] Instance keeps_refl {R} I : Reflexive (keeps (R := R) I).
Proof. intros w H. exact H. Qed.

#[global] Instance keeps_trans {R} I : Transitive (keeps (R := R) I).
Proof. intros w1 w2 w3 H12 H23 H. auto. Qed.

#[global] Instance keeps_engine_only {R} I : EngineOnly (keeps (R := R) I).
Proof. intros w w1 w2 He H H0. rewrite <- He. auto. Qed.

Lemma stable_impl {R A} (P Q : World R -> World R -> Prop) (m : M R A) :
  (forall w w', P w w' -> Q w w') -> stable P m -> stable Q m.
Proof. intros H Hm w. apply H, Hm. Qed.

Section Reputation.
Context {R : Type} (E : Entropy R).
Implicit Types (w : World R) (c : Clinic.t).

Lemma reputation_decays_credits c v : reputation_decays c (Clinic.set_credits v c).
Proof. exists 0%nat. reflexivity. Qed.

Lemma reputation_decays_contribution c v :
  reputation_decays c (Clinic.set_last_round_contribution v c).
Proof. exists 0%nat. reflexivity. Qed.

Lemma reputation_decays_opted_in c v : reputation_decays c (Clinic.set_opted_in v c).
Proof. exists 0%nat. reflexivity. Qed.

Lemma reputation_decays_penalty c :
  reputation_decays c
    (Clinic.set_reputation (PyFloat.mul (Clinic.reputation c) (PyFloat.lit 9 10)) c).
Proof. exists 1%nat. reflexivity. Qed.

(** Every operation is a step of the clinic table along which reputations
    only take penalties. *)
Lemma operation_decays op w : evolves reputation_decays w (world_after E op w).
Proof.
  pose proof reputation_decays_credits. pose proof reputation_decays_contribution.
  pose proof reputation_decays_opted_in. pose proof reputation_decays_penalty.
  destruct op; simpl.
  - apply stable_issue_patient_token; auto; apply _.
  - apply stable_can_read; auto; apply _.
  - apply stable_read_history; auto; apply _.
  - apply stable_publish_history; auto; apply _.
  - apply stable_maybe_dispute; auto; apply _.
  - apply stable_decay_credits; auto; apply _.
  - apply stable_distribute_pool; auto; apply _.
  - apply stable_opt_in_rate; auto; apply _.
  - apply stable_attempt_read; auto; apply _.
  - apply stable_attempt_publish; auto; apply _.
  - apply stable_consider_opt_out; auto; apply _.
  - apply stable_clinic_turn; auto; apply _.
  - apply stable_round; auto; apply _.
  - apply stable_rounds; auto; apply _.
  - apply stable_report; auto; apply _.
Qed.

Lemma evolves_keeps_reputations w w' :
  evolves reputation_decays w w' -> keeps reputations_from_one w w'.
Proof.
  unfold evolves, keeps, reputations_from_one.
  induction 1 as [|[k c] [k' c'] d d' [_ Hr] _ IH]; intros Hall; constructor.
  - apply Forall_inv in Hall. simpl in *.
    destruct (decays_from_one _ _ Hall Hr) as [Hone _]. exact Hone.
  - apply IH. eapply Forall_inv_tail; eauto.
Qed.

Lemma Forall_set {V} (P : string * V -> Prop) k v (d : Dict.t V) :
  (forall k', P (k', v)) -> Forall P d -> Forall P (Dict.set k v d).
Proof.
  intros Hv. unfold Dict.set. induction 1 as [|[k' v'] r Hkv Hr IH]; simpl.
  - constructor; auto.
  - destruct (String.eqb k k'); constructor; auto.
Qed.

Lemma stable_register_clinic starter frf lqf i :
  stable (keeps (R := R) reputations_from_one) (register_clinic E starter frf lqf i).
Proof.
  unfold register_clinic, add_clinic. stab.
  apply stable_update_self. intros w Hinv. simpl.
  apply Forall_set; auto. intros k'. simpl. exists 0%nat. reflexivity.
Qed.

(** The worlds of a simulation hold reputations that follow from 1.0. *)
Lemma simulate_reputations n_clinics n_patients rounds starter_credits frf lqf seed w :
  reputations_from_one
    (engine (final (simulate E n_clinics n_patients rounds starter_credits frf lqf seed w))).
Proof.
  pose proof reputation_decays_credits. pose proof reputation_decays_contribution.
  pose proof reputation_decays_opted_in. pose proof reputation_decays_penalty.
  set (w2 := mkWorld (Engine.init 3 4 2 1 3 (PyFloat.lit 12 100) (PyFloat.lit 45 100) 6
                                  (PyFloat.lit 5 10))
                     (heap w) (rng_seed E seed) (wall w) (reads w)).
  set (patients := map (fun i => ("P" ++ fmt_d 4 i)%string) (range n_patients)).
  assert (Hrest : stable (keeps (R := R) reputations_from_one)
            (for_each (range n_clinics) (register_clinic E starter_credits frf lqf);;
             totals ← for_fold (range rounds) (0, 0) (fun _ => round E patients);
             report totals)).
  { stab.
    - apply stable_register_clinic.
    - eapply stable_impl; [apply evolves_keeps_reputations|].
      apply stable_round; auto; apply _.
    - eapply stable_impl; [apply evolves_keeps_reputations|].
      apply stable_report; auto; apply _. }
  specialize (Hrest w2). apply Hrest. constructor.
Qed.

(** C9. Along every operation of the engine and of the driver, a registered
    clinic whose reputation follows from 1.0 stays registered, its reputation
    only takes dispute penalties, does not rise and does not exceed 1.0; and
    in the world where a simulation ends every reputation follows from 1.0
    and is at most 1.0. *)
Theorem reputation_non_increasing :
  (forall op w k c,
      Dict.get k (Engine.clinics (engine w)) = Some c ->
      decays_to PyFloat.one (Clinic.reputation c) ->
      exists c',
        Dict.get k (Engine.clinics (engine (world_after E op w))) = Some c'
        /\ decays_to (Clinic.reputation c) (Clinic.reputation c')
        /\ PyFloat.le (Clinic.reputation c') (Clinic.reputation c) = true
        /\ PyFloat.le (Clinic.reputation c') PyFloat.one = true)
  /\ (forall n_clinics n_patients rounds starter_credits frf lqf seed w k c,
        Dict.get k (Engine.clinics (engine (final
          (simulate E n_clinics n_patients rounds starter_credits frf lqf seed w)))) = Some c ->
        decays_to PyFloat.one (Clinic.reputation c)
        /\ PyFloat.le (Clinic.reputation c) PyFloat.one = true).
Proof.
  split.
  - intros op w k c Hc Hone.
    destruct (slot_rel_get _ _ _ _ _ (operation_decays op w) Hc) as (c' & Hc' & Hr).
    exists c'. split; [exact Hc'|]. split; [exact Hr|].
    destruct (decays_from_one _ _ Hone Hr) as (_ & Hle & Hle1). auto.
  - intros n_clinics n_patients rounds starter_credits frf lqf seed w k c Hc.
    pose proof (simulate_reputations n_clinics n_patients rounds starter_credits
                  frf lqf seed w) as Hinv.
    apply get_In in Hc. unfold reputations_from_one in Hinv.
    rewrite Forall_forall in Hinv. apply list_elem_of_In in Hc.
    specialize (Hinv _ Hc). simpl in Hinv. split; [exact Hinv|].
    destruct (decays_from_one _ _ Hinv (ex_intro _ 0%nat eq_refl)) as (_ & Hle & _).
    destruct Hinv as [n ->]. apply (orbit_step n).
Qed.
End Reputation.

(** ** Balances *)

#[global] Instance credits_kept_refl : Reflexive credits_kept.
Proof. intros c H. exact H. Qed.

#[global] Instance credits_kept_trans : Transitive credits_kept.
Proof. intros c1 c2 c3 H12 H23 H. auto. Qed.

(** Case analysis on every test of an unfolded operation, innermost first. *)
Ltac exec_step :=
  first
    [ rewrite store_store
    | rewrite slot_store_same
    | rewrite find_store
    | match goal with
      | H : Dict.slot ?i ?d = Some _ |- context [Dict.slot ?i ?d] => rewrite H
      | H : Dict.find ?k ?d = Some _ |- context [Dict.find ?k ?d] => rewrite H
      end
    | match goal with
      | |- context [match ?x with _ => _ end] =>
          lazymatch x with
          | context [match _ with _ => _ end] => fail
          | context [if _ then _ else _] => fail
          | _ => destruct x eqn:?
          end
      | |- context [if ?b then _ else _] =>
          lazymatch b with
          | context [match _ with _ => _ end] => fail
          | context [if _ then _ else _] => fail
          | _ => destruct b eqn:?
          end
      end ];
  simpl; simplify_eq.
Ltac exec := repeat exec_step.

(** Floats that are not below zero, NaN apart. *)
Lemma binary_round_aux_sign mx ex lx :
  match binary_round_aux PyFloat.prec PyFloat.emax false mx ex lx with
  | S754_zero _ | S754_finite false _ _ | S754_infinity false | S754_nan => True
  | _ => False
  end.
Proof.
  unfold binary_round_aux.
  destruct (shr_fexp _ _ mx ex lx) as [mrs' e'].
  destruct (shr_fexp _ _ _ e' loc_Exact) as [mrs'' e''].
  destruct (shr_m mrs''); auto.
  destruct (e'' <=? _); auto.
Qed.

Lemma pool_share_sign pool n total share :
  0 < pool -> 0 < n -> 0 < total ->
  pool_share pool n total = Ok share -> 0 <= share.
Proof.
  intros Hpool Hn Htotal. unfold pool_share, int_truediv, int_mul_float, float_of_int.
  destruct (Z.eqb_spec total 0) as [|_]; [lia|].
  destruct pool as [|pool|pool]; try lia.
  destruct n as [|n|n]; try lia.
  destruct total as [|total|total]; try lia.
  unfold PyFloat.div, PyFloat.exact, SFdiv.
  destruct (SFdiv_core_binary _ _ _ _ _ _) as [[mz ez] lz].
  pose proof (binary_round_aux_sign mz ez lz) as Hq. simpl xorb.
  destruct (binary_round_aux _ _ false mz ez lz) as [sq|[]| |[] mq eq];
    try tauto; try discriminate; simpl PyFloat.is_inf; cbv iota.
  all: unfold PyFloat.of_int, binary_normalize, binary_round.
  all: destruct (shl_align _ _ _) as [mp ep].
  all: pose proof (binary_round_aux_sign (Z.pos mp) ep loc_Exact) as Hp.
  all: destruct (binary_round_aux _ _ false (Z.pos mp) ep loc_Exact) as [sp|[]| |[] mp' ep'];
    try tauto; try discriminate; simpl PyFloat.is_inf; cbv iota.
  all: unfold PyFloat.mul, SFmul, int_of_float; simpl xorb.
  1-3: intros [= <-]; unfold PyFloat.truncate; cbv beta iota; lia.
  pose proof (binary_round_aux_sign (Z.pos (mp' * mq)) (ep' + eq) loc_Exact) as Hm.
  destruct (binary_round_aux _ _ false _ _ loc_Exact) as [sm|[]| |[] mm em];
    try tauto; try discriminate; intros [= <-]; unfold PyFloat.truncate;
    cbv beta iota; unfold cond_Zopp.
  - lia.
  - destruct (Z.leb_spec 0 em).
    + apply Z.mul_nonneg_nonneg; [lia|]. apply Z.pow_nonneg. lia.
    + apply Z.div_pos; [lia|]. apply Z.pow_pos_nonneg; lia.
Qed.

Section Balances.
Context {R : Type} (E : Entropy R).
Implicit Types (w : World R) (c : Clinic.t).

Lemma slot_rel_trans rho `{!Transitive rho} (d1 d2 d3 : Dict.t Clinic.t) :
  Forall2 (slot_rel rho) d1 d2 -> Forall2 (slot_rel rho) d2 d3 ->
  Forall2 (slot_rel rho) d1 d3.
Proof.
  intros H12 H23. eapply Forall2_trans; [|exact H12|exact H23].
  intros x y z [Hk Hr] [Hk' Hr']. split; [congruence|]. etransitivity; eauto.
Qed.

Ltac ztests :=
  repeat match goal with
  | H : (_ <? _) = true |- _ => apply Z.ltb_lt in H
  | H : (_ <? _) = false |- _ => apply Z.ltb_ge in H
  | H : (_ <=? _) = true |- _ => apply Z.leb_le in H
  | H : (_ <=? _) = false |- _ => apply Z.leb_gt in H
  end.

Ltac kept :=
  simplify_eq; rewrite ?store_store;
  lazymatch goal with
  | |- Forall2 _ ?d ?d => apply slot_rel_refl; cls
  | |- Forall2 _ ?d (Dict.store ?j ?v ?d) =>
      eapply slot_rel_store;
      [cls | eassumption | unfold credits_kept; simpl; ztests; lia]
  | |- Forall2 _ ?d (Dict.store ?j ?v ?d') =>
      apply (slot_rel_trans credits_kept d d');
      [kept | eapply slot_rel_store;
              [cls | eassumption | unfold credits_kept; simpl; ztests; lia]]
  end.

Lemma read_history_keeps_credits cid token :
  stable (evolves (R := R) credits_kept) (read_history cid token).
Proof.
  intros [e h r cl n]. unfold read_history, can_read. run. unfold evolves.
  exec; kept.
Qed.

Lemma maybe_dispute_keeps_credits entry :
  stable (evolves (R := R) credits_kept) (_maybe_dispute entry).
Proof.
  intros [e h r cl n]. unfold _maybe_dispute. run. unfold evolves.
  exec; kept.
Qed.

Lemma publish_history_keeps_credits cid entry w :
  0 <= Engine.publish_reward (engine w) ->
  evolves credits_kept w (final (publish_history E cid entry w)).
Proof.
  destruct w as [e h r cl n]. simpl. intros Hreward.
  unfold publish_history, _maybe_dispute, random. run. unfold evolves.
  destruct (rng_random E r) as [u r']. simpl.
  exec; kept.
Qed.

Lemma decay_credits_keeps_credits :
  stable (evolves (R := R) credits_kept) decay_credits.
Proof.
  intros w. unfold decay_credits. run. unfold evolves. simpl.
  apply slot_rel_update_all. intros c Hc. unfold decay_one.
  destruct (Clinic.opted_in c && (0 <? Clinic.credits c)); simpl; [lia|exact Hc].
Qed.

Lemma for_each_inv {A} (J : World R -> Prop) (P : World R -> World R -> Prop)
      `{!Reflexive P} `{!Transitive P} (xs : list A) body :
  (forall x w, In x xs -> J w ->
     P w (final (body x w)) /\ (forall u w', body x w = Return u w' -> J w')) ->
  forall w, J w ->
    P w (final (for_each xs body w))
    /\ (forall u w', for_each xs body w = Return u w' -> J w').
Proof.
  induction xs as [|x r IH]; intros Hbody w HJ; simpl.
  - split; [reflexivity|]. intros u w' [= <- <-]. exact HJ.
  - destruct (Hbody x w (or_introl eq_refl) HJ) as [HP HJ'].
    unfold mbind, M_bind. destruct (body x w) as [u w1|e w1]; simpl in *.
    + destruct (IH (fun y w0 Hy => Hbody y w0 (or_intror Hy)) w1 (HJ' _ _ eq_refl))
        as [HP1 HJ1].
      split; [etransitivity; eauto|]. exact HJ1.
    + split; [exact HP|]. discriminate.
Qed.

Lemma fold_add_positive (f : nat -> Z) (xs : list nat) :
  xs <> [] -> (forall x, In x xs -> 0 < f x) ->
  0 < fold_left Z.add (map f xs) 0.
Proof.
  intros Hne Hpos.
  assert (Hacc : forall l a, (forall x, In x l -> 0 < f x) ->
                             a <= fold_left Z.add (map f l) a).
  { induction l as [|y l IH]; intros a Hl; simpl; [lia|].
    specialize (IH (a + f y) (fun x Hx => Hl x (or_intror Hx))).
    specialize (Hl y (or_introl eq_refl)). lia. }
  destruct xs as [|x xs]; [congruence|]. simpl.
  specialize (Hacc xs (f x) (fun y Hy => Hpos y (or_intror Hy))).
  specialize (Hpos x (or_introl eq_refl)). rewrite Z.add_0_l. lia.
Qed.

Lemma contribution_selected (d : Dict.t Clinic.t) i :
  In i (Dict.select (fun c => 0 <? Clinic.last_round_contribution c) d) ->
  0 < contribution d i.
Proof.
  intros Hin. apply select_In in Hin. destruct Hin as (c & Hs & Hp).
  unfold contribution. rewrite Hs. now apply Z.ltb_lt.
Qed.

Lemma contribution_store_credits (d : Dict.t Clinic.t) i j c v :
  Dict.slot i d = Some c ->
  contribution (Dict.store i (Clinic.set_credits v c) d) j = contribution d j.
Proof.
  intros Hs. unfold contribution. destruct (decide (i = j)) as [<-|Hne].
  - rewrite slot_store_same, Hs. reflexivity.
  - now rewrite slot_store_ne.
Qed.

Lemma distribute_pool_keeps_credits :
  stable (evolves (R := R) credits_kept) distribute_pool.
Proof.
  intros w. unfold distribute_pool.
  unfold mbind at 1 2. unfold M_bind at 1 2. unfold self at 1 2.
  set (d := Engine.clinics (engine w)).
  set (contributors := Dict.select (fun c => 0 <? Clinic.last_round_contribution c) d).
  set (total := fold_left Z.add (map (contribution d) contributors) 0).
  destruct (is_nil contributors || (Engine.pool_balance (engine w) <=? 0)) eqn:Hguard.
  - unfold reset_contributions. run. unfold evolves. simpl.
    apply slot_rel_update_all. intros c Hc. exact Hc.
  - apply orb_false_iff in Hguard. destruct Hguard as [Hnil Hpool].
    apply Z.leb_gt in Hpool.
    assert (Htotal : 0 < total).
    { apply fold_add_positive.
      - intros Heq. rewrite Heq in Hnil. discriminate.
      - intros x Hx. now apply contribution_selected. }
    set (J := fun w' : World R =>
                Engine.pool_balance (engine w') = Engine.pool_balance (engine w)
                /\ forall i, In i contributors ->
                     0 < contribution (Engine.clinics (engine w')) i).
    assert (HJ : J w).
    { split; [reflexivity|]. intros i Hi. now apply contribution_selected. }
    unfold mbind at 1. unfold M_bind at 1.
    match goal with
    | |- context [for_each ?xs ?b w] =>
        destruct (for_each_inv J (evolves credits_kept) xs b) with (w := w)
          as [Hloop HJ1]; auto
    end.
    + intros x [e h r cl n] Hx [Hpool1 Hcontr]. simpl in *.
      specialize (Hcontr x Hx) as Hlrc. unfold contribution in Hlrc.
      run. unfold evolves. simpl.
      destruct (Dict.slot x (Engine.clinics e)) as [c|] eqn:Hs; simpl.
      * destruct (pool_share _ _ total) as [share|err] eqn:Hshare; simpl.
        -- rewrite Hs. simpl.
           assert (0 <= share)
             by (eapply pool_share_sign; [| | |exact Hshare]; lia).
           split.
           ++ eapply slot_rel_store; [apply _|exact Hs|]. intros Hc. simpl. lia.
           ++ intros u w' [= <- <-]. split; simpl; auto.
              intros i Hi. rewrite (contribution_store_credits _ _ _ _ _ Hs). auto.
        -- split; [apply slot_rel_refl; apply _|discriminate].
      * split; [apply slot_rel_refl; apply _|discriminate].
    + match goal with
      | |- context [for_each ?xs ?b w] => destruct (for_each xs b w) as [[] w1|x w1]
      end; simpl in *; auto.
      unfold reset_contributions. run. etransitivity; [exact Hloop|].
      unfold evolves. simpl. apply slot_rel_update_all. intros c Hc. exact Hc.
Qed.

(** The penalty of a dispute on a low-quality entry of a registered author. *)
Lemma maybe_dispute_run entry w a :
  PyFloat.lt (HistoryEntry.quality_score entry) (Engine.dispute_threshold (engine w)) = true ->
  Dict.get (HistoryEntry.author_clinic_id entry) (Engine.clinics (engine w)) = Some a ->
  let penalty := Z.min (Engine.slash_amount (engine w)) (Clinic.credits a) in
  _maybe_dispute entry w
  = Return tt
      (mkWorld
         (Engine.set_clinics
            (Dict.set (HistoryEntry.author_clinic_id entry)
               (Clinic.set_reputation
                  (PyFloat.mul (Clinic.reputation a) (PyFloat.lit 9 10))
                  (Clinic.set_credits (Clinic.credits a - penalty) a))
               (Engine.clinics (engine w))) (engine w))
         (heap w) (rng w) (wall w) (reads w)).
Proof.
  intros Hq Ha penalty. destruct (get_slot _ _ _ Ha) as (i & Hf & Hs).
  destruct w as [e h r cl n]. simpl in *.
  unfold _maybe_dispute. run. rewrite Hq. simpl. rewrite Hf. simpl. rewrite Hs. simpl.
  rewrite Hs. simpl. rewrite slot_store_same, Hs. simpl.
  rewrite store_store, (store_set _ _ _ _ Hf). reflexivity.
Qed.

(** C5 (amended). A registered clinic whose balance is not negative keeps a
    balance that is not negative along [read_history], the dispute check,
    [decay_credits] and [distribute_pool], and along [publish_history] when
    the publish reward is not negative; the slash of a dispute is
    [min(slash_amount, balance)]. *)
Theorem credits_stay_non_negative :
  (forall op w k c,
      ledger_operation op = true ->
      (is_publish op = true -> 0 <= Engine.publish_reward (engine w)) ->
      Dict.get k (Engine.clinics (engine w)) = Some c ->
      0 <= Clinic.credits c ->
      exists c',
        Dict.get k (Engine.clinics (engine (world_after E op w))) = Some c'
        /\ 0 <= Clinic.credits c')
  /\ (forall entry w a,
        PyFloat.lt (HistoryEntry.quality_score entry)
                   (Engine.dispute_threshold (engine w)) = true ->
        Dict.get (HistoryEntry.author_clinic_id entry) (Engine.clinics (engine w)) = Some a ->
        exists a',
          Dict.get (HistoryEntry.author_clinic_id entry)
                   (Engine.clinics (engine (final (_maybe_dispute entry w)))) = Some a'
          /\ Clinic.credits a'
             = Clinic.credits a - Z.min (Engine.slash_amount (engine w)) (Clinic.credits a)).
Proof.
  split.
  - intros op w k c Hop Hreward Hc Hpos.
    assert (Hev : evolves credits_kept w (world_after E op w)).
    { destruct op; try discriminate; simpl.
      - apply read_history_keeps_credits.
      - apply publish_history_keeps_credits. now apply Hreward.
      - apply maybe_dispute_keeps_credits.
      - apply decay_credits_keeps_credits.
      - apply distribute_pool_keeps_credits. }
    destruct (slot_rel_get _ _ _ _ _ Hev Hc) as (c' & Hc' & Hk).
    exists c'. split; [exact Hc'|]. now apply Hk.
  - intros entry w a Hq Ha. rewrite (maybe_dispute_run entry w a Hq Ha). simpl.
    rewrite get_set_eq. eexists. split; [reflexivity|]. reflexivity.
Qed.
End Balances.

(** C5, as stated, fails under a negative publish reward: with a reward of
    -5 and a stake of 2, a clinic with 3 credits publishes and ends with -4. *)
Lemma publish_history_reward_counterexample :
  let w := negative_reward_world in
  exists c c',
    Dict.get "A" (Engine.clinics (engine w)) = Some c
    /\ 0 <= Clinic.credits c
    /\ Dict.get "A" (Engine.clinics (engine (final (publish_history still "A" entry_B_P w))))
       = Some c'
    /\ Clinic.credits c' = -4.
Proof.
  simpl. do 2 eexists. split; [reflexivity|]. split; [simpl; lia|].
  split; vm_compute; reflexivity.
Qed.

Lemma credits_stay_non_negative_witness :
  let w := world_of (default_engine [("A"%string, clinic_of "A" 5 true 0)] 0) in
  exists c',
    Dict.get "A" (Engine.clinics
                    (engine (world_after still (Publish_history "A" poor_entry_A_P) w)))
    = Some c'
    /\ 0 <= Clinic.credits c'.
Proof.
  intros w.
  apply (proj1 (credits_stay_non_negative still)
               (Publish_history "A" poor_entry_A_P) w "A" (clinic_of "A" 5 true 0)).
  - reflexivity.
  - intros _. simpl. lia.
  - reflexivity.
  - simpl. lia.
Defined.

Lemma reputation_non_increasing_witness :
  let w := world_of (default_engine [("A"%string, clinic_of "A" 5 true 0)] 0) in
  exists c',
    Dict.get "A" (Engine.clinics
                    (engine (world_after still (Publish_history "A" poor_entry_A_P) w)))
    = Some c'
    /\ decays_to PyFloat.one (Clinic.reputation c')
    /\ PyFloat.le (Clinic.reputation c') PyFloat.one = true
    /\ PyFloat.le (Clinic.reputation c') PyFloat.one = true.
Proof.
  intros w.
  apply (proj1 (reputation_non_increasing still)
               (Publish_history "A" poor_entry_A_P) w "A" (clinic_of "A" 5 true 0)).
  - reflexivity.
  - exists 0%nat. reflexivity.
Defined.

(** ** Two runs of one computation *)

Section Runs.
Context {R : Type} (E : Entropy R).
Implicit Types (w : World R).

Lemma ledger_fields e1 e2 :
  ledger e1 = ledger e2 ->
  Engine.read_cost e1 = Engine.read_cost e2
  /\ Engine.publish_reward e1 = Engine.publish_reward e2
  /\ Engine.publish_stake e1 = Engine.publish_stake e2
  /\ Engine.decay_per_round e1 = Engine.decay_per_round e2
  /\ Engine.min_credits_to_read e1 = Engine.min_credits_to_read e2
  /\ Engine.dispute_probability e1 = Engine.dispute_probability e2
  /\ Engine.dispute_threshold e1 = Engine.dispute_threshold e2
  /\ Engine.slash_amount e1 = Engine.slash_amount e2
  /\ Engine.match_pool_rate e1 = Engine.match_pool_rate e2
  /\ Engine.clinics e1 = Engine.clinics e2
  /\ Engine.pool_balance e1 = Engine.pool_balance e2.
Proof.
  destruct e1, e2. unfold ledger. simpl. intros [=]. subst. repeat split.
Qed.

Lemma rel_bind {A B} Pre (m1 m2 : M R A) Mid (k1 k2 : A -> M R B) Post :
  rel_run Pre m1 m2 Mid ->
  (forall a1 a2, rel_run (fun w1 w2 => Mid a1 w1 a2 w2) (k1 a1) (k2 a2) Post) ->
  rel_run Pre (m1 ≫= k1) (m2 ≫= k2) Post.
Proof.
  intros Hm Hk w1 w2 Hpre. specialize (Hm w1 w2 Hpre). unfold mbind, M_bind.
  destruct (m1 w1) as [a1 w1'|x1 w1'], (m2 w2) as [a2 w2'|x2 w2']; try tauto.
  apply (Hk a1 a2 w1' w2' Hm).
Qed.

Lemma rel_weaken {A} (Pre Pre' : World R -> World R -> Prop) (m1 m2 : M R A) Post :
  (forall w1 w2, Pre' w1 w2 -> Pre w1 w2) ->
  rel_run Pre m1 m2 Post -> rel_run Pre' m1 m2 Post.
Proof. intros H Hm w1 w2 Hpre. apply Hm, H, Hpre. Qed.

Lemma sim_bind {A B} (Ra : A -> A -> Prop) (Rb : B -> B -> Prop)
      (m1 m2 : M R A) (k1 k2 : A -> M R B) :
  sim Ra m1 m2 ->
  (forall a1 a2, Ra a1 a2 -> sim Rb (k1 a1) (k2 a2)) ->
  sim Rb (m1 ≫= k1) (m2 ≫= k2).
Proof.
  intros Hm Hk. eapply rel_bind; [exact Hm|].
  intros a1 a2 w1 w2 [Ha Hw]. apply (Hk a1 a2 Ha w1 w2 Hw).
Qed.

Lemma sim_ret {A} (Rv : A -> A -> Prop) a1 a2 :
  Rv a1 a2 -> sim (R := R) Rv (mret a1) (mret a2).
Proof. intros Ha w1 w2 Hw. split; auto. Qed.

Lemma sim_raise {A} (Rv : A -> A -> Prop) x : sim (R := R) Rv (raise x) (raise x).
Proof. intros w1 w2 Hw. reflexivity. Qed.

Lemma sim_lift {A} (r : Res A) : sim (R := R) eq (lift r) (lift r).
Proof. destruct r; [now apply sim_ret | apply sim_raise]. Qed.

Lemma sim_self {A} (attr : Engine.t -> A) :
  (forall e1 e2, ledger e1 = ledger e2 -> attr e1 = attr e2) ->
  sim (R := R) eq (self attr) (self attr).
Proof.
  intros Hattr w1 w2 Hw. split; [|exact Hw]. apply Hattr. apply Hw.
Qed.

Lemma akin_wall w1 w2 n1 n2 :
  akin w1 w2 ->
  akin (mkWorld (engine w1) (heap w1) (rng w1) (wall w1) n1)
       (mkWorld (engine w2) (heap w2) (rng w2) (wall w2) n2).
Proof. intros H. exact H. Qed.

Lemma sim_time : sim (fun _ _ => True) (time (R := R)) time.
Proof. intros w1 w2 Hw. split; [exact I|]. now apply akin_wall. Qed.

Lemma sim_random : sim eq (random E) (random E).
Proof.
  intros w1 w2 Hw. unfold random.
  destruct Hw as (Hr & Hrest). rewrite <- Hr.
  destruct (rng_random E (rng w1)) as [u r]. split; [reflexivity|].
  split; [reflexivity|exact Hrest].
Qed.

Lemma sim_choice {A} (xs : list A) : sim eq (choice E xs) (choice E xs).
Proof.
  intros w1 w2 Hw. unfold choice. destruct xs as [|x xs]; [reflexivity|].
  destruct Hw as (Hr & Hrest). rewrite <- Hr.
  destruct (rng_below E _ (rng w1)) as [i r].
  destruct (nth_error _ i); [|reflexivity].
  split; [reflexivity|]. split; [reflexivity|exact Hrest].
Qed.

Lemma sim_find_clinic k : sim eq (find_clinic (R := R) k) (find_clinic k).
Proof.
  intros w1 w2 Hw. unfold find_clinic.
  destruct Hw as (Hr & Hl & Hrest). pose proof (ledger_fields _ _ Hl) as Hf.
  destruct Hf as (_ & _ & _ & _ & _ & _ & _ & _ & _ & <- & _).
  destruct (Dict.find k _); [|reflexivity]. split; [reflexivity|].
  split; [exact Hr|]. split; [exact Hl|exact Hrest].
Qed.

Lemma sim_read_clinic i : sim eq (read_clinic (R := R) i) (read_clinic i).
Proof.
  intros w1 w2 Hw. unfold read_clinic.
  destruct Hw as (Hr & Hl & Hrest). pose proof (ledger_fields _ _ Hl) as Hf.
  destruct Hf as (_ & _ & _ & _ & _ & _ & _ & _ & _ & <- & _).
  destruct (Dict.slot i _); [|reflexivity]. split; [reflexivity|].
  split; [exact Hr|]. split; [exact Hl|exact Hrest].
Qed.

(** An assignment to the engine that leaves histories and access log alone. *)
Lemma sim_update_self f :
  (forall e, Engine.patient_histories (f e) = Engine.patient_histories e) ->
  (forall e1 e2, ledger e1 = ledger e2 -> ledger (f e1) = ledger (f e2)) ->
  sim eq (update_self (R := R) f) (update_self f).
Proof.
  intros Hph Hled w1 w2 (Hr & Hl & Hlen & [Ha1 Hi1] & [Ha2 Hi2] & Hs1 & Hs2).
  unfold update_self. split; [reflexivity|].
  unfold akin, history_lengths, histories_wf, histories_allocated in *. simpl.
  rewrite !Hph. repeat split; auto.
Qed.

(** The new entry of the access log. *)
Lemma sim_log_access (x1 x2 : float * string * string) :
  sim eq
    (update_self (R := R)
       (fun e => Engine.set_access_log (Engine.access_log e ++ [x1]) e))
    (update_self (fun e => Engine.set_access_log (Engine.access_log e ++ [x2]) e)).
Proof.
  intros [e1 h1 r1 c1 n1] [e2 h2 r2 c2 n2]
         (Hr & Hl & Hlen & [Ha1 Hi1] & [Ha2 Hi2] & Hs1 & Hs2).
  unfold update_self. split; [reflexivity|]. simpl in *.
  destruct e1, e2. unfold akin. simpl. repeat split; auto.
Qed.

Lemma sim_write_clinic i f : sim eq (write_clinic (R := R) i f) (write_clinic i f).
Proof.
  unfold write_clinic. eapply sim_bind; [apply sim_read_clinic|].
  intros c ? <-. apply sim_update_self.
  - intros e. reflexivity.
  - intros e1 e2 Hl. destruct e1, e2. unfold ledger in *. simplify_eq/=. reflexivity.
Qed.

Lemma sim_for_each {A} (xs : list A) body1 body2 :
  (forall x, sim eq (body1 x) (body2 x)) ->
  sim (R := R) eq (for_each xs body1) (for_each xs body2).
Proof.
  intros Hb. induction xs as [|x r IH]; simpl.
  - now apply sim_ret.
  - eapply sim_bind; [apply Hb|]. intros _ _ _. exact IH.
Qed.

Lemma sim_for_fold {A S} (xs : list A) (acc : S) body1 body2 :
  (forall x s, sim eq (body1 x s) (body2 x s)) ->
  sim (R := R) eq (for_fold xs acc body1) (for_fold xs acc body2).
Proof.
  intros Hb. revert acc. induction xs as [|x r IH]; intros acc; simpl.
  - now apply sim_ret.
  - eapply sim_bind; [apply Hb|]. intros s ? <-. apply IH.
Qed.

(** *** List objects *)

Lemma lengths_lookup e (h : gmap loc (list HistoryEntry.t)) pid :
  history_lengths e h !! pid
  = (fun l => length (default [] (h !! l))) <$> (Engine.patient_histories e !! pid).
Proof. unfold history_lengths. apply lookup_fmap. Qed.

Lemma lengths_alloc e (h : gmap loc (list HistoryEntry.t)) l xs :
  histories_allocated e h -> h !! l = None ->
  history_lengths e (<[l := xs]> h) = history_lengths e h.
Proof.
  intros Ha Hl. unfold history_lengths. apply map_fmap_ext. intros pid l' Hpid.
  destruct (Ha pid l' Hpid) as [ys Hys].
  rewrite lookup_insert_ne by congruence. reflexivity.
Qed.

Lemma wf_alloc e (h : gmap loc (list HistoryEntry.t)) l xs :
  histories_wf e h -> histories_wf e (<[l := xs]> h).
Proof.
  intros [Ha Hi]. split; [|exact Hi]. intros pid l' Hpid.
  destruct (decide (l = l')) as [<-|Hne].
  - rewrite lookup_insert_eq. eauto.
  - rewrite lookup_insert_ne by auto. eauto.
Qed.

Lemma fresh_unallocated (h : gmap loc (list HistoryEntry.t)) : h !! fresh (dom h) = None.
Proof. apply not_elem_of_dom, is_fresh. Qed.

Lemma sim_new_list xs1 xs2 :
  rel_run akin (new_list (R := R) xs1) (new_list xs2)
    (fun l1 w1 l2 w2 =>
       akin w1 w2 /\ heap w1 !! l1 = Some xs1 /\ heap w2 !! l2 = Some xs2).
Proof.
  intros w1 w2 (Hr & Hl & Hlen & Hw1 & Hw2 & Hs1 & Hs2). unfold new_list.
  split; [|simpl; now rewrite !lookup_insert_eq].
  unfold akin. simpl.
  rewrite !lengths_alloc by (first [apply Hw1 | apply Hw2 | apply fresh_unallocated]).
  repeat split; auto; try apply wf_alloc; auto; try apply Hw1; try apply Hw2.
Qed.

Lemma sim_list_items l1 l2 :
  rel_run
    (fun w1 w2 : World R =>
       akin w1 w2
       /\ length (default [] (heap w1 !! l1)) = length (default [] (heap w2 !! l2)))
    (list_items l1) (list_items l2)
    (agree (fun xs1 xs2 => length xs1 = length xs2)).
Proof. intros w1 w2 [Hw Hlen]. unfold list_items. split; auto. Qed.

(** The read of the stored history and its copy, at the end of
    [read_history]. *)
Lemma sim_copy_history pid :
  rel_run akin
    (histories ← self (R := R) Engine.patient_histories;
     stored ← match histories !! pid with
              | Some l => mret l
              | None => new_list []
              end;
     items ← list_items stored;
     new_list items)
    (histories ← self Engine.patient_histories;
     stored ← match histories !! pid with
              | Some l => mret l
              | None => new_list []
              end;
     items ← list_items stored;
     new_list items)
    (fun l1 w1 l2 w2 =>
       akin w1 w2
       /\ length (default [] (heap w1 !! l1)) = length (default [] (heap w2 !! l2))).
Proof.
  intros [e1 h1 r1 c1 n1] [e2 h2 r2 c2 n2] Hw.
  assert (Hw' := Hw). destruct Hw' as (Hr & Hl & Hlen & Hw1 & Hw2 & Hs1 & Hs2).
  simpl in *.
  pose proof (f_equal (fun m => m !! pid) Hlen) as Hpid. simpl in Hpid.
  rewrite !lengths_lookup in Hpid.
  run.
  destruct (Engine.patient_histories e1 !! pid) as [l1|] eqn:H1,
           (Engine.patient_histories e2 !! pid) as [l2|] eqn:H2;
    simpl in Hpid; try discriminate; simpl.
  - injection Hpid as Hpid.
    pose proof (sim_new_list (default [] (h1 !! l1)) (default [] (h2 !! l2)) _ _ Hw)
      as Hnew.
    unfold new_list in Hnew. simpl in Hnew. destruct Hnew as (Hak & Hx1 & Hx2).
    split; [exact Hak|]. rewrite !lookup_insert_eq. exact Hpid.
  - pose proof (sim_new_list [] [] _ _ Hw) as Hnew.
    unfold new_list in Hnew. simpl in Hnew. destruct Hnew as (Hak & Hx1 & Hx2).
    rewrite !lookup_insert_eq. simpl.
    pose proof (sim_new_list [] [] _ _ Hak) as Hnew2.
    unfold new_list in Hnew2. simpl in Hnew2. destruct Hnew2 as (Hak2 & Hy1 & Hy2).
    split; [exact Hak2|]. reflexivity.
Qed.

Lemma lengths_append e (h : gmap loc (list HistoryEntry.t)) pid l x :
  histories_wf e h -> Engine.patient_histories e !! pid = Some l ->
  history_lengths e (<[l := default [] (h !! l) ++ [x]]> h)
  = <[pid := S (length (default [] (h !! l)))]> (history_lengths e h).
Proof.
  intros [Ha Hi] Hpid. apply map_eq. intros pid'.
  rewrite lengths_lookup, lookup_insert, lengths_lookup.
  destruct (decide (pid = pid')) as [<-|Hne].
  - rewrite Hpid. simpl. rewrite lookup_insert_eq. simpl.
    rewrite length_app. simpl. f_equal. lia.
  - destruct (Engine.patient_histories e !! pid') as [l'|] eqn:Hl'; simpl; [|reflexivity].
    rewrite lookup_insert_ne; [reflexivity|].
    intros <-. apply Hne. eapply Hi; eauto.
Qed.

Lemma wf_append e (h : gmap loc (list HistoryEntry.t)) l xs :
  histories_wf e h -> histories_wf e (<[l := xs]> h).
Proof. apply wf_alloc. Qed.

Lemma lengths_new e (h : gmap loc (list HistoryEntry.t)) pid l ys :
  histories_wf e h -> h !! l = None ->
  history_lengths
    (Engine.set_patient_histories (<[pid := l]> (Engine.patient_histories e)) e)
    (<[l := ys]> (<[l := []]> h))
  = <[pid := length ys]> (history_lengths e h).
Proof.
  intros [Ha Hi] Hl. apply map_eq. intros pid'.
  rewrite lengths_lookup, (lookup_insert (history_lengths e h)), lengths_lookup.
  destruct e; simpl in *. rewrite lookup_insert.
  destruct (decide (pid = pid')) as [<-|Hne]; simpl.
  - now rewrite lookup_insert_eq.
  - destruct (patient_histories !! pid') as [l'|] eqn:Hl'; simpl; [|reflexivity].
    destruct (Ha pid' l' Hl') as [zs Hzs].
    rewrite !lookup_insert_ne by congruence. reflexivity.
Qed.

Lemma wf_new e (h : gmap loc (list HistoryEntry.t)) pid l ys :
  histories_wf e h -> h !! l = None ->
  histories_wf
    (Engine.set_patient_histories (<[pid := l]> (Engine.patient_histories e)) e)
    (<[l := ys]> (<[l := []]> h)).
Proof.
  intros [Ha Hi] Hl. destruct e; simpl in *. split.
  - intros p l' Hp. simpl in Hp. rewrite lookup_insert in Hp.
    destruct (decide (pid = p)).
    + injection Hp as <-. rewrite lookup_insert_eq. eauto.
    + destruct (Ha p l' Hp) as [zs Hzs].
      rewrite !lookup_insert_ne by congruence. eauto.
  - intros p p' l' Hp Hp'. simpl in *. rewrite lookup_insert in Hp, Hp'.
    destruct (decide (pid = p)), (decide (pid = p')); subst; auto.
    + injection Hp as <-. destruct (Ha p' l Hp') as [zs Hzs]. congruence.
    + injection Hp' as <-. destruct (Ha p l Hp) as [zs Hzs]. congruence.
    + eapply Hi; eauto.
Qed.

(** The append of a published entry to the history of its patient, followed
    by the rest of [publish_history]. *)
Lemma sim_store_entry {B} (Rb : B -> B -> Prop) pid x1 x2 (k1 k2 : M R B) :
  sim Rb k1 k2 ->
  sim Rb
    (histories ← self Engine.patient_histories;
     stored ← match histories !! pid with
              | Some l => mret l
              | None =>
                  l ← new_list [];
                  update_self (Engine.set_patient_histories (<[pid := l]> histories));;
                  mret l
              end;
     list_append stored x1;; k1)
    (histories ← self Engine.patient_histories;
     stored ← match histories !! pid with
              | Some l => mret l
              | None =>
                  l ← new_list [];
                  update_self (Engine.set_patient_histories (<[pid := l]> histories));;
                  mret l
              end;
     list_append stored x2;; k2).
Proof.
  intros Hk [e1 h1 r1 c1 n1] [e2 h2 r2 c2 n2] Hw.
  assert (Hw' := Hw). destruct Hw' as (Hr & Hl & Hlen & Hw1 & Hw2 & Hs1 & Hs2).
  simpl in *.
  pose proof (f_equal (fun m => m !! pid) Hlen) as Hpid. simpl in Hpid.
  rewrite !lengths_lookup in Hpid.
  run.
  destruct (Engine.patient_histories e1 !! pid) as [l1|] eqn:H1,
           (Engine.patient_histories e2 !! pid) as [l2|] eqn:H2;
    simpl in Hpid; try discriminate; simpl.
  - injection Hpid as Hpid. apply Hk.
    unfold akin. simpl.
    rewrite (lengths_append e1 h1 pid l1 x1 Hw1 H1).
    rewrite (lengths_append e2 h2 pid l2 x2 Hw2 H2).
    rewrite Hpid, Hlen. repeat split; auto; try (apply wf_append; assumption);
      first [apply Hw1 | apply Hw2 | idtac].
  - rewrite !lookup_insert_eq. simpl. apply Hk.
    unfold akin. simpl.
    rewrite (lengths_new e1 h1 pid _ [x1] Hw1 (fresh_unallocated h1)).
    rewrite (lengths_new e2 h2 pid _ [x2] Hw2 (fresh_unallocated h2)).
    rewrite Hlen.
    pose proof (wf_new e1 h1 pid _ [x1] Hw1 (fresh_unallocated h1)) as [Ha1 Hi1].
    pose proof (wf_new e2 h2 pid _ [x2] Hw2 (fresh_unallocated h2)) as [Ha2 Hi2].
    destruct e1, e2. unfold ledger in *. simpl in *. repeat split; auto.
Qed.

(** *** The operations of the engine *)

Ltac attr_same :=
  let Hl := fresh in
  intros ? ? Hl; apply ledger_fields in Hl; tauto.

Ltac ledger_same :=
  let Hl := fresh in
  intros [] [] Hl; unfold ledger in *; simplify_eq/=; reflexivity.

Ltac sim_step :=
  subst;
  first
    [ apply sim_ret; reflexivity
    | apply sim_raise
    | apply sim_lift
    | apply sim_self; attr_same
    | apply sim_find_clinic | apply sim_read_clinic | apply sim_write_clinic
    | apply sim_random | apply sim_choice | apply sim_time
    | apply sim_update_self; [intros ?; reflexivity | ledger_same]
    | apply sim_for_each; intros ?
    | apply sim_for_fold; intros ? ?
    | apply sim_store_entry
    | match goal with
      | |- sim _ (if ?b then _ else _) (if ?b then _ else _) => destruct b
      | |- sim _ (match ?x with _ => _ end) (match ?x with _ => _ end) => destruct x
      | |- sim _ (mbind _ ?m) (mbind _ _) =>
          lazymatch m with
          | time => eapply (sim_bind (fun _ _ => True))
          | _ => eapply (sim_bind eq)
          end; [|intros ? ? ?]
      end ].
Ltac simb := repeat sim_step.

Lemma sim_decay_credits : sim (R := R) eq decay_credits decay_credits.
Proof. unfold decay_credits. simb. Qed.

Lemma sim_reset_contributions : sim (R := R) eq reset_contributions reset_contributions.
Proof. unfold reset_contributions. simb. Qed.

Lemma sim_distribute_pool : sim (R := R) eq distribute_pool distribute_pool.
Proof. unfold distribute_pool. simb; apply sim_reset_contributions. Qed.

Lemma sim_opt_in_rate : sim (R := R) eq opt_in_rate opt_in_rate.
Proof. unfold opt_in_rate. simb. Qed.

Lemma sim_maybe_dispute x1 x2 :
  same_entry x1 x2 -> sim (R := R) eq (_maybe_dispute x1) (_maybe_dispute x2).
Proof.
  intros (Hp & Ha & Hq). unfold _maybe_dispute. rewrite Hq, Ha. simb.
Qed.

Lemma sim_publish_history cid x1 x2 :
  same_entry x1 x2 -> sim eq (publish_history E cid x1) (publish_history E cid x2).
Proof.
  intros Hx. assert (Hx' := Hx). destruct Hx' as (Hp & Ha & Hq).
  unfold publish_history.
  cbn [HistoryEntry.patient_id HistoryEntry.set_stake]. rewrite Hp.
  simb. apply sim_maybe_dispute. repeat split; auto.
Qed.

(** *** Tokens and reads *)

Lemma sim_bind_post {A B} (Ra : A -> A -> Prop) (m1 m2 : M R A) (k1 k2 : A -> M R B) Post :
  sim Ra m1 m2 ->
  (forall a1 a2, Ra a1 a2 -> rel_run akin (k1 a1) (k2 a2) Post) ->
  rel_run akin (m1 ≫= k1) (m2 ≫= k2) Post.
Proof.
  intros Hm Hk. eapply rel_bind; [exact Hm|].
  intros a1 a2 w1 w2 [Ha Hw]. apply (Hk a1 a2 Ha w1 w2 Hw).
Qed.

Lemma rel_agree_pre {A B} (Ra : A -> A -> Prop) a1 a2 (m1 m2 : M R B) Post :
  (Ra a1 a2 -> rel_run akin m1 m2 Post) ->
  rel_run (fun w1 w2 => agree Ra a1 w1 a2 w2) m1 m2 Post.
Proof. intros H w1 w2 [Ha Hw]. apply (H Ha w1 w2 Hw). Qed.

Lemma rel_issued_pre {B} t1 t2 (m1 m2 : M R B) Post :
  (AccessToken.patient_id t1 = AccessToken.patient_id t2 ->
   AccessToken.issued_to_clinic_id t1 = AccessToken.issued_to_clinic_id t2 ->
   rel_run (fun w1 w2 => issued_pair t1 w1 t2 w2) m1 m2 Post) ->
  rel_run (fun w1 w2 => issued_pair t1 w1 t2 w2) m1 m2 Post.
Proof. intros H w1 w2 Hpre. apply H; auto; apply Hpre. Qed.

Lemma float_of_int_ttl : float_of_int 3600 = Ok (PyFloat.of_int 3600).
Proof. vm_compute. reflexivity. Qed.

Lemma rel_issue_patient_token pid cid :
  rel_run akin (issue_patient_token (R := R) pid cid 3600)
          (issue_patient_token pid cid 3600) issued_pair.
Proof.
  intros [e1 h1 r1 c1 n1] [e2 h2 r2 c2 n2] Hw.
  unfold issue_patient_token, float_add_int. rewrite float_of_int_ttl. run.
  unfold issued_pair, just_issued. simpl.
  split; [exact Hw|]. split; [eauto|]. split; [eauto|]. auto.
Qed.

Lemma rel_can_read cid t1 t2 :
  rel_run (fun w1 w2 : World R => issued_pair t1 w1 t2 w2) (can_read cid t1) (can_read cid t2) (agree eq).
Proof.
  intros [e1 h1 r1 c1 n1] [e2 h2 r2 c2 n2] (Hw & [i1 [Hn1 Hx1]] & [i2 [Hn2 Hx2]] & Hp & Hc).
  assert (Hw' := Hw). destruct Hw' as (Hr & Hl & Hlen & Hw1 & Hw2 & Hs1 & Hs2).
  destruct (ledger_fields _ _ Hl) as (_ & _ & _ & _ & Hmin & _ & _ & _ & _ & Hcl & _).
  simpl in *. subst n1 n2.
  unfold can_read. run. rewrite <- Hcl.
  destruct (Dict.find cid (Engine.clinics e1)) as [i|]; simpl; [|reflexivity].
  rewrite <- Hcl.
  destruct (Dict.slot i (Engine.clinics e1)) as [c|]; simpl; [|reflexivity].
  destruct (negb (Clinic.opted_in c)); simpl; [split; auto|].
  rewrite <- Hc.
  destruct (negb (AccessToken.issued_to_clinic_id t1 =? cid)%string); simpl;
    [split; auto|].
  rewrite Hx1, Hx2, Hs1, Hs2. simpl. rewrite <- Hmin.
  destruct (Clinic.credits c <? Engine.min_credits_to_read e1); split; auto.
Qed.

Lemma rel_read_history cid t1 t2 :
  rel_run (fun w1 w2 : World R => issued_pair t1 w1 t2 w2) (read_history cid t1) (read_history cid t2)
          same_length_lists.
Proof.
  apply rel_issued_pre. intros Hp Hc.
  unfold read_history. eapply rel_bind; [apply rel_can_read|].
  intros ok ?. apply rel_agree_pre. intros <-.
  assert (Hnew : rel_run akin (new_list (R := R) []) (new_list []) same_length_lists).
  { intros w1 w2 Hw. pose proof (sim_new_list [] [] w1 w2 Hw) as H.
    unfold new_list in *. simpl in *. destruct H as (Hak & H1 & H2).
    split; [exact Hak|]. simpl. now rewrite H1, H2. }
  destruct (negb ok); [exact Hnew|].
  eapply (sim_bind_post eq); [apply sim_find_clinic|]. intros clinic ? <-.
  eapply (sim_bind_post eq); [apply sim_read_clinic|]. intros c ? <-.
  eapply (sim_bind_post eq); [apply sim_self; attr_same|]. intros rc ? <-.
  destruct (Clinic.credits c <? rc); [exact Hnew|].
  eapply (sim_bind_post eq); [apply sim_write_clinic|]. intros _ _ _.
  eapply (sim_bind_post eq); [apply sim_self; attr_same|]. intros pool ? <-.
  eapply (sim_bind_post eq); [apply sim_self; attr_same|]. intros rate ? <-.
  eapply (sim_bind_post eq); [apply sim_lift|]. intros fee ? <-.
  eapply (sim_bind_post eq); [apply sim_lift|]. intros part ? <-.
  eapply (sim_bind_post eq);
    [apply sim_update_self; [intros ?; reflexivity | ledger_same]|]. intros _ _ _.
  eapply (sim_bind_post (fun _ _ => True)); [apply sim_time|]. intros now1 now2 _.
  eapply (sim_bind_post eq); [apply sim_log_access|]. intros _ _ _.
  rewrite Hp. apply sim_copy_history.
Qed.

Lemma is_nil_length {A B} (xs : list A) (ys : list B) :
  length xs = length ys -> is_nil xs = is_nil ys.
Proof. destruct xs, ys; simpl; congruence. Qed.

Lemma sim_attempt_read patients clinic total :
  sim eq (attempt_read E patients clinic total) (attempt_read E patients clinic total).
Proof.
  unfold attempt_read.
  eapply sim_bind; [apply sim_random|]. intros u ? <-.
  destruct (PyFloat.lt u _); [|now apply sim_ret].
  eapply sim_bind; [apply sim_choice|]. intros pid ? <-.
  eapply sim_bind; [apply sim_read_clinic|]. intros c ? <-.
  eapply rel_bind; [apply rel_issue_patient_token|]. intros t1 t2.
  eapply rel_bind; [apply rel_read_history|]. intros l1 l2.
  eapply rel_bind; [apply sim_list_items|]. intros xs1 xs2 w1 w2 [Hlen Hw].
  rewrite (is_nil_length xs1 xs2 Hlen). split; auto.
Qed.

(** *** The driver *)

Lemma sim_uniform a b : sim eq (uniform E a b) (uniform E a b).
Proof. unfold uniform. simb. Qed.

Lemma sim_attempt_publish patients clinic total :
  sim eq (attempt_publish E patients clinic total)
         (attempt_publish E patients clinic total).
Proof.
  unfold attempt_publish. simb; try apply sim_uniform; simb.
  all: apply sim_publish_history; repeat split.
Qed.

Lemma sim_consider_opt_out clinic :
  sim eq (consider_opt_out E clinic) (consider_opt_out E clinic).
Proof. unfold consider_opt_out. simb. Qed.

Lemma sim_clinic_turn patients clinic totals :
  sim eq (clinic_turn E patients clinic totals) (clinic_turn E patients clinic totals).
Proof.
  unfold clinic_turn. simb;
    first [apply sim_attempt_read | apply sim_attempt_publish | apply sim_consider_opt_out].
Qed.

Lemma sim_round patients totals :
  sim eq (round E patients totals) (round E patients totals).
Proof.
  unfold round. simb;
    first [apply sim_decay_credits | apply sim_clinic_turn | apply sim_distribute_pool].
Qed.

Lemma sim_report totals : sim (R := R) eq (report totals) (report totals).
Proof. unfold report. simb; apply sim_opt_in_rate. Qed.

Lemma sim_register_clinic starter frf lqf i :
  sim eq (register_clinic E starter frf lqf i) (register_clinic E starter frf lqf i).
Proof. unfold register_clinic, add_clinic. simb. Qed.

Lemma akin_fresh_engine e w1 w2 :
  Engine.patient_histories e = ∅ ->
  rng w1 = rng w2 -> steady (wall w1) -> steady (wall w2) ->
  akin (mkWorld e (heap w1) (rng w1) (wall w1) (reads w1))
       (mkWorld e (heap w2) (rng w2) (wall w2) (reads w2)).
Proof.
  intros He Hr H1 H2. unfold akin, histories_wf, histories_allocated, history_lengths.
  simpl. rewrite He. repeat split; auto.
  all: intros pid; intros; exfalso; eapply (lookup_empty_Some (M := gmap string)); eauto.
Qed.

Lemma rel_simulate n_clinics n_patients rounds starter frf lqf seed :
  rel_run (fun w1 w2 => steady (wall w1) /\ steady (wall w2))
          (simulate E n_clinics n_patients rounds starter frf lqf seed)
          (simulate E n_clinics n_patients rounds starter frf lqf seed)
          (agree eq).
Proof.
  unfold simulate.
  eapply rel_bind
    with (Mid := fun _ w1 _ w2 => rng w1 = rng w2 /\ steady (wall w1) /\ steady (wall w2)).
  { intros w1 w2 [H1 H2]. simpl. auto. }
  intros _ _. eapply rel_bind with (Mid := agree eq).
  - intros w1 w2 (Hr & H1 & H2). split; [reflexivity|].
    now apply akin_fresh_engine.
  - intros a1 a2. apply rel_agree_pre. intros _.
    eapply (sim_bind eq); [apply sim_for_each; intros ?; apply sim_register_clinic|].
    intros _ _ _.
    eapply (sim_bind eq); [apply sim_for_fold; intros ? ?; apply sim_round|].
    intros totals ? <-. apply sim_report.
Qed.

(** C10 (amended).  Two runs of [simulate] with the same random source, the
    same seed and the same configuration, started in any two worlds whose
    clocks are steady (no reading of the clock is more than 3600 seconds
    after the reading before it), end the same way: both return the same
    record of results, bit for bit, or both raise the same exception. *)
Theorem simulate_deterministic n_clinics n_patients rounds starter_credits
        free_rider_fraction low_quality_fraction seed w1 w2 :
  steady (wall w1) -> steady (wall w2) ->
  returned (simulate E n_clinics n_patients rounds starter_credits
                     free_rider_fraction low_quality_fraction seed w1)
  = returned (simulate E n_clinics n_patients rounds starter_credits
                       free_rider_fraction low_quality_fraction seed w2)
  /\ raised (simulate E n_clinics n_patients rounds starter_credits
                      free_rider_fraction low_quality_fraction seed w1)
     = raised (simulate E n_clinics n_patients rounds starter_credits
                        free_rider_fraction low_quality_fraction seed w2).
Proof.
  intros H1 H2.
  pose proof (rel_simulate n_clinics n_patients rounds starter_credits
                free_rider_fraction low_quality_fraction seed w1 w2 (conj H1 H2)) as H.
  destruct (simulate _ _ _ _ _ _ _ _ w1) as [s1 w1'|x1 w1'],
           (simulate _ _ _ _ _ _ _ _ w2) as [s2 w2'|x2 w2']; simpl; try tauto.
  - destruct H as [-> _]. auto.
  - subst. auto.
Qed.
End Runs.

Lemma simulate_deterministic_witness :
  steady midnight /\ steady noon
  /\ returned (small_run midnight) = returned (small_run noon)
  /\ raised (small_run midnight) = raised (small_run noon).
Proof.
  assert (Hm : steady midnight) by (intros i; vm_compute; reflexivity).
  assert (Hn : steady noon) by (intros i; vm_compute; reflexivity).
  split; [exact Hm|]. split; [exact Hn|].
  exact (simulate_deterministic still 1 1 1 10 (PyFloat.lit 18 100) (PyFloat.lit 10 100) 7
           (mkWorld (Engine.init 0 0 0 0 0 PyFloat.zero PyFloat.zero 0 PyFloat.zero)
                    ∅ tt midnight 0%nat)
           (mkWorld (Engine.init 0 0 0 0 0 PyFloat.zero PyFloat.zero 0 PyFloat.zero)
                    ∅ tt noon 0%nat) Hm Hn).
Defined.

(** Under a clock that is two hours further at every reading the token of
    the one clinic has expired when [can_read] looks at it: the read that
    costs 3 credits under a steady clock is refused, and the average of the
    credits is 9.0 instead of 6.0. *)
Lemma simulate_clock_counterexample :
  stat_avg_credits <$> returned (small_run midnight) = Some (PyFloat.of_int 6)
  /\ stat_avg_credits <$> returned (small_run leaping) = Some (PyFloat.of_int 9)
  /\ returned (small_run midnight) <> returned (small_run leaping).
Proof. vm_compute. repeat split; discriminate. Qed.

(** ** Operations that return *)

(** *** Floats that stay finite *)

Section FloatBounds.

Lemma digits2_pos_lt p : Z.pos p < 2 ^ Z.pos (digits2_pos p).
Proof.
  induction p as [p IH|p IH|]; simpl digits2_pos; rewrite ?Pos2Z.inj_succ, ?Z.pow_succ_r;
    lia.
Qed.

Lemma digits2_pos_le p : 2 ^ (Z.pos (digits2_pos p) - 1) <= Z.pos p.
Proof.
  induction p as [p IH|p IH|]; simpl digits2_pos; rewrite ?Pos2Z.inj_succ;
    [| |simpl; lia].
  all: replace (Z.succ (Z.pos (digits2_pos p)) - 1)
         with (Z.succ (Z.pos (digits2_pos p) - 1)) by lia.
  all: rewrite Z.pow_succ_r by lia; lia.
Qed.

Lemma Zdigits2_nonneg m : 0 <= Zdigits2 m.
Proof. destruct m; simpl; lia. Qed.

Lemma Zdigits2_lt m : 0 <= m -> m < 2 ^ Zdigits2 m.
Proof.
  destruct m as [|p|p]; simpl; intros H; try lia. apply digits2_pos_lt.
Qed.

Lemma Zdigits2_le m k : 0 <= m -> 0 <= k -> m < 2 ^ k -> Zdigits2 m <= k.
Proof.
  destruct m as [|p|p]; simpl; intros Hm Hk Hlt; try lia.
  pose proof (digits2_pos_le p) as Hle.
  destruct (Z_lt_le_dec k (Z.pos (digits2_pos p))) as [Hlt'|]; [|lia].
  assert (2 ^ k <= 2 ^ (Z.pos (digits2_pos p) - 1)) by (apply Z.pow_le_mono_r; lia).
  lia.
Qed.

Lemma shr_1_m mrs :
  0 <= shr_m mrs -> 0 <= shr_m (shr_1 mrs) /\ 2 * shr_m (shr_1 mrs) <= shr_m mrs.
Proof. destruct mrs as [[|[p|p|]|p] r s]; simpl; lia. Qed.

Lemma iter_shr_1_m n : forall mrs,
  0 <= shr_m mrs ->
  0 <= shr_m (SpecFloat.iter_pos shr_1 n mrs)
  /\ 2 ^ Z.pos n * shr_m (SpecFloat.iter_pos shr_1 n mrs) <= shr_m mrs.
Proof.
  induction n as [n IH|n IH|]; intros mrs Hm; simpl SpecFloat.iter_pos.
  - destruct (shr_1_m mrs Hm) as [H0 H1].
    destruct (IH _ H0) as [H2 H3]. destruct (IH _ H2) as [H4 H5].
    split; [exact H4|].
    assert (Hpow : 2 ^ Z.pos n~1 = 2 * (2 ^ Z.pos n * 2 ^ Z.pos n)).
    { rewrite (Pos2Z.inj_xI n), Z.pow_add_r, Z.pow_twice_r by lia. lia. }
    rewrite Hpow. pose proof (Z.pow_pos_nonneg 2 (Z.pos n)). nia.
  - destruct (IH _ Hm) as [H2 H3]. destruct (IH _ H2) as [H4 H5].
    split; [exact H4|].
    rewrite (Pos2Z.inj_xO n), Z.pow_twice_r.
    pose proof (Z.pow_pos_nonneg 2 (Z.pos n)). nia.
  - destruct (shr_1_m mrs Hm) as [H0 H1]. split; [exact H0|]. simpl. lia.
Qed.


Lemma fexp_mono a b : a <= b -> fexp PyFloat.prec PyFloat.emax a <= fexp PyFloat.prec PyFloat.emax b.
Proof. unfold fexp, emin, PyFloat.prec, PyFloat.emax. lia. Qed.

Lemma fexp_le a : -1074 <= a -> fexp PyFloat.prec PyFloat.emax a <= a.
Proof. unfold fexp, emin, PyFloat.prec, PyFloat.emax. lia. Qed.

Lemma shr_fexp_bound m e l B C :
  0 <= m -> Zdigits2 m + e <= B -> e <= C -> -1074 <= B ->
  fexp PyFloat.prec PyFloat.emax B <= C ->
  0 <= shr_m (fst (shr_fexp PyFloat.prec PyFloat.emax m e l))
  /\ Zdigits2 (shr_m (fst (shr_fexp PyFloat.prec PyFloat.emax m e l)))
     + snd (shr_fexp PyFloat.prec PyFloat.emax m e l) <= B
  /\ snd (shr_fexp PyFloat.prec PyFloat.emax m e l) <= C.
Proof.
  intros Hm HB HC Hmin HfC. unfold shr_fexp, shr.
  assert (Hrec : shr_m (shr_record_of_loc m l) = m) by (destruct l as [|[]]; reflexivity).
  pose proof (fexp_mono _ _ HB) as Hf.
  destruct (fexp _ _ (Zdigits2 m + e) - e) as [|n|n] eqn:Hn; simpl fst; simpl snd;
    rewrite ?Hrec; try (repeat split; lia).
  destruct (iter_shr_1_m n (shr_record_of_loc m l)) as [H0 H1]; [rewrite Hrec; lia|].
  rewrite Hrec in H1. set (m' := shr_m (SpecFloat.iter_pos shr_1 n _)) in *.
  split; [exact H0|]. split; [|lia].
  pose proof (fexp_le B Hmin).
  destruct (Z.eq_dec m' 0) as [Hz|Hne]; [rewrite Hz; simpl; lia|].
  pose proof (Zdigits2_lt m Hm) as Hd. pose proof (Zdigits2_nonneg m) as Hd0.
  pose proof (Z.pow_pos_nonneg 2 (Z.pos n)) as Hp.
  assert (Hnd : Z.pos n < Zdigits2 m).
  { destruct (Z_lt_le_dec (Z.pos n) (Zdigits2 m)) as [|Hge]; [assumption|].
    assert (2 ^ Zdigits2 m <= 2 ^ Z.pos n) by (apply Z.pow_le_mono_r; lia). nia. }
  assert (Zdigits2 m' <= Zdigits2 m - Z.pos n); [|lia].
  apply Zdigits2_le; try lia.
  assert (Hsplit : 2 ^ Zdigits2 m = 2 ^ Z.pos n * 2 ^ (Zdigits2 m - Z.pos n)).
  { rewrite <- Z.pow_add_r by lia. f_equal. lia. }
  rewrite Hsplit in Hd. nia.
Qed.

Lemma round_nearest_even_bound m l :
  0 <= m -> m <= round_nearest_even m l <= m + 1.
Proof. intros Hm. destruct l as [|[]]; simpl; try destruct (Z.even m); lia. Qed.

Lemma binary_round_aux_within s m e l B C :
  0 <= m -> Zdigits2 m + e <= B -> e <= C -> -1074 <= B ->
  fexp PyFloat.prec PyFloat.emax (B + 1) <= C -> C <= 971 ->
  within (B + 1) C (binary_round_aux PyFloat.prec PyFloat.emax s m e l).
Proof.
  intros Hm HB HC Hmin HfC HC'. unfold binary_round_aux.
  pose proof (fexp_mono B (B + 1) ltac:(lia)) as Hf.
  pose proof (shr_fexp_bound m e l B C Hm HB HC Hmin ltac:(lia)) as (H0 & H1 & H2).
  destruct (shr_fexp _ _ m e l) as [mrs1 e1]. simpl fst in *. simpl snd in *.
  pose proof (round_nearest_even_bound (shr_m mrs1) (loc_of_shr_record mrs1) H0) as Hr.
  set (m2 := round_nearest_even _ _) in *.
  assert (Hd2 : Zdigits2 m2 + e1 <= B + 1).
  { pose proof (Zdigits2_lt _ H0). pose proof (Zdigits2_nonneg (shr_m mrs1)).
    assert (Zdigits2 m2 <= Zdigits2 (shr_m mrs1) + 1); [|lia].
    apply Zdigits2_le; try lia. rewrite Z.pow_add_r by lia. lia. }
  pose proof (shr_fexp_bound m2 e1 loc_Exact (B + 1) C ltac:(lia) Hd2 H2 ltac:(lia) HfC)
    as (H3 & H4 & H5).
  destruct (shr_fexp _ _ m2 e1 loc_Exact) as [mrs3 e3]. simpl fst in *. simpl snd in *.
  destruct (shr_m mrs3) as [|p|p]; simpl; [exact I| |lia].
  destruct (Z.leb_spec e3 (PyFloat.emax - PyFloat.prec)) as [|Hgt]; simpl.
  - simpl in H4. lia.
  - unfold PyFloat.emax, PyFloat.prec in Hgt. lia.
Qed.


Lemma div_exact_within a b :
  0 <= a <= b -> 0 < b -> within 2 0 (PyFloat.div (PyFloat.exact a) (PyFloat.exact b)).
Proof.
  intros Hab Hb. destruct b as [|b|b]; try lia.
  destruct a as [|a|a]; try lia; [exact I|].
  unfold PyFloat.div, PyFloat.exact, SFdiv, SFdiv_core_binary.
  set (e' := Z.min _ _).
  assert (He' : e' <= 0) by (subst e'; lia).
  set (m' := match 0 - 0 - e' with Z.pos _ => _ | _ => _ end).
  assert (Hm' : 0 <= m' <= Z.pos b * 2 ^ (- e')).
  { subst m'. destruct (0 - 0 - e') as [|s|s] eqn:Hs; try lia.
    - replace (- e') with 0 by lia. simpl. lia.
    - rewrite Z.shiftl_mul_pow2 by lia. replace (- e') with (Z.pos s) by lia.
      pose proof (Z.pow_pos_nonneg 2 (Z.pos s)). nia. }
  pose proof (Z_div_mod m' (Z.pos b) ltac:(lia)) as Hdm.
  destruct (Z.div_eucl m' (Z.pos b)) as [q r]. destruct Hdm as [Hq Hr].
  pose proof (Z.pow_pos_nonneg 2 (- e') ltac:(lia) ltac:(lia)) as Hp.
  assert (Hq0 : 0 <= q <= 2 ^ (- e')) by nia.
  apply (binary_round_aux_within _ q e' _ 1 0); try lia.
  - assert (Zdigits2 q <= - e' + 1); [|lia].
    apply Zdigits2_le; try lia. rewrite Z.pow_add_r by lia. lia.
  - unfold fexp, emin, PyFloat.prec, PyFloat.emax. lia.
Qed.

Lemma of_int_within z k :
  0 < z < 2 ^ k -> 0 <= k <= 1023 ->
  within (k + 1) (Z.max 0 (k - 52)) (PyFloat.of_int z).
Proof.
  intros Hz Hk. destruct z as [|p|p]; try lia.
  unfold PyFloat.of_int, binary_normalize, binary_round, shl_align.
  assert (Hd : Z.pos (digits2_pos p) <= k).
  { apply (Zdigits2_le (Z.pos p)); lia. }
  set (f := fexp _ _ _).
  assert (Hf : f <= Z.max 0 (k - 52)).
  { subst f. unfold fexp, emin, PyFloat.prec, PyFloat.emax. lia. }
  destruct (f - 0) as [|d|d] eqn:Hfd.
  1-2: apply (binary_round_aux_within _ _ _ _ k); simpl Zdigits2; try lia;
    unfold fexp, emin, PyFloat.prec, PyFloat.emax; lia.
  apply (binary_round_aux_within _ _ _ _ k); try lia.
  - assert (Zdigits2 (Z.pos (Pos.iter xO p d)) <= Z.pos (digits2_pos p) + Z.pos d); [|lia].
    apply Zdigits2_le; try lia.
    change (Pos.iter xO p d) with (shift_pos d p).
    rewrite shift_pos_correct, Zpower_pos_nat, Zpower_nat_Z, positive_nat_Z.
    rewrite Z.pow_add_r by lia. pose proof (digits2_pos_lt p).
    pose proof (Z.pow_pos_nonneg 2 (Z.pos d)). nia.
  - unfold fexp, emin, PyFloat.prec, PyFloat.emax. lia.
Qed.

Lemma mul_within B1 C1 B2 C2 C x y :
  within B1 C1 x -> within B2 C2 y ->
  -1074 <= B1 + B2 -> C1 + C2 <= C ->
  fexp PyFloat.prec PyFloat.emax (B1 + B2 + 1) <= C -> C <= 971 ->
  within (B1 + B2 + 1) C (PyFloat.mul x y).
Proof.
  intros Hx Hy Hmin HC Hf HC'.
  destruct x as [sx|sx| |sx mx ex], y as [sy|sy| |sy my ey]; simpl in Hx, Hy; try tauto;
    try exact I.
  unfold PyFloat.mul, SFmul.
  apply binary_round_aux_within; try lia.
  assert (Zdigits2 (Z.pos (mx * my)) <= Z.pos (digits2_pos mx) + Z.pos (digits2_pos my));
    [|lia].
  apply Zdigits2_le; try lia. rewrite Z.pow_add_r, Pos2Z.inj_mul by lia.
  pose proof (digits2_pos_lt mx). pose proof (digits2_pos_lt my). nia.
Qed.

Lemma within_finite B C x : within B C x -> PyFloat.is_inf x = false.
Proof. destruct x; simpl; tauto. Qed.

Lemma within_int B C x : within B C x -> int_of_float x = Ok (PyFloat.truncate x).
Proof. destruct x; simpl; tauto. Qed.

Lemma int_truediv_returns a b :
  0 <= a <= b -> 0 < b ->
  exists q, int_truediv a b = Ok q /\ within 2 0 q.
Proof.
  intros Hab Hb. unfold int_truediv.
  destruct (Z.eqb_spec b 0) as [|_]; [lia|].
  pose proof (div_exact_within a b Hab Hb) as Hq.
  rewrite (within_finite _ _ _ Hq). eauto.
Qed.

Lemma pool_share_returns pool n total :
  0 < pool < 2 ^ 1000 -> 0 < n <= total ->
  exists share, pool_share pool n total = Ok share.
Proof.
  intros Hpool Hn. unfold pool_share.
  destruct (int_truediv_returns n total) as (q & -> & Hq); try lia.
  unfold int_mul_float, float_of_int.
  pose proof (of_int_within pool 1000 Hpool ltac:(lia)) as Hp.
  rewrite (within_finite _ _ _ Hp).
  pose proof (mul_within _ _ _ _ 951 _ _ Hp Hq ltac:(lia) ltac:(lia)) as Hm.
  rewrite (within_int _ _ _ (Hm ltac:(unfold fexp, emin, PyFloat.prec, PyFloat.emax; lia)
                                ltac:(lia))).
  eauto.
Qed.

End FloatBounds.

(** *** The operations of the engine *)

Section Returns.
Context {R : Type} (E : Entropy R).
Implicit Types (w : World R).

Lemma can_read_total clinic_id token w :
  registered clinic_id w -> returns (can_read clinic_id token) w.
Proof.
  intros [c Hc]. unfold returns.
  destruct (can_read_returns clinic_id token w c Hc) as (b & n & -> & _). reflexivity.
Qed.

Lemma read_history_total clinic_id token w fee part :
  registered clinic_id w ->
  int_mul_float (Engine.read_cost (engine w)) (Engine.match_pool_rate (engine w)) = Ok fee ->
  int_of_float fee = Ok part ->
  returns (read_history clinic_id token) w.
Proof.
  intros [c Hc] Hfee Hpart. unfold returns.
  destruct (can_read_returns clinic_id token w c Hc) as (b & n & Hcr & _).
  destruct (get_slot _ _ _ Hc) as (i & Hf & Hs).
  destruct b; [destruct (Z_lt_le_dec (Clinic.credits c) (Engine.read_cost (engine w)))
                 as [Hlt|Hge]|].
  - unfold read_history. unfold mbind at 1. unfold M_bind at 1. rewrite Hcr.
    run. rewrite Hf. simpl. rewrite Hs. simpl.
    apply Z.ltb_lt in Hlt. rewrite Hlt. reflexivity.
  - rewrite (read_history_granted_run _ _ _ _ _ _ _ Hc Hcr Hge Hfee Hpart). reflexivity.
  - unfold read_history. unfold mbind at 1. unfold M_bind at 1. rewrite Hcr. reflexivity.
Qed.

Lemma decay_credits_total w : returns decay_credits w.
Proof. reflexivity. Qed.

Lemma publish_history_total clinic_id entry w :
  registered clinic_id w -> registered (HistoryEntry.author_clinic_id entry) w ->
  returns (publish_history E clinic_id entry) w.
Proof.
  intros [c Hc] [a Ha]. unfold returns.
  destruct (get_slot _ _ _ Hc) as (i & Hf & Hs).
  destruct (get_slot _ _ _ Ha) as (j & Hfa & Hsa).
  destruct w as [e h r cl n]. simpl in *.
  unfold publish_history, _maybe_dispute, random. run.
  destruct (rng_random E r) as [u r']. simpl.
  exec; try reflexivity.
  all: match goal with
       | H : Dict.slot ?y (Dict.store ?x _ _) = None |- _ =>
           destruct (decide (x = y)) as [<-|Hne];
           [rewrite slot_store_same, Hs in H | rewrite slot_store_ne, Hsa in H by exact Hne];
           discriminate
       end.
Qed.
Lemma for_each_returns {A} (J : World R -> Prop) (xs : list A) body :
  (forall x w, In x xs -> J w -> exists w', body x w = Return tt w' /\ J w') ->
  forall w, J w -> exists w', for_each xs body w = Return tt w' /\ J w'.
Proof.
  induction xs as [|x r IH]; intros Hbody w HJ; simpl.
  - eauto.
  - destruct (Hbody x w (or_introl eq_refl) HJ) as (w1 & Hx & HJ1).
    unfold mbind, M_bind. rewrite Hx.
    apply IH; [|exact HJ1]. intros y w0 Hy. apply Hbody. now right.
Qed.

Lemma fold_add_member (f : nat -> Z) (xs : list nat) x :
  In x xs -> (forall y, In y xs -> 0 < f y) ->
  f x <= fold_left Z.add (map f xs) 0.
Proof.
  assert (Hacc : forall l a, (forall y, In y l -> 0 < f y) ->
                             a <= fold_left Z.add (map f l) a).
  { induction l as [|y l IH]; intros a Hl; simpl; [lia|].
    specialize (IH (a + f y) (fun z Hz => Hl z (or_intror Hz))).
    specialize (Hl y (or_introl eq_refl)). lia. }
  assert (Hmem : forall l a, In x l -> (forall y, In y l -> 0 < f y) ->
                             a + f x <= fold_left Z.add (map f l) a).
  { induction l as [|y l IH]; intros a Hin Hl; simpl; [destruct Hin|].
    destruct Hin as [->|Hin].
    - apply Hacc. intros z Hz. apply Hl. now right.
    - specialize (IH (a + f y) Hin (fun z Hz => Hl z (or_intror Hz))).
      specialize (Hl y (or_introl eq_refl)). lia. }
  intros Hin Hpos. specialize (Hmem xs 0 Hin Hpos). lia.
Qed.

Lemma distribute_pool_total w :
  Engine.pool_balance (engine w) < 2 ^ 1000 -> returns distribute_pool w.
Proof.
  intros Hbound. unfold returns, distribute_pool.
  unfold mbind at 1 2. unfold M_bind at 1 2. unfold self at 1 2.
  set (d := Engine.clinics (engine w)).
  set (contributors := Dict.select (fun c => 0 <? Clinic.last_round_contribution c) d).
  set (total := fold_left Z.add (map (contribution d) contributors) 0).
  destruct (is_nil contributors || (Engine.pool_balance (engine w) <=? 0)) eqn:Hguard;
    [reflexivity|].
  apply orb_false_iff in Hguard. destruct Hguard as [_ Hpool]. apply Z.leb_gt in Hpool.
  set (J := fun w' : World R =>
              Engine.pool_balance (engine w') = Engine.pool_balance (engine w)
              /\ forall i, In i contributors ->
                   contribution (Engine.clinics (engine w')) i = contribution d i).
  unfold mbind at 1. unfold M_bind at 1.
  match goal with
  | |- context [for_each ?xs ?b w] =>
      destruct (for_each_returns J xs b) with (w := w) as (w1 & -> & _)
  end; [|split; auto|reflexivity].
  intros x [e h r cl n] Hx [Hpool1 Hcontr]. simpl in *.
  pose proof (contribution_selected d x Hx) as Hpos.
  pose proof (fold_add_member (contribution d) contributors x Hx
                (contribution_selected d)) as Hle.
  fold total in Hle. rewrite <- (Hcontr x Hx) in Hpos, Hle. unfold contribution in Hpos, Hle.
  run. destruct (Dict.slot x (Engine.clinics e)) as [c|] eqn:Hs; [|lia]. simpl.
  destruct (pool_share_returns (Engine.pool_balance e) (Clinic.last_round_contribution c)
              total) as [share ->]; [lia|lia|].
  simpl. rewrite Hs. simpl. eexists. split; [reflexivity|].
  split; simpl; [exact Hpool1|].
  intros i Hi. rewrite (contribution_store_credits _ _ _ _ _ Hs). auto.
Qed.

Lemma opt_in_rate_total w : returns opt_in_rate w.
Proof.
  unfold returns, opt_in_rate. run.
  destruct (Engine.clinics (engine w)) as [|kc d] eqn:Hd; [reflexivity|].
  simpl is_nil. cbv iota.
  destruct (int_truediv_returns
              (Z.of_nat (length (List.filter (fun kc => Clinic.opted_in (snd kc)) (kc :: d))))
              (Z.of_nat (length (kc :: d)))) as (q & -> & _).
  - pose proof (List.filter_length_le (fun kc => Clinic.opted_in (snd kc)) (kc :: d)). lia.
  - simpl length. lia.
  - reflexivity.
Qed.
Lemma find_unregistered clinic_id w :
  ~ registered clinic_id w -> Dict.find clinic_id (Engine.clinics (engine w)) = None.
Proof.
  intros Hn. destruct (Dict.find _ _) as [i|] eqn:Hf; [|reflexivity].
  exfalso. apply Hn. unfold registered. rewrite (find_get _ _ _ Hf).
  destruct (find_lookup _ _ _ Hf) as [v Hv]. unfold Dict.slot. rewrite Hv. simpl. eauto.
Qed.

Lemma can_read_unregistered clinic_id token w :
  ~ registered clinic_id w -> can_read clinic_id token w = Raise KeyError w.
Proof.
  intros Hn. apply find_unregistered in Hn.
  unfold can_read. run. rewrite Hn. reflexivity.
Qed.

Lemma read_history_unregistered clinic_id token w :
  ~ registered clinic_id w -> read_history clinic_id token w = Raise KeyError w.
Proof.
  intros Hn. unfold read_history. unfold mbind at 1. unfold M_bind at 1.
  rewrite (can_read_unregistered _ _ _ Hn). reflexivity.
Qed.

Lemma publish_history_unregistered clinic_id entry w :
  ~ registered clinic_id w -> publish_history E clinic_id entry w = Raise KeyError w.
Proof.
  intros Hn. apply find_unregistered in Hn.
  unfold publish_history. run. rewrite Hn. reflexivity.
Qed.

(** C4 (amended).  The operations of the engine raise no exception on
    registered clinics: [can_read] returns for a registered clinic;
    [read_history] returns for a registered clinic when the fee
    [int(read_cost * match_pool_rate)] is an integer (the product is finite);
    [publish_history] returns for a registered clinic and an entry whose
    author is registered; [decay_credits] and [opt_in_rate] always return;
    [distribute_pool] returns when the pool holds less than [2 ^ 1000].
    For every [clinic_id] that is not registered, [can_read], [read_history]
    and [publish_history] raise [KeyError], before anything has changed. *)
Theorem operations_return w :
  (forall clinic_id token,
     registered clinic_id w -> returns (can_read clinic_id token) w)
  /\ (forall clinic_id token fee part,
        registered clinic_id w ->
        int_mul_float (Engine.read_cost (engine w)) (Engine.match_pool_rate (engine w))
        = Ok fee ->
        int_of_float fee = Ok part ->
        returns (read_history clinic_id token) w)
  /\ (forall clinic_id entry,
        registered clinic_id w ->
        registered (HistoryEntry.author_clinic_id entry) w ->
        returns (publish_history E clinic_id entry) w)
  /\ returns decay_credits w
  /\ (Engine.pool_balance (engine w) < 2 ^ 1000 -> returns distribute_pool w)
  /\ returns opt_in_rate w
  /\ (forall clinic_id token,
        ~ registered clinic_id w -> can_read clinic_id token w = Raise KeyError w)
  /\ (forall clinic_id token,
        ~ registered clinic_id w -> read_history clinic_id token w = Raise KeyError w)
  /\ (forall clinic_id entry,
        ~ registered clinic_id w ->
        publish_history E clinic_id entry w = Raise KeyError w).
Proof.
  split; [intros; now apply can_read_total|].
  split; [intros; eapply read_history_total; eassumption|].
  split; [intros; now apply publish_history_total|].
  split; [apply decay_credits_total|].
  split; [apply distribute_pool_total|].
  split; [apply opt_in_rate_total|].
  split; [intros; now apply can_read_unregistered|].
  split; [intros; now apply read_history_unregistered|].
  intros. now apply publish_history_unregistered.
Qed.
End Returns.

Lemma operations_return_witness :
  returns (can_read "A" token_A_P) (reading_world (PyFloat.lit 5 10) 5)
  /\ returns (read_history "A" token_A_P) (reading_world (PyFloat.lit 5 10) 5)
  /\ returns (publish_history still "A" poor_entry_A_P) (reading_world (PyFloat.lit 5 10) 5)
  /\ returns distribute_pool (reading_world (PyFloat.lit 5 10) 5)
  /\ raised (can_read "Z" token_A_P (reading_world (PyFloat.lit 5 10) 5)) = Some KeyError
  /\ raised (read_history "Z" token_A_P (reading_world (PyFloat.lit 5 10) 5))
     = Some KeyError
  /\ raised (publish_history still "Z" entry_B_P (reading_world (PyFloat.lit 5 10) 5))
     = Some KeyError.
Proof.
  destruct (operations_return still (reading_world (PyFloat.lit 5 10) 5))
    as (Hcan & Hread & Hpublish & _ & Hpool & _ & Hcan' & Hread' & Hpublish').
  assert (HA : registered "A" (reading_world (PyFloat.lit 5 10) 5))
    by (vm_compute; eexists; reflexivity).
  assert (HZ : ~ registered "Z" (reading_world (PyFloat.lit 5 10) 5))
    by (intros [c Hc]; vm_compute in Hc; discriminate Hc).
  split; [apply Hcan; exact HA|].
  split; [eapply Hread; [exact HA|vm_compute; reflexivity|vm_compute; reflexivity]|].
  split; [apply Hpublish; exact HA|].
  split; [apply Hpool; vm_compute; reflexivity|].
  split; [rewrite (Hcan' _ _ HZ); reflexivity|].
  split; [rewrite (Hread' _ _ HZ); reflexivity|].
  rewrite (Hpublish' _ _ HZ). reflexivity.
Defined.

(** An identifier that is not registered makes [can_read], [read_history]
    and [publish_history] raise [KeyError]; so does the dispute of an entry
    whose author is not registered, after the publish has been booked. *)
Lemma operations_raise_counterexample :
  raised (can_read "Z" token_A_P (reading_world (PyFloat.lit 5 10) 5)) = Some KeyError
  /\ raised (read_history "Z" token_A_P (reading_world (PyFloat.lit 5 10) 5))
     = Some KeyError
  /\ raised (publish_history still "Z" entry_B_P (reading_world (PyFloat.lit 5 10) 5))
     = Some KeyError
  /\ raised (publish_history still "A"
               (HistoryEntry.mk "P" "B" low_summary (PyFloat.lit 3 10) PyFloat.zero 0 true)
               (reading_world (PyFloat.lit 5 10) 5))
     = Some KeyError.
Proof. vm_compute. auto. Qed.

(** * The registry *)

#[global] Instance profile_kept_refl : Reflexive profile_kept.
Proof. intros c. unfold profile_kept. auto. Qed.

#[global] Instance profile_kept_trans : Transitive profile_kept.
Proof.
  intros c1 c2 c3 (H1 & H2 & H3 & H4 & H5) (K1 & K2 & K3 & K4 & K5).
  unfold profile_kept. repeat split; try congruence. auto.
Qed.

Section Registry.
Context {R : Type} (E : Entropy R).
Implicit Types (w : World R) (c : Clinic.t).

Lemma keys_set_present {V} k (v v' : V) (d : Dict.t V) :
  Dict.get k d = Some v' -> Dict.keys (Dict.set k v d) = Dict.keys d.
Proof.
  unfold Dict.keys, Dict.set, Dict.get. induction d as [|[k0 v0] r IH]; simpl; [discriminate|].
  destruct (String.eqb k k0); simpl; [reflexivity|]. intros H. f_equal. auto.
Qed.

Lemma keys_set_absent {V} k (v : V) (d : Dict.t V) :
  Dict.get k d = None -> Dict.keys (Dict.set k v d) = Dict.keys d ++ [k].
Proof.
  unfold Dict.keys, Dict.set, Dict.get. induction d as [|[k0 v0] r IH]; simpl; [reflexivity|].
  destruct (String.eqb k k0); simpl; [discriminate|]. intros H. f_equal. auto.
Qed.

(** [add_clinic] files the clinic under its own identifier: a lookup of
    that identifier gives the clinic, every other identifier gives what it
    gave before, nothing else in the engine changes; a clinic registered
    under an identifier already in use takes the place of the old one, a
    new identifier goes last. *)
Theorem add_clinic_registers clinic w :
  exists w',
    add_clinic clinic w = Return tt w'
    /\ same_frame w w'
    /\ heap w' = heap w /\ rng w' = rng w
    /\ Dict.get (Clinic.clinic_id clinic) (Engine.clinics (engine w')) = Some clinic
    /\ (forall k, k <> Clinic.clinic_id clinic ->
          Dict.get k (Engine.clinics (engine w')) = Dict.get k (Engine.clinics (engine w)))
    /\ Dict.keys (Engine.clinics (engine w'))
       = match Dict.get (Clinic.clinic_id clinic) (Engine.clinics (engine w)) with
         | Some _ => Dict.keys (Engine.clinics (engine w))
         | None => Dict.keys (Engine.clinics (engine w)) ++ [Clinic.clinic_id clinic]
         end.
Proof.
  unfold add_clinic. run. eexists. split; [reflexivity|]. simpl.
  split; [reflexivity|]. split; [reflexivity|]. split; [reflexivity|].
  split; [apply get_set_eq|]. split.
  - intros k Hk. apply get_set_ne. congruence.
  - destruct (Dict.get _ _) as [c0|] eqn:Hc.
    + eapply keys_set_present; eauto.
    + now apply keys_set_absent.
Qed.

(** [can_read] is a query: it leaves the engine, the list objects and the
    random source as they are, it reads the clock only after the checks of
    the opt-in and of the clinic the token was issued to, and its answer is
    the conjunction of the four checks of the source. *)
Lemma can_read_run clinic_id token w c :
  Dict.get clinic_id (Engine.clinics (engine w)) = Some c ->
  let bound := Clinic.opted_in c
               && String.eqb (AccessToken.issued_to_clinic_id token) clinic_id in
  can_read clinic_id token w
  = Return (bound
            && negb (PyFloat.gt (wall w (reads w)) (AccessToken.expires_at token))
            && (Engine.min_credits_to_read (engine w) <=? Clinic.credits c))
           (mkWorld (engine w) (heap w) (rng w) (wall w)
                    (if bound then S (reads w) else reads w)).
Proof.
  intros Hc bound. subst bound. destruct (get_slot _ _ _ Hc) as (i & Hf & Hs).
  destruct w as [e h r cl n].
  unfold can_read. run. simpl in *. rewrite Hf. simpl. rewrite Hs.
  destruct (Clinic.opted_in c); simpl; [|reflexivity].
  destruct (String.eqb (AccessToken.issued_to_clinic_id token) clinic_id); simpl;
    [|reflexivity].
  destruct (PyFloat.gt _ _); simpl; [reflexivity|].
  rewrite Z.ltb_antisym. destruct (_ <=? _); reflexivity.
Qed.

(** The answer of [can_read] for a registered clinic depends on the clinic
    the token was issued to and on its expiry only: the patient of the token
    and its [encounter_bound] flag are never looked at, and a token issued
    to another clinic is refused. *)
Theorem can_read_token_fields clinic_id token token' w :
  registered clinic_id w ->
  AccessToken.issued_to_clinic_id token' = AccessToken.issued_to_clinic_id token ->
  AccessToken.expires_at token' = AccessToken.expires_at token ->
  can_read clinic_id token' w = can_read clinic_id token w
  /\ engine (final (can_read clinic_id token w)) = engine w
  /\ heap (final (can_read clinic_id token w)) = heap w
  /\ rng (final (can_read clinic_id token w)) = rng w
  /\ (AccessToken.issued_to_clinic_id token <> clinic_id ->
      returned (can_read clinic_id token w) = Some false).
Proof.
  intros [c Hc] Hto Hexp.
  rewrite (can_read_run clinic_id token' w c Hc), (can_read_run clinic_id token w c Hc).
  rewrite Hto, Hexp. repeat split; try reflexivity.
  intros Hne. simpl. apply String.eqb_neq in Hne. rewrite Hne.
  now rewrite andb_false_r.
Qed.
(** Every operation is a step of the clinic table that keeps the profile
    of each clinic. *)
Lemma operation_keeps_profile op w : evolves profile_kept w (world_after E op w).
Proof.
  assert (H1 : forall c v, profile_kept c (Clinic.set_credits v c))
    by (intros [] ?; unfold profile_kept; simpl; auto).
  assert (H2 : forall c v, profile_kept c (Clinic.set_last_round_contribution v c))
    by (intros [] ?; unfold profile_kept; simpl; auto).
  assert (H3 : forall c, profile_kept c (Clinic.set_opted_in false c))
    by (intros []; unfold profile_kept; simpl; auto).
  assert (H4 : forall c, profile_kept c
                 (Clinic.set_reputation
                    (PyFloat.mul (Clinic.reputation c) (PyFloat.lit 9 10)) c))
    by (intros []; unfold profile_kept; simpl; auto).
  destruct op; simpl.
  - apply stable_issue_patient_token; auto; apply _.
  - apply stable_can_read; auto; apply _.
  - apply stable_read_history; auto; apply _.
  - apply stable_publish_history; auto; apply _.
  - apply stable_maybe_dispute; auto; apply _.
  - apply stable_decay_credits; auto; apply _.
  - apply stable_distribute_pool; auto; apply _.
  - apply stable_opt_in_rate; auto; apply _.
  - apply stable_attempt_read; auto; apply _.
  - apply stable_attempt_publish; auto; apply _.
  - apply stable_consider_opt_out; auto; apply _.
  - apply stable_clinic_turn; auto; apply _.
  - apply stable_round; auto; apply _.
  - apply stable_rounds; auto; apply _.
  - apply stable_report; auto; apply _.
Qed.

(** No operation of the engine or of the round driver, whether it returns
    or raises, registers or removes a clinic or moves one in the table, and
    none changes the identifier or the archetype of a clinic
    ([share_propensity], [free_ride], [low_quality]). *)
Theorem registry_is_fixed op w :
  Dict.keys (Engine.clinics (engine (world_after E op w)))
  = Dict.keys (Engine.clinics (engine w))
  /\ forall k c,
       Dict.get k (Engine.clinics (engine w)) = Some c ->
       exists c',
         Dict.get k (Engine.clinics (engine (world_after E op w))) = Some c'
         /\ Clinic.clinic_id c' = Clinic.clinic_id c
         /\ Clinic.share_propensity c' = Clinic.share_propensity c
         /\ Clinic.free_ride c' = Clinic.free_ride c
         /\ Clinic.low_quality c' = Clinic.low_quality c.
Proof.
  pose proof (operation_keeps_profile op w) as Hev. split.
  - symmetry. eapply slot_rel_keys. exact Hev.
  - intros k c Hc. destruct (slot_rel_get _ _ _ _ _ Hev Hc) as (c' & Hc' & Hp).
    exists c'. unfold profile_kept in Hp. tauto.
Qed.

(** A clinic that has opted out is opted out after every operation of the
    engine and of the round driver: no operation, and so no number of
    rounds, brings a clinic back. *)
Theorem opt_out_is_final op w k c :
  Dict.get k (Engine.clinics (engine w)) = Some c ->
  Clinic.opted_in c = false ->
  exists c',
    Dict.get k (Engine.clinics (engine (world_after E op w))) = Some c'
    /\ Clinic.opted_in c' = false.
Proof.
  intros Hc Hout.
  destruct (slot_rel_get _ _ _ _ _ (operation_keeps_profile op w) Hc) as (c' & Hc' & Hp).
  exists c'. split; [exact Hc'|]. apply Hp, Hout.
Qed.
End Registry.

Lemma can_read_token_fields_witness :
  let w := reading_world (PyFloat.lit 5 10) 5 in
  let unbound := AccessToken.mk "Q" "A" (PyFloat.of_int 3600) false in
  can_read "A" unbound w = can_read "A" token_A_P w
  /\ returned (can_read "A" unbound w) = Some true.
Proof.
  intros w unbound.
  destruct (can_read_token_fields "A" token_A_P unbound w) as (Heq & _).
  - vm_compute. eexists. reflexivity.
  - reflexivity.
  - reflexivity.
  - split; [exact Heq|]. vm_compute. reflexivity.
Defined.

Lemma opt_out_is_final_witness :
  let w := world_of (default_engine [("A"%string, clinic_of "A" 5 false 3)] 7) in
  exists c',
    Dict.get "A" (Engine.clinics (engine (world_after still (Rounds ["P"%string] 2 (0, 0)) w)))
    = Some c'
    /\ Clinic.opted_in c' = false.
Proof.
  intros w.
  apply (opt_out_is_final still (Rounds ["P"%string] 2 (0, 0)) w "A" (clinic_of "A" 5 false 3));
    reflexivity.
Defined.

(** * Publishing and reading *)

Section Publishing.
Context {R : Type} (E : Entropy R).
Implicit Types (w : World R) (c : Clinic.t).

(** The world after an accepted publish, step by step. *)
Lemma publish_history_accepted_run clinic_id entry w c a1 :
  Dict.get clinic_id (Engine.clinics (engine w)) = Some c ->
  Clinic.opted_in c = true ->
  Engine.publish_stake (engine w) <= Clinic.credits c ->
  let e := engine w in
  let pid := HistoryEntry.patient_id entry in
  let author := HistoryEntry.author_clinic_id entry in
  let stamped := HistoryEntry.set_stake (Engine.publish_stake e) entry in
  let booked :=
    Clinic.set_last_round_contribution
      (Clinic.last_round_contribution c + 1)
      (Clinic.set_credits
         (Clinic.credits c - Engine.publish_stake e + Engine.publish_reward e) c) in
  let d1 := Dict.set clinic_id booked (Engine.clinics e) in
  let disputed :=
    PyFloat.lt (fst (rng_random E (rng w))) (Engine.dispute_probability e)
    && PyFloat.lt (HistoryEntry.quality_score entry) (Engine.dispute_threshold e) in
  Dict.get author d1 = Some a1 ->
  let d2 :=
    if disputed
    then Dict.set author
           (Clinic.set_reputation
              (PyFloat.mul (Clinic.reputation a1) (PyFloat.lit 9 10))
              (Clinic.set_credits
                 (Clinic.credits a1 - Z.min (Engine.slash_amount e) (Clinic.credits a1)) a1))
           d1
    else d1 in
  let known := Engine.patient_histories e !! pid in
  let l := match known with Some l => l | None => fresh (dom (heap w)) end in
  let hs := match known with
            | Some _ => Engine.patient_histories e
            | None => <[pid := l]> (Engine.patient_histories e)
            end in
  let h1 := match known with Some _ => heap w | None => <[l := []]> (heap w) end in
  publish_history E clinic_id entry w
  = Return true
      (mkWorld (Engine.set_patient_histories hs (Engine.set_clinics d2 e))
               (<[l := history e (heap w) pid ++ [stamped]]> h1)
               (snd (rng_random E (rng w))) (wall w) (reads w)).
Proof.
  intros Hc Hin Hstake e pid author stamped booked d1 disputed Ha1 d2 known l hs h1.
  destruct (get_slot _ _ _ Hc) as (i & Hf & Hs).
  apply Z.ltb_ge in Hstake.
  subst e. destruct w as [e h r cl n]. simpl in *.
  unfold publish_history, random. run.
  rewrite Hf. simpl. rewrite Hs. simpl. rewrite Hin. simpl. rewrite Hstake. simpl.
  rewrite Hs. simpl. rewrite slot_store_same, Hs. simpl. rewrite store_store.
  rewrite slot_store_same, Hs. simpl. rewrite store_store.
  rewrite (store_set _ _ _ _ Hf).
  change (Clinic.set_last_round_contribution _ _) with booked. fold d1.
  unfold history. subst l hs h1 known d2 disputed. simpl.
  destruct (rng_random E r) as [u r'] eqn:Hu.
  assert (Hdispute : forall hs0 (h0 : gmap loc (list HistoryEntry.t)),
    (if PyFloat.lt u (Engine.dispute_probability e)
     then _maybe_dispute stamped else mret tt)
      (mkWorld (Engine.set_patient_histories hs0 (Engine.set_clinics d1 e)) h0 r' cl n)
    = Return tt
        (mkWorld
           (Engine.set_patient_histories hs0
              (Engine.set_clinics
                 (if PyFloat.lt u (Engine.dispute_probability e)
                     && PyFloat.lt (HistoryEntry.quality_score entry)
                                   (Engine.dispute_threshold e)
                  then Dict.set author
                         (Clinic.set_reputation
                            (PyFloat.mul (Clinic.reputation a1) (PyFloat.lit 9 10))
                            (Clinic.set_credits
                               (Clinic.credits a1
                                - Z.min (Engine.slash_amount e) (Clinic.credits a1)) a1))
                         d1
                  else d1) e)) h0 r' cl n)).
  { intros hs0 h0. destruct (PyFloat.lt u _); simpl; [|reflexivity].
    destruct (PyFloat.lt (HistoryEntry.quality_score entry) _) eqn:Hq.
    - rewrite (maybe_dispute_run stamped _ a1); [destruct e; reflexivity|exact Hq|].
      destruct e; exact Ha1.
    - unfold _maybe_dispute. run. destruct e; simpl in *. rewrite Hq. reflexivity. }
  clearbody d1 booked. destruct e as [rc pr ps dp mc dprob dthr sl mpr cs phs log pool].
  unfold Engine.set_clinics, Engine.set_patient_histories in *. simpl in *.
  subst pid.
  destruct (phs !! HistoryEntry.patient_id entry) as [l|] eqn:Hk; simpl; rewrite Hu; simpl.
  - rewrite (Hdispute phs). reflexivity.
  - rewrite (Hdispute (<[HistoryEntry.patient_id entry := fresh (dom h)]> phs)). simpl.
    rewrite lookup_insert_eq. reflexivity.
Qed.

Lemma history_stored (e e' : Engine.t) (h : gmap loc (list HistoryEntry.t)) pid x :
  histories_wf e h ->
  let known := Engine.patient_histories e !! pid in
  let l := match known with Some l => l | None => fresh (dom h) end in
  let h1 := match known with Some _ => h | None => <[l := []]> h end in
  Engine.patient_histories e'
  = match known with
    | Some _ => Engine.patient_histories e
    | None => <[pid := l]> (Engine.patient_histories e)
    end ->
  let h' := <[l := history e h pid ++ [x]]> h1 in
  history e' h' pid = history e h pid ++ [x]
  /\ (forall pid', pid' <> pid -> history e' h' pid' = history e h pid')
  /\ histories_wf e' h'.
Proof.
  intros [Halloc Hshare] known l h1 Hhs h'. subst h' h1 l known.
  unfold histories_wf, histories_allocated, history in *.
  rewrite Hhs. clear Hhs.
  destruct (Engine.patient_histories e !! pid) as [l|] eqn:Hk.
  - split; [|split].
    + rewrite Hk. simpl. now rewrite lookup_insert_eq.
    + intros pid' Hne.
      destruct (Engine.patient_histories e !! pid') as [l'|] eqn:Hk'; [|reflexivity].
      rewrite lookup_insert_ne; [reflexivity|].
      intros ->. apply Hne. eapply Hshare; eauto.
    + split.
      * intros p l' Hp. destruct (decide (l = l')) as [<-|Hne].
        -- rewrite lookup_insert_eq. eauto.
        -- rewrite lookup_insert_ne by exact Hne. eauto.
      * intros p p' l' Hp Hp'. eapply Hshare; eauto.
  - assert (Hfresh : forall p l', Engine.patient_histories e !! p = Some l' ->
                                  l' <> fresh (dom h)).
    { intros p l' Hp ->. destruct (Halloc p _ Hp) as [xs Hxs].
      pose proof (is_fresh (dom h)) as Hf. apply Hf. apply elem_of_dom. eauto. }
    split; [|split].
    + rewrite lookup_insert_eq. simpl. now rewrite lookup_insert_eq.
    + intros pid' Hne. rewrite lookup_insert_ne by congruence.
      destruct (Engine.patient_histories e !! pid') as [l'|] eqn:Hk'; [|reflexivity].
      simpl. specialize (Hfresh _ _ Hk').
      rewrite !lookup_insert_ne by congruence. reflexivity.
    + split.
      * intros p l' Hp. destruct (decide (fresh (dom h) = l')) as [<-|Hne].
        -- rewrite lookup_insert_eq. eauto.
        -- rewrite !lookup_insert_ne by exact Hne.
           destruct (decide (pid = p)) as [<-|Hp'].
           ++ rewrite lookup_insert_eq in Hp. congruence.
           ++ rewrite lookup_insert_ne in Hp by exact Hp'. eapply Halloc; eauto.
      * intros p p' l' Hp Hp'.
        destruct (decide (pid = p)) as [<-|Hn]; destruct (decide (pid = p')) as [<-|Hn'];
          auto.
        -- rewrite lookup_insert_eq in Hp. rewrite lookup_insert_ne in Hp' by exact Hn'.
           injection Hp as <-. exfalso. eapply Hfresh; eauto.
        -- rewrite lookup_insert_eq in Hp'. rewrite lookup_insert_ne in Hp by exact Hn.
           injection Hp' as <-. exfalso. eapply Hfresh; eauto.
        -- rewrite lookup_insert_ne in Hp by exact Hn.
           rewrite lookup_insert_ne in Hp' by exact Hn'. eapply Hshare; eauto.
Qed.

Lemma publish_history_appends clinic_id entry w c :
  Dict.get clinic_id (Engine.clinics (engine w)) = Some c ->
  Clinic.opted_in c = true ->
  Engine.publish_stake (engine w) <= Clinic.credits c ->
  registered (HistoryEntry.author_clinic_id entry) w ->
  histories_wf (engine w) (heap w) ->
  let o := publish_history E clinic_id entry w in
  let pid := HistoryEntry.patient_id entry in
  let stamped := HistoryEntry.set_stake (Engine.publish_stake (engine w)) entry in
  history (engine (final o)) (heap (final o)) pid = history (engine w) (heap w) pid ++ [stamped]
  /\ (forall pid', pid' <> pid ->
        history (engine (final o)) (heap (final o)) pid' = history (engine w) (heap w) pid')
  /\ histories_wf (engine (final o)) (heap (final o)).
Proof.
  intros Hc Hin Hstake [a Ha] Hwf o pid stamped.
  assert (Ha1 : exists a1,
             Dict.get (HistoryEntry.author_clinic_id entry)
               (Dict.set clinic_id
                  (Clinic.set_last_round_contribution
                     (Clinic.last_round_contribution c + 1)
                     (Clinic.set_credits
                        (Clinic.credits c - Engine.publish_stake (engine w)
                         + Engine.publish_reward (engine w)) c))
                  (Engine.clinics (engine w))) = Some a1).
  { rewrite get_set. destruct (String.eqb clinic_id _); eauto. }
  destruct Ha1 as [a1 Ha1].
  subst o. rewrite (publish_history_accepted_run clinic_id entry w c a1 Hc Hin Hstake Ha1).
  simpl.
  match goal with
  | |- context [history ?e' ?h' pid] =>
      apply (history_stored (engine w) e' (heap w) pid stamped Hwf)
  end.
  destruct (engine w); reflexivity.
Qed.

(** An accepted publish.  For a registered clinic that is opted in and
    holds the stake, and an entry whose author is registered,
    [publish_history] returns [True]; the entry, with its stake set, is the
    new last item of its patient's history and every other history is what
    it was; the clinic pays the stake, receives the reward and has one more
    contribution; when the one random draw falls below the dispute
    probability and the quality below the threshold, the author then loses
    [min(slash_amount, balance)] and a tenth of its reputation; the pool and
    the access log do not change. *)
Theorem publish_history_accepted clinic_id entry w c :
  Dict.get clinic_id (Engine.clinics (engine w)) = Some c ->
  Clinic.opted_in c = true ->
  Engine.publish_stake (engine w) <= Clinic.credits c ->
  registered (HistoryEntry.author_clinic_id entry) w ->
  histories_wf (engine w) (heap w) ->
  let e := engine w in
  let o := publish_history E clinic_id entry w in
  let pid := HistoryEntry.patient_id entry in
  let author := HistoryEntry.author_clinic_id entry in
  let stamped := HistoryEntry.set_stake (Engine.publish_stake e) entry in
  let booked :=
    Clinic.set_last_round_contribution
      (Clinic.last_round_contribution c + 1)
      (Clinic.set_credits
         (Clinic.credits c - Engine.publish_stake e + Engine.publish_reward e) c) in
  let d1 := Dict.set clinic_id booked (Engine.clinics e) in
  let disputed :=
    PyFloat.lt (fst (rng_random E (rng w))) (Engine.dispute_probability e)
    && PyFloat.lt (HistoryEntry.quality_score entry) (Engine.dispute_threshold e) in
  returned o = Some true
  /\ history (engine (final o)) (heap (final o)) pid = history e (heap w) pid ++ [stamped]
  /\ (forall pid', pid' <> pid ->
        history (engine (final o)) (heap (final o)) pid' = history e (heap w) pid')
  /\ histories_wf (engine (final o)) (heap (final o))
  /\ Engine.pool_balance (engine (final o)) = Engine.pool_balance e
  /\ Engine.access_log (engine (final o)) = Engine.access_log e
  /\ rng (final o) = snd (rng_random E (rng w))
  /\ exists a1,
       Dict.get author d1 = Some a1
       /\ Engine.clinics (engine (final o))
          = if disputed
            then Dict.set author
                   (Clinic.set_reputation
                      (PyFloat.mul (Clinic.reputation a1) (PyFloat.lit 9 10))
                      (Clinic.set_credits
                         (Clinic.credits a1
                          - Z.min (Engine.slash_amount e) (Clinic.credits a1)) a1))
                   d1
            else d1.
Proof.
  intros Hc Hin Hstake [a Ha] Hwf e o pid author stamped booked d1 disputed.
  assert (Ha1 : exists a1, Dict.get author d1 = Some a1).
  { subst d1. rewrite get_set. destruct (String.eqb clinic_id author); eauto. }
  destruct Ha1 as [a1 Ha1].
  subst o.
  destruct (publish_history_appends clinic_id entry w c Hc Hin Hstake
              (ex_intro _ a Ha) Hwf) as (H1 & H2 & H3).
  pose proof (publish_history_accepted_run clinic_id entry w c a1 Hc Hin Hstake Ha1)
    as Hrun. simpl in Hrun.
  split; [rewrite Hrun; reflexivity|].
  split; [exact H1|]. split; [exact H2|]. split; [exact H3|].
  rewrite Hrun. simpl.
  split; [destruct (engine w); reflexivity|]. split; [destruct (engine w); reflexivity|].
  split; [reflexivity|]. exists a1. split; [exact Ha1|]. destruct (engine w); reflexivity.
Qed.

(** Publish, then read.  After an accepted publish, a read of that patient
    that is granted (the reader may read, holds the read cost, and the fee
    is an integer) returns a list whose items are the patient's earlier
    history followed by the published entry with its stake set. *)
Theorem publish_then_read clinic_id entry w c reader token c1 fee part :
  Dict.get clinic_id (Engine.clinics (engine w)) = Some c ->
  Clinic.opted_in c = true ->
  Engine.publish_stake (engine w) <= Clinic.credits c ->
  registered (HistoryEntry.author_clinic_id entry) w ->
  histories_wf (engine w) (heap w) ->
  let w1 := final (publish_history E clinic_id entry w) in
  AccessToken.patient_id token = HistoryEntry.patient_id entry ->
  Dict.get reader (Engine.clinics (engine w1)) = Some c1 ->
  returned (can_read reader token w1) = Some true ->
  Engine.read_cost (engine w1) <= Clinic.credits c1 ->
  int_mul_float (Engine.read_cost (engine w1)) (Engine.match_pool_rate (engine w1))
  = Ok fee ->
  int_of_float fee = Ok part ->
  exists l,
    returned (read_history reader token w1) = Some l
    /\ heap (final (read_history reader token w1)) !! l
       = Some (history (engine w) (heap w) (HistoryEntry.patient_id entry)
               ++ [HistoryEntry.set_stake (Engine.publish_stake (engine w)) entry]).
Proof.
  intros Hc Hin Hstake Hauthor Hwf w1 Hpid Hc1 Hcan Hcost Hfee Hpart.
  destruct (publish_history_appends clinic_id entry w c Hc Hin Hstake Hauthor Hwf)
    as (Hhist & _).
  fold w1 in Hhist.
  destruct (can_read_returns reader token w1 c1 Hc1) as (b & n & Hcr & _).
  rewrite Hcr in Hcan. simpl in Hcan. injection Hcan as ->.
  rewrite (read_history_granted_run _ _ _ _ _ _ _ Hc1 Hcr Hcost Hfee Hpart).
  simpl. eexists. split; [reflexivity|].
  rewrite lookup_insert_eq, Hpid, Hhist. reflexivity.
Qed.
End Publishing.

Lemma reading_world_wf rate credits :
  histories_wf (engine (reading_world rate credits)) (heap (reading_world rate credits)).
Proof.
  split; [apply reading_world_allocated|].
  intros pid pid' l H H'. simpl in H, H'.
  apply lookup_singleton_Some in H as [<- _].
  apply lookup_singleton_Some in H' as [<- _]. reflexivity.
Defined.

(** Clinic [A], with 5 credits, publishes a poor entry on patient [P]: the
    draw 0.0 opens a dispute, [A] ends with [5 - 2 + 4 - 6 = 1] credit and
    a reputation of 0.9, and the history of [P] has the entry as its second
    item. *)
Lemma publish_history_accepted_witness :
  let w := reading_world (PyFloat.lit 5 10) 5 in
  let o := publish_history still "A" poor_entry_A_P w in
  returned o = Some true
  /\ history (engine (final o)) (heap (final o)) "P"
     = [entry_B_P; HistoryEntry.set_stake 2 poor_entry_A_P]
  /\ Dict.get "A" (Engine.clinics (engine (final o)))
     = Some (Clinic.mk "A" 1 (PyFloat.mul PyFloat.one (PyFloat.lit 9 10)) true
                       (PyFloat.lit 7 10) false false 1).
Proof.
  intros w o.
  destruct (publish_history_accepted still "A" poor_entry_A_P w (clinic_of "A" 5 true 0))
    as (H1 & H2 & _ & _ & _ & _ & _ & a1 & Ha1 & H3).
  - reflexivity.
  - reflexivity.
  - simpl. lia.
  - vm_compute. eexists. reflexivity.
  - apply reading_world_wf.
  - split; [exact H1|]. split; [exact H2|].
    fold o in H3. rewrite H3. vm_compute in Ha1. injection Ha1 as <-.
    vm_compute. reflexivity.
Defined.

(** Clinic [A] publishes a good entry on patient [P] and reads [P] with its
    token: the list returned holds the earlier entry and the new one. *)
Lemma publish_then_read_witness :
  let w := reading_world (PyFloat.lit 5 10) 5 in
  let good := HistoryEntry.mk "P" "A" high_summary (PyFloat.lit 9 10) PyFloat.zero 0 true in
  let w1 := final (publish_history still "A" good w) in
  exists l,
    returned (read_history "A" token_A_P w1) = Some l
    /\ heap (final (read_history "A" token_A_P w1)) !! l
       = Some [entry_B_P; HistoryEntry.set_stake 2 good].
Proof.
  intros w good w1.
  apply (publish_then_read still "A" good w (clinic_of "A" 5 true 0) "A" token_A_P
           (Clinic.mk "A" 7 PyFloat.one true (PyFloat.lit 7 10) false false 1)
           (PyFloat.mul (PyFloat.of_int 3) (PyFloat.lit 5 10)) 1).
  - reflexivity.
  - reflexivity.
  - simpl. lia.
  - vm_compute. eexists. reflexivity.
  - apply reading_world_wf.
  - reflexivity.
  - vm_compute. reflexivity.
  - vm_compute. reflexivity.
  - vm_compute. discriminate.
  - vm_compute. reflexivity.
  - vm_compute. reflexivity.
Defined.

(** * The opt-in rate *)

Lemma int_truediv_zero b : 0 < b -> int_truediv 0 b = Ok PyFloat.zero.
Proof.
  intros Hb. unfold int_truediv. destruct (Z.eqb_spec b 0) as [|_]; [lia|].
  destruct b as [|p|p]; try lia. reflexivity.
Qed.

Lemma int_truediv_same b : 0 < b -> int_truediv b b = Ok PyFloat.one.
Proof.
  intros Hb. unfold int_truediv. destruct (Z.eqb_spec b 0) as [|_]; [lia|].
  destruct b as [|p|p]; try lia.
  unfold PyFloat.div, PyFloat.exact, SFdiv, SFdiv_core_binary.
  replace (Zdigits2 (Z.pos p) + 0 - (Zdigits2 (Z.pos p) + 0)) with 0 by lia.
  change (Z.min (fexp PyFloat.prec PyFloat.emax 0) (0 - 0)) with (-53).
  change (0 - 0 - -53) with 53. cbv iota.
  rewrite Z.shiftl_mul_pow2 by lia.
  destruct (Z.div_eucl (Z.pos p * 2 ^ 53) (Z.pos p)) as [q r] eqn:Hqr.
  assert (Hq : q = 2 ^ 53).
  { transitivity (Z.pos p * 2 ^ 53 / Z.pos p); [unfold Z.div; now rewrite Hqr|].
    rewrite Z.mul_comm. apply Z.div_mul. lia. }
  assert (Hr : r = 0).
  { transitivity ((Z.pos p * 2 ^ 53) mod Z.pos p); [unfold Z.modulo; now rewrite Hqr|].
    rewrite Z.mul_comm. apply Z.mod_mul. lia. }
  subst q r.
  assert (Hloc : new_location (Z.pos p) 0 = loc_Exact).
  { unfold new_location, new_location_even, new_location_odd.
    destruct (Z.even (Z.pos p)); reflexivity. }
  rewrite Hloc. vm_compute. reflexivity.
Qed.

Lemma filter_all {A} (p : A -> bool) (xs : list A) :
  Forall (fun x => p x = true) xs -> List.filter p xs = xs.
Proof. induction 1 as [|x r Hx _ IH]; simpl; [reflexivity|]. now rewrite Hx, IH. Qed.

Lemma filter_none {A} (p : A -> bool) (xs : list A) :
  Forall (fun x => p x = false) xs -> List.filter p xs = [].
Proof. induction 1 as [|x r Hx _ IH]; simpl; [reflexivity|]. now rewrite Hx. Qed.

Section OptInRate.
Context {R : Type}.
Implicit Types (w : World R).

(** [opt_in_rate] at its ends: [0.0] for an engine without clinics (no
    division takes place) and when every clinic has opted out, and exactly
    [1.0] when every clinic is opted in, whatever their number; the world
    is left as it is. *)
Theorem opt_in_rate_extremes w :
  let clinics := Engine.clinics (engine w) in
  (clinics = [] -> opt_in_rate w = Return PyFloat.zero w)
  /\ (clinics <> [] ->
      Forall (fun kc => Clinic.opted_in (snd kc) = false) clinics ->
      opt_in_rate w = Return PyFloat.zero w)
  /\ (clinics <> [] ->
      Forall (fun kc => Clinic.opted_in (snd kc) = true) clinics ->
      opt_in_rate w = Return PyFloat.one w).
Proof.
  intros clinics. subst clinics. unfold opt_in_rate. run.
  destruct (Engine.clinics (engine w)) as [|kc d]; simpl is_nil; cbv iota.
  { split; [reflexivity|]. split; intros H; congruence. }
  split; [discriminate|]. split; intros _ Hall.
  - rewrite (filter_none _ _ Hall). change (Z.of_nat (length [])) with 0.
    rewrite int_truediv_zero by (simpl length; lia). reflexivity.
  - rewrite (filter_all _ _ Hall).
    rewrite int_truediv_same by (simpl length; lia). reflexivity.
Qed.
End OptInRate.

Lemma opt_in_rate_extremes_witness :
  opt_in_rate sharing_world = Return PyFloat.one sharing_world.
Proof.
  destruct (opt_in_rate_extremes sharing_world) as (_ & _ & Hall).
  apply Hall; [discriminate|]. repeat constructor.
Defined.

(** * A simulation without clinics *)

Section NoClinics.
Context {R : Type} (E : Entropy R).
Implicit Types (w : World R).

Lemma for_fold_returns {A S} (J : World R -> Prop) (xs : list A) (acc : S)
      (body : A -> S -> M R S) :
  (forall x s w, J w -> exists w', body x s w = Return s w' /\ J w') ->
  forall w, J w -> exists w', for_fold xs acc body w = Return acc w' /\ J w'.
Proof.
  intros Hbody. induction xs as [|x r IH]; intros w HJ; simpl.
  - eauto.
  - destruct (Hbody x acc w HJ) as (w1 & Hx & HJ1).
    unfold mbind, M_bind. rewrite Hx. apply IH, HJ1.
Qed.

Lemma round_without_clinics patients totals w :
  Engine.clinics (engine w) = [] ->
  exists w', round E patients totals w = Return totals w'
             /\ Engine.clinics (engine w') = [].
Proof.
  intros Hnil. destruct w as [e h r cl n]. simpl in Hnil.
  unfold round, decay_credits, distribute_pool, reset_contributions. run.
  rewrite Hnil. simpl. eexists. split; reflexivity.
Qed.

(** With [n_clinics <= 0] no clinic is registered, every round passes
    without effect, and the report divides the sum of the credits by
    [len(engine.clinics) = 0]: [simulate] raises [ZeroDivisionError],
    whatever the other arguments and the random source. *)
Theorem simulate_without_clinics n_clinics n_patients rounds starter_credits
        free_rider_fraction low_quality_fraction seed w :
  n_clinics <= 0 ->
  raised (simulate E n_clinics n_patients rounds starter_credits
                   free_rider_fraction low_quality_fraction seed w)
  = Some ZeroDivisionError.
Proof.
  intros Hn. unfold simulate, range.
  replace (Z.to_nat n_clinics) with 0%nat by lia. simpl seq. simpl for_each.
  unfold seed_random, new_engine. run.
  match goal with
  | |- context [for_fold ?xs ?acc ?body ?w0] =>
      destruct (for_fold_returns (fun w' => Engine.clinics (engine w') = []) xs acc body)
        with (w := w0) as (w1 & -> & Hnil)
  end.
  - intros x s w0 Hw0. apply round_without_clinics, Hw0.
  - reflexivity.
  - unfold report, opt_in_rate. run. rewrite Hnil. simpl. rewrite Hnil. reflexivity.
Qed.
End NoClinics.

Lemma simulate_without_clinics_witness :
  raised (simulate still 0 400 45 10 (PyFloat.lit 18 100) (PyFloat.lit 10 100) 7
                   (world_of (default_engine [] 0)))
  = Some ZeroDivisionError.
Proof. apply simulate_without_clinics. lia. Defined.

(** * The shares of the pool *)

#[global] Instance rewarded_refl : Reflexive rewarded.
Proof. intros c. unfold rewarded. repeat split; auto; lia. Qed.

#[global] Instance rewarded_trans : Transitive rewarded.
Proof.
  intros c1 c2 c3 (H1 & H2 & H3 & H4) (K1 & K2 & K3 & K4). unfold rewarded.
  split; [lia|]. split; [|split].
  - intros Hle. rewrite K2, H2; auto. destruct H3 as [->| ->]; lia.
  - destruct H3 as [H3|H3], K3 as [K3|K3]; first [left; congruence | right; congruence].
  - congruence.
Qed.

Section Shares.
Context {R : Type}.
Implicit Types (w : World R) (c : Clinic.t).

Lemma distribute_pool_rewarded w : evolves rewarded w (final (distribute_pool w)).
Proof.
  unfold distribute_pool.
  unfold mbind at 1 2. unfold M_bind at 1 2. unfold self at 1 2.
  set (d := Engine.clinics (engine w)).
  set (contributors := Dict.select (fun c => 0 <? Clinic.last_round_contribution c) d).
  set (total := fold_left Z.add (map (contribution d) contributors) 0).
  assert (Hreset : forall w0, evolves rewarded w0 (final (reset_contributions w0))).
  { intros w0. unfold reset_contributions. run. unfold evolves. simpl.
    apply slot_rel_update_all. intros [] . unfold rewarded. simpl.
    repeat split; auto; lia. }
  destruct (is_nil contributors || (Engine.pool_balance (engine w) <=? 0)) eqn:Hguard;
    [apply Hreset|].
  apply orb_false_iff in Hguard. destruct Hguard as [Hnil Hpool].
  apply Z.leb_gt in Hpool.
  assert (Htotal : 0 < total).
  { apply fold_add_positive.
    - intros Heq. rewrite Heq in Hnil. discriminate.
    - intros x Hx. now apply contribution_selected. }
  set (J := fun w' : World R =>
              Engine.pool_balance (engine w') = Engine.pool_balance (engine w)
              /\ forall i, In i contributors ->
                   0 < contribution (Engine.clinics (engine w')) i).
  assert (HJ : J w).
  { split; [reflexivity|]. intros i Hi. now apply contribution_selected. }
  unfold mbind at 1. unfold M_bind at 1.
  match goal with
  | |- context [for_each ?xs ?b w] =>
      destruct (for_each_inv J (evolves rewarded) xs b) with (w := w)
        as [Hloop HJ1]; auto
  end.
  - intros x [e h r cl n] Hx [Hpool1 Hcontr]. simpl in *.
    specialize (Hcontr x Hx) as Hlrc. unfold contribution in Hlrc.
    run. unfold evolves. simpl.
    destruct (Dict.slot x (Engine.clinics e)) as [c|] eqn:Hs; simpl.
    + destruct (pool_share _ _ total) as [share|err] eqn:Hshare; simpl.
      * rewrite Hs. simpl.
        assert (0 <= share)
          by (eapply pool_share_sign; [| | |exact Hshare]; lia).
        split.
        -- eapply slot_rel_store; [apply _|exact Hs|].
           destruct c; unfold rewarded; simpl in *. repeat split; auto; lia.
        -- intros u w' [= <- <-]. split; simpl; auto.
           intros i Hi. rewrite (contribution_store_credits _ _ _ _ _ Hs). auto.
      * split; [apply slot_rel_refl; apply _|discriminate].
    + split; [apply slot_rel_refl; apply _|discriminate].
  - match goal with
    | |- context [for_each ?xs ?b w] => destruct (for_each xs b w) as [[] w1|x w1]
    end; simpl in *; auto.
    unfold reset_contributions. run. etransitivity; [exact Hloop|].
    unfold evolves. simpl. apply slot_rel_update_all.
    intros []. unfold rewarded. simpl. repeat split; auto; lia.
Qed.

Lemma select_from_NoDup {V} (p : V -> bool) (d : Dict.t V) n :
  NoDup (Dict.select_from n p d).
Proof.
  revert n. induction d as [|[k v] r IH]; intros n; simpl; [constructor|].
  destruct (p v); [|apply IH]. constructor; [|apply IH].
  intros Hin. apply list_elem_of_In, select_from_In in Hin.
  destruct Hin as (j & v' & Hj & _). lia.
Qed.

(** One turn of the loop of [distribute_pool]: the share of the clinic
    object, computed on the pool as it is, is added to its balance. *)
Lemma credit_step total x w w1 :
  (c ← read_clinic x;
   pool ← self Engine.pool_balance;
   share ← lift (pool_share pool (Clinic.last_round_contribution c) total);
   write_clinic x (fun c => Clinic.set_credits (Clinic.credits c + share) c)) w
  = Return tt w1 ->
  exists c share,
    Dict.slot x (Engine.clinics (engine w)) = Some c
    /\ pool_share (Engine.pool_balance (engine w)) (Clinic.last_round_contribution c) total
       = Ok share
    /\ engine w1
       = Engine.set_clinics
           (Dict.store x (Clinic.set_credits (Clinic.credits c + share) c)
                       (Engine.clinics (engine w))) (engine w).
Proof.
  run. destruct (Dict.slot x (Engine.clinics (engine w))) as [c|] eqn:Hs; simpl;
    [|discriminate].
  destruct (pool_share _ _ total) as [share|err] eqn:Hshare; simpl; [|discriminate].
  rewrite Hs. simpl. intros [= <-]. exists c, share. auto.
Qed.

(** The loop over distinct clinic objects pays each of them once, its share
    of the pool as it was before the loop, and touches no other clinic. *)
Lemma credit_loop_shares total (body : nat -> M R unit) :
  (forall x w w1,
     body x w = Return tt w1 ->
     exists c share,
       Dict.slot x (Engine.clinics (engine w)) = Some c
       /\ pool_share (Engine.pool_balance (engine w)) (Clinic.last_round_contribution c)
                     total = Ok share
       /\ engine w1
          = Engine.set_clinics
              (Dict.store x (Clinic.set_credits (Clinic.credits c + share) c)
                          (Engine.clinics (engine w))) (engine w)) ->
  forall xs, NoDup xs -> forall w w',
  for_each xs body w = Return tt w' ->
  Engine.pool_balance (engine w') = Engine.pool_balance (engine w)
  /\ forall i c,
       Dict.slot i (Engine.clinics (engine w)) = Some c ->
       (In i xs ->
        exists share,
          pool_share (Engine.pool_balance (engine w)) (Clinic.last_round_contribution c)
                     total = Ok share
          /\ Dict.slot i (Engine.clinics (engine w'))
             = Some (Clinic.set_credits (Clinic.credits c + share) c))
       /\ (~ In i xs -> Dict.slot i (Engine.clinics (engine w')) = Some c).
Proof.
  intros Hbody. induction xs as [|x r IH]; intros Hnd w w'; simpl.
  - intros [= <-]. split; [reflexivity|]. intros i c Hs. split; [tauto|auto].
  - inversion Hnd as [|? ? Hx Hr]; subst. rewrite list_elem_of_In in Hx.
    unfold mbind at 1. unfold M_bind at 1.
    destruct (body x w) as [[] w1|err w1] eqn:Hstep; [|discriminate].
    destruct (Hbody _ _ _ Hstep) as (cx & share & Hsx & Hshare & Hw1).
    intros Hrest. destruct (IH Hr w1 w' Hrest) as [Hpool Hslots].
    assert (Hpool1 : Engine.pool_balance (engine w1) = Engine.pool_balance (engine w))
      by (rewrite Hw1; destruct (engine w); reflexivity).
    assert (Hcl1 : Engine.clinics (engine w1)
                   = Dict.store x (Clinic.set_credits (Clinic.credits cx + share) cx)
                                (Engine.clinics (engine w)))
      by (rewrite Hw1; destruct (engine w); reflexivity).
    split; [congruence|]. intros i c Hs.
    destruct (Nat.eq_dec i x) as [->|Hne].
    + assert (c = cx) by congruence. subst c.
      assert (Hs1 : Dict.slot x (Engine.clinics (engine w1))
                    = Some (Clinic.set_credits (Clinic.credits cx + share) cx))
        by (rewrite Hcl1; eapply slot_store_eq; exact Hsx).
      split.
      * intros _. exists share. split; [exact Hshare|].
        apply (proj2 (Hslots _ _ Hs1)). exact Hx.
      * intros Hnot. exfalso. apply Hnot. now left.
    + assert (Hs1 : Dict.slot i (Engine.clinics (engine w1)) = Some c)
        by (rewrite Hcl1, slot_store_ne; [exact Hs|congruence]).
      destruct (Hslots _ _ Hs1) as [Hin Hout]. split.
      * intros [Heq|Hir]; [congruence|]. rewrite <- Hpool1. apply Hin. exact Hir.
      * intros Hnot. apply Hout. intros Hir. apply Hnot. now right.
Qed.

(** A run of [distribute_pool] that returns has paid every contributor its
    share of the pool, whether the clinic is opted in or not. *)
Lemma distribute_pool_shares w w' i c :
  distribute_pool w = Return tt w' ->
  Dict.slot i (Engine.clinics (engine w)) = Some c ->
  0 < Clinic.last_round_contribution c ->
  0 < Engine.pool_balance (engine w) ->
  exists share,
    pool_share (Engine.pool_balance (engine w)) (Clinic.last_round_contribution c)
               (total_contribs (Engine.clinics (engine w))) = Ok share
    /\ Dict.slot i (Engine.clinics (engine w'))
       = Some (Clinic.set_last_round_contribution 0
                 (Clinic.set_credits (Clinic.credits c + share) c)).
Proof.
  intros Hrun Hs Hpos Hpool. revert Hrun.
  unfold distribute_pool, total_contribs.
  unfold mbind at 1 2. unfold M_bind at 1 2. unfold self at 1 2.
  set (d := Engine.clinics (engine w)).
  set (contributors := Dict.select (fun c => 0 <? Clinic.last_round_contribution c) d).
  set (total := fold_left Z.add (map (contribution d) contributors) 0).
  assert (Hin : In i contributors).
  { apply select_In. exists c. split; [exact Hs|]. now apply Z.ltb_lt. }
  assert (Hguard : is_nil contributors || (Engine.pool_balance (engine w) <=? 0) = false).
  { apply orb_false_iff. split; [|now apply Z.leb_gt].
    destruct contributors; [destruct Hin|reflexivity]. }
  rewrite Hguard. unfold mbind at 1. unfold M_bind at 1.
  match goal with
  | |- context [for_each ?xs ?b w] => destruct (for_each xs b w) as [[] w1|x w1] eqn:Hloop
  end; [|discriminate].
  apply (credit_loop_shares total _ (credit_step total)) in Hloop;
    [|apply select_from_NoDup].
  destruct Hloop as [_ Hslots]. destruct (proj1 (Hslots i c Hs) Hin) as (share & Hshare & Hs1).
  unfold reset_contributions. run. intros [= <-]. simpl.
  exists share. split; [exact Hshare|].
  rewrite slot_update_all, Hs1. reflexivity.
Qed.

(** [distribute_pool] only pays: whether it returns or raises, the same
    clinics are registered, no balance is lower than before, a clinic that
    has not contributed ([last_round_contribution <= 0]) keeps its balance,
    and nothing else changes in a clinic but its contribution counter.  A
    clinic that has contributed is paid, from a positive pool below
    [2 ^ 1000], exactly
    [int(pool_balance * (last_round_contribution / total_contribs))];
    [opted_in] is not a condition: a contributor that has left is paid like
    any other. *)
Theorem distribute_pool_only_pays w k c :
  Dict.get k (Engine.clinics (engine w)) = Some c ->
  exists c',
    Dict.get k (Engine.clinics (engine (final (distribute_pool w)))) = Some c'
    /\ Clinic.credits c <= Clinic.credits c'
    /\ (Clinic.last_round_contribution c <= 0 -> Clinic.credits c' = Clinic.credits c)
    /\ Clinic.clinic_id c' = Clinic.clinic_id c
    /\ Clinic.reputation c' = Clinic.reputation c
    /\ Clinic.opted_in c' = Clinic.opted_in c
    /\ Clinic.share_propensity c' = Clinic.share_propensity c
    /\ Clinic.free_ride c' = Clinic.free_ride c
    /\ Clinic.low_quality c' = Clinic.low_quality c
    /\ (0 < Clinic.last_round_contribution c ->
        0 < Engine.pool_balance (engine w) < 2 ^ 1000 ->
        exists share,
          pool_share (Engine.pool_balance (engine w)) (Clinic.last_round_contribution c)
                     (total_contribs (Engine.clinics (engine w))) = Ok share
          /\ Clinic.credits c' = Clinic.credits c + share).
Proof.
  intros Hc.
  pose proof (distribute_pool_rewarded w) as Hev.
  destruct (slot_rel_get _ _ _ _ _ Hev Hc) as (c' & Hc' & H1 & H2 & _ & H4).
  exists c'. split; [exact Hc'|]. split; [exact H1|]. split; [exact H2|].
  assert (Hshare : 0 < Clinic.last_round_contribution c ->
                   0 < Engine.pool_balance (engine w) < 2 ^ 1000 ->
                   exists share,
                     pool_share (Engine.pool_balance (engine w))
                                (Clinic.last_round_contribution c)
                                (total_contribs (Engine.clinics (engine w))) = Ok share
                     /\ Clinic.credits c' = Clinic.credits c + share).
  { intros Hpos [Hpool Hbound].
    pose proof (distribute_pool_total w Hbound) as Hret. unfold returns in Hret.
    destruct (get_slot _ _ _ Hc) as (i & Hf & Hs).
    destruct (distribute_pool w) as [[] w'|err w'] eqn:Hrun; [|discriminate].
    simpl in Hc', Hev.
    destruct (distribute_pool_shares w w' i c Hrun Hs Hpos Hpool) as (share & Hsh & Hs').
    exists share. split; [exact Hsh|].
    assert (Hf' : Dict.find k (Engine.clinics (engine w')) = Some i)
      by (rewrite (slot_rel_find _ _ _ _ Hev); exact Hf).
    rewrite (find_get _ _ _ Hf'), Hs' in Hc'. injection Hc' as <-.
    destruct c; reflexivity. }
  destruct c, c'. simpl in *. injection H4 as -> -> -> -> -> ->. repeat split.
  exact Hshare.
Qed.
End Shares.

(** Clinic [B], which has left, has contributed 3 of 4 and is paid
    [int(8 * (3 / 4)) = 6] of a pool of 8. *)
Lemma distribute_pool_only_pays_witness :
  exists c',
    Dict.get "B" (Engine.clinics (engine (final (distribute_pool lapsed_world)))) = Some c'
    /\ Clinic.opted_in c' = false
    /\ Clinic.credits c' = 11.
Proof.
  destruct (distribute_pool_only_pays lapsed_world "B" (clinic_of "B" 5 false 3))
    as (c' & Hc' & _ & _ & _ & _ & Hout & _ & _ & _ & Hshare); [reflexivity|].
  exists c'. split; [exact Hc'|]. split; [exact Hout|].
  destruct Hshare as (share & Hsh & Hcr);
    [reflexivity|split; [reflexivity|reflexivity]|].
  vm_compute in Hsh. injection Hsh as <-. exact Hcr.
Defined.

(** * The access log *)

#[global] Instance log_grows_refl {R} : Reflexive (log_grows (R := R)).
Proof. intros w. unfold log_grows. reflexivity. Qed.

#[global] Instance log_grows_trans {R} : Transitive (log_grows (R := R)).
Proof. intros w1 w2 w3. unfold log_grows. intros H12 H23. etransitivity; eauto. Qed.

#[global] Instance log_grows_engine_only {R} : EngineOnly (log_grows (R := R)).
Proof. intros w w1 w2 He. unfold log_grows. now rewrite He. Qed.

#[global] Instance log_kept_refl {R} : Reflexive (log_kept (R := R)).
Proof. intros w. reflexivity. Qed.

#[global] Instance log_kept_trans {R} : Transitive (log_kept (R := R)).
Proof. intros w1 w2 w3. unfold log_kept. congruence. Qed.

#[global] Instance log_kept_engine_only {R} : EngineOnly (log_kept (R := R)).
Proof. intros w w1 w2 He. unfold log_kept. now rewrite He. Qed.

Section LogSteps.
Context {R : Type} (E : Entropy R) (P : World R -> World R -> Prop).
Context `{!Reflexive P} `{!Transitive P} `{!EngineOnly P}.
Hypothesis P_kept : forall w w', log_kept w w' -> P w w'.

Ltac log_leaf :=
  first
    [ apply stable_write_clinic; [cls .. | intros [[]] ? ?; apply P_kept; reflexivity]
    | apply stable_update_self; [cls .. | intros [[]]; apply P_kept; reflexivity] ].
Ltac logged := stab; try log_leaf.

Lemma log_issue_patient_token pid cid ttl : stable P (issue_patient_token pid cid ttl).
Proof. unfold issue_patient_token. logged. Qed.

Lemma log_can_read cid token : stable P (can_read cid token).
Proof. unfold can_read. logged. Qed.

Lemma log_maybe_dispute entry : stable P (_maybe_dispute entry).
Proof. unfold _maybe_dispute. logged. Qed.

Lemma log_publish_history cid entry : stable P (publish_history E cid entry).
Proof. unfold publish_history. stab; try apply log_maybe_dispute; log_leaf. Qed.

Lemma log_decay_credits : stable P decay_credits.
Proof. unfold decay_credits. logged. Qed.

Lemma log_reset_contributions : stable P reset_contributions.
Proof. unfold reset_contributions. logged. Qed.

Lemma log_distribute_pool : stable P distribute_pool.
Proof. unfold distribute_pool. stab; try apply log_reset_contributions; log_leaf. Qed.

Lemma log_opt_in_rate : stable P opt_in_rate.
Proof. unfold opt_in_rate. logged. Qed.

Lemma log_uniform a b : stable P (uniform E a b).
Proof. unfold uniform. logged. Qed.

Lemma log_attempt_publish patients clinic total :
  stable P (attempt_publish E patients clinic total).
Proof.
  unfold attempt_publish.
  stab; try apply log_uniform; try apply log_publish_history; log_leaf.
Qed.

Lemma log_consider_opt_out clinic : stable P (consider_opt_out E clinic).
Proof. unfold consider_opt_out. logged. Qed.

Lemma log_report totals : stable P (report totals).
Proof. unfold report. stab; try apply log_opt_in_rate; log_leaf. Qed.

Hypothesis P_append :
  forall w x,
    P w (mkWorld (Engine.set_access_log (Engine.access_log (engine w) ++ [x]) (engine w))
                 (heap w) (rng w) (wall w) (reads w)).

Lemma log_read_history cid token : stable P (read_history cid token).
Proof.
  unfold read_history. stab; try apply log_can_read; try log_leaf.
  apply stable_update_self. intros w. apply P_append.
Qed.

Lemma log_attempt_read patients clinic total :
  stable P (attempt_read E patients clinic total).
Proof.
  unfold attempt_read.
  stab; try apply log_issue_patient_token; try apply log_read_history; log_leaf.
Qed.

Lemma log_clinic_turn patients clinic totals :
  stable P (clinic_turn E patients clinic totals).
Proof.
  unfold clinic_turn.
  stab; try apply log_attempt_read; try apply log_attempt_publish;
    try apply log_consider_opt_out; log_leaf.
Qed.

Lemma log_round patients totals : stable P (round E patients totals).
Proof.
  unfold round.
  stab; try apply log_decay_credits; try apply log_clinic_turn;
    try apply log_distribute_pool; log_leaf.
Qed.
End LogSteps.

Section AccessLog.
Context {R : Type} (E : Entropy R).
Implicit Types (w : World R).

Lemma log_kept_grows w w' : log_kept w w' -> log_grows w w'.
Proof. unfold log_kept, log_grows. intros ->. reflexivity. Qed.

Lemma log_append_grows w x :
  log_grows w (mkWorld (Engine.set_access_log (Engine.access_log (engine w) ++ [x])
                                              (engine w))
                       (heap w) (rng w) (wall w) (reads w)).
Proof. destruct w as [[]]. unfold log_grows. simpl. apply prefix_app_r. reflexivity. Qed.

(** The access log is append-only and only reads write it: after every
    operation of the engine and of the round driver, returning or raising,
    the log from before is a prefix of the log; and the log is unchanged by
    every operation that is not a read or a turn or round that may hold
    one. *)
Theorem access_log_append_only op w :
  Engine.access_log (engine w) `prefix_of` Engine.access_log (engine (world_after E op w))
  /\ (reading_operation op = false ->
      Engine.access_log (engine (world_after E op w)) = Engine.access_log (engine w)).
Proof.
  split.
  - change (log_grows w (world_after E op w)).
    pose proof (@log_kept_grows) as Hk. pose proof (@log_append_grows) as Ha.
    destruct op; unfold world_after.
    + apply log_issue_patient_token; auto; apply _.
    + apply log_can_read; auto; apply _.
    + apply log_read_history; auto; apply _.
    + apply log_publish_history; auto; apply _.
    + apply log_maybe_dispute; auto; apply _.
    + apply log_decay_credits; auto; apply _.
    + apply log_distribute_pool; auto; apply _.
    + apply log_opt_in_rate; auto; apply _.
    + apply log_attempt_read; auto; apply _.
    + apply log_attempt_publish; auto; apply _.
    + apply log_consider_opt_out; auto; apply _.
    + apply log_clinic_turn; auto; apply _.
    + apply log_round; auto; apply _.
    + apply stable_for_fold; [apply _ ..|]. intros ? ?. apply log_round; auto; apply _.
    + apply log_report; auto; apply _.
  - intros Hop. change (log_kept w (world_after E op w)).
    destruct op; try discriminate; unfold world_after.
    + apply log_issue_patient_token; auto; apply _.
    + apply log_can_read; auto; apply _.
    + apply log_publish_history; auto; apply _.
    + apply log_maybe_dispute; auto; apply _.
    + apply log_decay_credits; auto; apply _.
    + apply log_distribute_pool; auto; apply _.
    + apply log_opt_in_rate; auto; apply _.
    + apply log_attempt_publish; auto; apply _.
    + apply log_consider_opt_out; auto; apply _.
    + apply log_report; auto; apply _.
Qed.
End AccessLog.

Lemma access_log_append_only_witness :
  let w := reading_world (PyFloat.lit 5 10) 5 in
  Engine.access_log
    (engine (world_after still (Publish_history "A" poor_entry_A_P) w))
  = Engine.access_log (engine w).
Proof.
  intros w.
  apply (proj2 (access_log_append_only still (Publish_history "A" poor_entry_A_P) w)).
  reflexivity.
Defined.

(** * Tokens *)

Section Tokens.
Context {R : Type}.
Implicit Types (w : World R).

(** The lifetime of a token.  [issue_patient_token] asks nothing of the
    engine (the clinic need not be registered) and changes nothing in it; it
    raises [OverflowError] when [ttl_seconds] is too large for a float, and
    otherwise returns a token bound to the clinic that expires [ttl_seconds]
    after the reading of the clock at issue.  In any later world, [can_read]
    accepts the token for that clinic exactly when the clinic is opted in,
    the clock does not read more than the expiry, and the clinic holds the
    read threshold. *)
Theorem token_lifetime pid cid ttl w :
  match float_of_int ttl with
  | Err x => issue_patient_token pid cid ttl w
             = Raise x (mkWorld (engine w) (heap w) (rng w) (wall w) (S (reads w)))
  | Ok d =>
      let expiry := PyFloat.add (wall w (reads w)) d in
      let token := AccessToken.mk pid cid expiry true in
      issue_patient_token pid cid ttl w
      = Return token (mkWorld (engine w) (heap w) (rng w) (wall w) (S (reads w)))
      /\ forall w' c,
           Dict.get cid (Engine.clinics (engine w')) = Some c ->
           returned (can_read cid token w')
           = Some (Clinic.opted_in c
                   && negb (PyFloat.gt (wall w' (reads w')) expiry)
                   && (Engine.min_credits_to_read (engine w') <=? Clinic.credits c))
  end.
Proof.
  unfold issue_patient_token, float_add_int. run.
  destruct (float_of_int ttl) as [d|x]; simpl; [|reflexivity].
  split; [reflexivity|]. intros w' c Hc.
  rewrite (can_read_run cid _ w' c Hc). simpl.
  rewrite String.eqb_refl, andb_true_r. reflexivity.
Qed.
End Tokens.

Lemma token_lifetime_witness :
  let w := reading_world (PyFloat.lit 5 10) 5 in
  returned (can_read "A" token_A_P w) = Some true.
Proof.
  intros w. pose proof (token_lifetime "P" "A" 3600 w) as H.
  change (float_of_int 3600) with (Ok (PyFloat.of_int 3600)) in H. cbv iota in H.
  destruct H as [_ H].
  exact (H w (clinic_of "A" 5 true 0) eq_refl).
Defined.

(** * The clinics of a simulation *)

Lemma zeros_cons k s :
  (String.concat "" (repeat "0" (S k)) ++ s
   = String (Ascii.Ascii false false false false true true false false)
            (String.concat "" (repeat "0" k) ++ s))%string.
Proof. destruct k; reflexivity. Qed.

Lemma parse_zeros k s : parse_d (String.concat "" (repeat "0"%string k) ++ s) = parse_d s.
Proof.
  induction k as [|k IH]; [reflexivity|].
  rewrite zeros_cons. unfold parse_d in *. simpl.
  destruct (NilEmpty.uint_of_string (String.concat "" (repeat "0"%string k) ++ s)) as [d|];
    destruct (NilEmpty.uint_of_string s) as [d'|]; simpl in *; try congruence.
  exact IH.
Qed.

(** Reading back what [fmt_d] has written gives the number, whatever the
    width: the zeros of the padding do not count and no digit is cut. *)
Lemma parse_fmt_d width i : parse_d (fmt_d width i) = Some i.
Proof.
  unfold fmt_d. rewrite parse_zeros. unfold parse_d, NilZero.string_of_uint.
  pose proof (Unsigned.of_to i) as Hi.
  destruct (Nat.to_uint i) eqn:Hd; try (rewrite <- Hd, NilEmpty.usu; simpl; congruence).
  rewrite <- Hi. reflexivity.
Qed.

Lemma fmt_d_inj width i j : fmt_d width i = fmt_d width j -> i = j.
Proof.
  intros H. pose proof (parse_fmt_d width i) as Hi. rewrite H, parse_fmt_d in Hi.
  congruence.
Qed.

Lemma get_None_keys {V} k (d : Dict.t V) : ~ In k (Dict.keys d) -> Dict.get k d = None.
Proof.
  unfold Dict.keys, Dict.get. induction d as [|[k' v] r IH]; simpl; [reflexivity|].
  intros Hn. destruct (String.eqb_spec k k') as [->|]; [tauto|]. apply IH. tauto.
Qed.

Section Registration.
Context {R : Type} (E : Entropy R).
Implicit Types (w : World R).

(** One pass of the registration loop: the clinic is filed under
    ["C" ++ fmt_d 3 i], with the starter credits and a reputation of 1.0. *)
Lemma register_clinic_run starter frf lqf i w :
  exists c w',
    register_clinic E starter frf lqf i w = Return tt w'
    /\ Clinic.clinic_id c = ("C" ++ fmt_d 3 i)%string
    /\ Clinic.credits c = starter
    /\ engine w'
       = Engine.set_clinics (Dict.set (Clinic.clinic_id c) c (Engine.clinics (engine w)))
                            (engine w).
Proof.
  unfold register_clinic, add_clinic, random. run.
  destruct (rng_random E (rng w)) as [u r]. simpl.
  destruct (PyFloat.lt u frf); simpl.
  - eexists (Clinic.mk _ _ _ _ _ _ _ _). eexists. split; [reflexivity|]. simpl.
    repeat split; reflexivity.
  - destruct (rng_random E r) as [u' r']. simpl.
    eexists (Clinic.mk _ _ _ _ _ _ _ _). eexists. split; [reflexivity|]. simpl.
    repeat split; reflexivity.
Qed.

Lemma registration_loop starter frf lqf k : forall a w,
  (forall i, In i (seq a k) -> ~ In ("C" ++ fmt_d 3 i)%string
                                     (Dict.keys (Engine.clinics (engine w)))) ->
  exists w',
    for_each (seq a k) (register_clinic E starter frf lqf) w = Return tt w'
    /\ Dict.keys (Engine.clinics (engine w'))
       = Dict.keys (Engine.clinics (engine w))
         ++ map (fun i => ("C" ++ fmt_d 3 i)%string) (seq a k).
Proof.
  induction k as [|k IH]; intros a w Hfree; simpl.
  - eexists. split; [reflexivity|]. now rewrite app_nil_r.
  - destruct (register_clinic_run starter frf lqf a w) as (c & w1 & Hrun & Hid & _ & He).
    unfold mbind, M_bind. rewrite Hrun.
    assert (Hkeys : Dict.keys (Engine.clinics (engine w1))
                    = Dict.keys (Engine.clinics (engine w)) ++ [("C" ++ fmt_d 3 a)%string]).
    { rewrite He. destruct (engine w). simpl. rewrite Hid.
      apply keys_set_absent, get_None_keys, Hfree. now left. }
    destruct (IH (S a) w1) as (w' & Hloop & Hk').
    + intros i Hi. rewrite Hkeys, in_app_iff. intros [Hin|[Heq|[]]].
      * apply (Hfree i); [now right|exact Hin].
      * injection Heq as Heq. apply fmt_d_inj in Heq. apply in_seq in Hi. lia.
    + exists w'. split; [exact Hloop|]. rewrite Hk', Hkeys, <- app_assoc. reflexivity.
Qed.

Lemma clinic_ids_NoDup n_clinics : NoDup (clinic_ids n_clinics).
Proof.
  unfold clinic_ids, range. apply NoDup_ListNoDup, NoDup_map_NoDup_ForallPairs.
  - intros i j _ _ Heq. injection Heq as Heq. eapply fmt_d_inj; eauto.
  - apply seq_NoDup.
Qed.

(** The clinics of a simulation.  [simulate] registers exactly [n_clinics]
    clinics, under the identifiers [C000], [C001], ... in this order; the
    identifiers are pairwise distinct, also from 1000 on where the number
    takes more than three digits, so that no registration overwrites an
    earlier one; and the same clinics, in the same order, are registered
    when the simulation ends, whether it returns or raises. *)
Theorem simulate_registry n_clinics n_patients rounds starter_credits
        free_rider_fraction low_quality_fraction seed w :
  let w' := final (simulate E n_clinics n_patients rounds starter_credits
                            free_rider_fraction low_quality_fraction seed w) in
  Dict.keys (Engine.clinics (engine w')) = clinic_ids n_clinics
  /\ NoDup (clinic_ids n_clinics)
  /\ length (Engine.clinics (engine w')) = Z.to_nat n_clinics.
Proof.
  intros w'.
  assert (Hkeys : Dict.keys (Engine.clinics (engine w')) = clinic_ids n_clinics).
  { subst w'.
    set (w2 := mkWorld (Engine.init 3 4 2 1 3 (PyFloat.lit 12 100) (PyFloat.lit 45 100) 6
                                    (PyFloat.lit 5 10))
                       (heap w) (rng_seed E seed) (wall w) (reads w)).
    set (patients := map (fun i => ("P" ++ fmt_d 4 i)%string) (range n_patients)).
    destruct (registration_loop starter_credits free_rider_fraction low_quality_fraction
                (Z.to_nat n_clinics) 0%nat w2) as (w3 & Hreg & Hk3).
    { intros i _ []. }
    change (Dict.keys (Engine.clinics (engine (final
              ((for_each (range n_clinics)
                  (register_clinic E starter_credits free_rider_fraction
                                   low_quality_fraction) ≫= fun _ =>
                for_fold (range rounds) (0, 0) (fun _ => round E patients) ≫= report)
                 w2)))) = clinic_ids n_clinics).
    unfold mbind at 1. unfold M_bind at 1. unfold range at 1. rewrite Hreg.
    pose proof (operation_keeps_profile E (Rounds patients rounds (0, 0)) w3) as Hrounds.
    simpl in Hrounds. unfold mbind, M_bind.
    destruct (for_fold (range rounds) (0, 0) (fun _ => round E patients) w3)
      as [totals w4|x w4]; simpl in Hrounds.
    - pose proof (operation_keeps_profile E (Report totals) w4) as Hreport.
      simpl in Hreport.
      rewrite <- (slot_rel_keys _ _ _ Hreport), <- (slot_rel_keys _ _ _ Hrounds), Hk3.
      reflexivity.
    - simpl. rewrite <- (slot_rel_keys _ _ _ Hrounds), Hk3. reflexivity. }
  split; [exact Hkeys|]. split; [apply clinic_ids_NoDup|].
  transitivity (length (Dict.keys (Engine.clinics (engine w')))).
  - unfold Dict.keys. now rewrite length_map.
  - rewrite Hkeys. unfold clinic_ids, range. now rewrite length_map, length_seq.
Qed.
End Registration.

(** * A simulation that returns *)

(** ** More on floats *)

Lemma Zdigits2_unique m k : 2 ^ (k - 1) <= m < 2 ^ k -> 0 < k -> Zdigits2 m = k.
Proof.
  intros [Hlo Hhi] Hk.
  assert (Hm : 0 < m) by (pose proof (Z.pow_pos_nonneg 2 (k - 1)); lia).
  destruct m as [|p|p]; try lia. simpl.
  pose proof (digits2_pos_lt p) as Hlt. pose proof (digits2_pos_le p) as Hle.
  set (D := Z.pos (digits2_pos p)) in *.
  destruct (Z_lt_le_dec D k) as [HDk|HDk].
  - assert (2 ^ D <= 2 ^ (k - 1)) by (apply Z.pow_le_mono_r; lia). lia.
  - destruct (Z_lt_le_dec k D) as [HkD|HkD]; [|lia].
    assert (2 ^ k <= 2 ^ (D - 1)) by (apply Z.pow_le_mono_r; lia). lia.
Qed.

Lemma div_exact_within_gen a b k :
  0 <= a -> 0 < b -> a < 2 ^ k * b -> 0 <= k <= 1000 ->
  within (k + 1) (Z.max 0 (k - 52)) (PyFloat.div (PyFloat.exact a) (PyFloat.exact b)).
Proof.
  intros Ha Hb Hab Hk. destruct b as [|b|b]; try lia.
  destruct a as [|a|a]; try lia; [exact I|].
  unfold PyFloat.div, PyFloat.exact, SFdiv, SFdiv_core_binary.
  set (e' := Z.min _ _).
  assert (He' : e' <= 0) by (subst e'; lia).
  set (m' := match 0 - 0 - e' with Z.pos _ => _ | _ => _ end).
  assert (Hm' : 0 <= m' < 2 ^ k * Z.pos b * 2 ^ (- e')).
  { pose proof (Z.pow_pos_nonneg 2 (- e') ltac:(lia) ltac:(lia)).
    subst m'. destruct (0 - 0 - e') as [|s|s] eqn:Hs; try lia.
    - replace (- e') with 0 in * by lia. simpl. lia.
    - rewrite Z.shiftl_mul_pow2 by lia. replace (- e') with (Z.pos s) in * by lia. nia. }
  pose proof (Z_div_mod m' (Z.pos b) ltac:(lia)) as Hdm.
  destruct (Z.div_eucl m' (Z.pos b)) as [q r]. destruct Hdm as [Hq Hr].
  pose proof (Z.pow_pos_nonneg 2 (- e') ltac:(lia) ltac:(lia)) as Hp.
  pose proof (Z.pow_pos_nonneg 2 k ltac:(lia) ltac:(lia)) as Hpk.
  assert (Hq0 : 0 <= q < 2 ^ k * 2 ^ (- e')) by nia.
  apply (binary_round_aux_within _ q e' _ k); try lia.
  - assert (Zdigits2 q <= k + - e'); [|lia].
    apply Zdigits2_le; try lia. rewrite Z.pow_add_r by lia. lia.
  - unfold fexp, emin, PyFloat.prec, PyFloat.emax. lia.
Qed.

Lemma int_truediv_returns_gen a b k :
  0 <= a -> 0 < b -> a < 2 ^ k * b -> 0 <= k <= 1000 ->
  exists q, int_truediv a b = Ok q.
Proof.
  intros Ha Hb Hab Hk. unfold int_truediv.
  destruct (Z.eqb_spec b 0) as [|_]; [lia|].
  pose proof (div_exact_within_gen a b k Ha Hb Hab Hk) as Hq.
  rewrite (within_finite _ _ _ Hq). eauto.
Qed.

Lemma within_truncate B C x : within B C x -> 0 <= B -> Z.abs (PyFloat.truncate x) < 2 ^ B.
Proof.
  intros Hx HB. pose proof (Z.pow_pos_nonneg 2 B ltac:(lia) HB) as HpB.
  destruct x as [s|s| |s m e]; simpl in Hx; try tauto; try (simpl; lia).
  destruct Hx as [Hd _]. unfold PyFloat.truncate.
  pose proof (digits2_pos_lt m) as Hm. set (D := Z.pos (digits2_pos m)) in *.
  assert (Hv : 0 <= (if 0 <=? e then Z.pos m * 2 ^ e else Z.pos m / 2 ^ (- e)) < 2 ^ B).
  { destruct (Z.leb_spec 0 e).
    - pose proof (Z.pow_pos_nonneg 2 e ltac:(lia) ltac:(lia)).
      assert (2 ^ D * 2 ^ e <= 2 ^ B).
      { rewrite <- Z.pow_add_r by lia. apply Z.pow_le_mono_r; lia. }
      nia.
    - pose proof (Z.pow_pos_nonneg 2 (- e) ltac:(lia) ltac:(lia)) as Hpe.
      split; [apply Z.div_pos; lia|].
      apply Z.div_lt_upper_bound; [lia|].
      destruct (Z_lt_le_dec (D + e) 0).
      + assert (2 ^ D <= 2 ^ (- e)) by (apply Z.pow_le_mono_r; lia). nia.
      + assert (2 ^ D <= 2 ^ (- e) * 2 ^ (D + e)).
        { rewrite <- Z.pow_add_r by lia. apply Z.pow_le_mono_r; lia. }
        assert (2 ^ (D + e) <= 2 ^ B) by (apply Z.pow_le_mono_r; lia).
        nia. }
  destruct s; simpl; lia.
Qed.

Lemma pool_share_bound pool n total share :
  0 < pool < 2 ^ 1000 -> 0 < n <= total ->
  pool_share pool n total = Ok share -> 0 <= share <= 32 * pool.
Proof.
  intros Hpool Hn Hshare.
  split; [eapply pool_share_sign; [| | |exact Hshare]; lia|].
  revert Hshare. unfold pool_share.
  destruct (int_truediv_returns n total) as (q & -> & Hq); try lia.
  unfold int_mul_float, float_of_int.
  set (k := Z.log2 pool + 1).
  pose proof (Z.log2_spec pool ltac:(lia)) as Hlog.
  pose proof (Z.log2_nonneg pool) as Hlog0.
  assert (Hk : k <= 1000).
  { destruct (Z_lt_le_dec 1000 k) as [Hgt|]; [|lia].
    assert (2 ^ 1000 <= 2 ^ Z.log2 pool) by (apply Z.pow_le_mono_r; lia). lia. }
  assert (Hpk : 0 < pool < 2 ^ k) by (subst k; replace (Z.log2 pool + 1) with (Z.succ (Z.log2 pool)) by lia; lia).
  pose proof (of_int_within pool k Hpk ltac:(lia)) as Hp.
  rewrite (within_finite _ _ _ Hp).
  pose proof (mul_within _ _ _ _ (Z.max 0 (k - 49)) _ _ Hp Hq ltac:(lia) ltac:(lia))
    as Hm.
  assert (Hm' : within (k + 1 + 2 + 1) (Z.max 0 (k - 49))
                  (PyFloat.mul (PyFloat.of_int pool) q)).
  { apply Hm; [unfold fexp, emin, PyFloat.prec, PyFloat.emax; lia|lia]. }
  rewrite (within_int _ _ _ Hm'). intros [= <-].
  pose proof (within_truncate _ _ _ Hm' ltac:(lia)) as Ht.
  assert (2 ^ (k + 1 + 2 + 1) = 32 * 2 ^ Z.log2 pool).
  { subst k. replace (Z.log2 pool + 1 + 1 + 2 + 1) with (5 + Z.log2 pool) by lia.
    rewrite Z.pow_add_r by lia. reflexivity. }
  lia.
Qed.

Lemma shr_fexp_exact m e :
  Zdigits2 (Z.pos m) = 53 -> -1021 <= e ->
  shr_fexp PyFloat.prec PyFloat.emax (Z.pos m) e loc_Exact
  = (Build_shr_record (Z.pos m) false false, e).
Proof.
  intros Hd He. unfold shr_fexp. rewrite Hd.
  replace (fexp PyFloat.prec PyFloat.emax (53 + e) - e) with 0
    by (unfold fexp, emin, PyFloat.prec, PyFloat.emax; lia).
  reflexivity.
Qed.

(** A positive integer below [2 ^ 53] converts to a finite float that is
    not zero. *)
Lemma of_int_small z :
  0 < z < 2 ^ 53 -> exists m e, PyFloat.of_int z = S754_finite false m e.
Proof.
  intros Hz. destruct z as [|p|p]; try lia.
  unfold PyFloat.of_int, binary_normalize, binary_round.
  pose proof (digits2_pos_lt p) as Hlt. pose proof (digits2_pos_le p) as Hle.
  set (D := Z.pos (digits2_pos p)) in *.
  assert (HD : 1 <= D <= 53).
  { split; [subst D; lia|].
    destruct (Z_lt_le_dec 53 D) as [Hgt|]; [|lia].
    assert (2 ^ 53 <= 2 ^ (D - 1)) by (apply Z.pow_le_mono_r; lia). lia. }
  assert (Hf : fexp PyFloat.prec PyFloat.emax (D + 0) = D - 53)
    by (unfold fexp, emin, PyFloat.prec, PyFloat.emax; lia).
  rewrite Hf.
  assert (Hsh : exists mz,
             shl_align p 0 (D - 53) = (mz, D - 53) /\ Zdigits2 (Z.pos mz) = 53).
  { unfold shl_align. destruct (D - 53 - 0) as [|d|d] eqn:Hd; try lia.
    - exists p. replace (D - 53) with 0 by lia. split; [reflexivity|]. simpl. fold D. lia.
    - exists (Pos.iter xO p d). split; [reflexivity|].
      change (Pos.iter xO p d) with (shift_pos d p).
      apply Zdigits2_unique; [|lia].
      rewrite shift_pos_correct, Zpower_pos_nat, Zpower_nat_Z, positive_nat_Z.
      replace (Z.pos d) with (53 - D) by lia.
      assert (H1 : 2 ^ 53 = 2 ^ (53 - D) * 2 ^ D)
        by (rewrite <- Z.pow_add_r by lia; f_equal; lia).
      assert (H2 : 2 ^ (53 - 1) = 2 ^ (53 - D) * 2 ^ (D - 1))
        by (rewrite <- Z.pow_add_r by lia; f_equal; lia).
      pose proof (Z.pow_pos_nonneg 2 (53 - D) ltac:(lia) ltac:(lia)).
      rewrite H1, H2. nia. }
  destruct Hsh as (mz & -> & Hmz).
  unfold binary_round_aux. rewrite (shr_fexp_exact mz (D - 53) Hmz ltac:(lia)).
  simpl shr_m. simpl loc_of_shr_record. simpl round_nearest_even.
  rewrite (shr_fexp_exact mz (D - 53) Hmz ltac:(lia)). simpl shr_m.
  destruct (Z.leb_spec (D - 53) (PyFloat.emax - PyFloat.prec)) as [_|Hgt].
  - eauto.
  - unfold PyFloat.emax, PyFloat.prec in Hgt. lia.
Qed.

Lemma float_of_int_small z :
  0 < z < 2 ^ 53 ->
  exists y, float_of_int z = Ok y /\ PyFloat.is_zero y = false.
Proof.
  intros Hz. destruct (of_int_small z Hz) as (m & e & Hy).
  unfold float_of_int. rewrite Hy. simpl. eauto.
Qed.

Lemma float_of_int_returns z : 0 <= z < 2 ^ 1000 -> exists y, float_of_int z = Ok y.
Proof.
  intros Hz. unfold float_of_int. destruct (Z.eq_dec z 0) as [->|Hne].
  - eexists. reflexivity.
  - pose proof (of_int_within z 1000 ltac:(lia) ltac:(lia)) as Hw.
    rewrite (within_finite _ _ _ Hw). eauto.
Qed.

(** ** Tables of clinics *)

Section Tables.
Context {V : Type}.
Implicit Types (d : Dict.t V) (P : string * V -> Prop).

Lemma slot_Some_lt i d : (i < length d)%nat -> exists v, Dict.slot i d = Some v.
Proof.
  intros Hi. unfold Dict.slot. destruct (lookup_lt_is_Some_2 d i Hi) as [[k v] ->].
  simpl. eauto.
Qed.

Lemma Forall_slot P i v d : Forall P d -> Dict.slot i d = Some v -> exists k, P (k, v).
Proof.
  intros Hall Hs. destruct (slot_In _ _ _ Hs) as [k Hin]. exists k.
  rewrite Forall_forall in Hall. apply Hall, list_elem_of_In, Hin.
Qed.

Lemma Forall_get P k v d : Forall P d -> Dict.get k d = Some v -> P (k, v).
Proof.
  intros Hall Hg. rewrite Forall_forall in Hall.
  apply Hall, list_elem_of_In, get_In, Hg.
Qed.

Lemma Forall_set_key P k v d : Forall P d -> P (k, v) -> Forall P (Dict.set k v d).
Proof.
  intros Hall Hv. unfold Dict.set. induction Hall as [|[k' v'] r Hkv Hr IH]; simpl.
  - constructor; auto.
  - destruct (String.eqb_spec k k') as [->|]; constructor; auto.
Qed.

Lemma length_set_present k v v' d :
  Dict.get k d = Some v' -> length (Dict.set k v d) = length d.
Proof.
  unfold Dict.set, Dict.get. induction d as [|[k0 v0] r IH]; simpl; [discriminate|].
  destruct (String.eqb k k0); simpl; [reflexivity|]. intros H. f_equal. auto.
Qed.

Lemma set_set k v v' d : Dict.set k v (Dict.set k v' d) = Dict.set k v d.
Proof.
  unfold Dict.set. induction d as [|[k0 v0] r IH]; simpl.
  - now rewrite String.eqb_refl.
  - destruct (String.eqb k k0) eqn:Hk; simpl; rewrite Hk; [reflexivity|].
    f_equal. exact IH.
Qed.

Lemma Forall_store P i v v0 d :
  Forall P d -> Dict.slot i d = Some v0 -> (forall k, P (k, v0) -> P (k, v)) ->
  Forall P (Dict.store i v d).
Proof.
  intros Hall. revert i. unfold Dict.slot, Dict.store.
  induction Hall as [|[k' v'] r Hkv Hr IH]; intros [|i]; simpl; try discriminate.
  - intros [= ->] Hv. constructor; auto.
  - intros Hs Hv. constructor; auto. apply (IH i Hs Hv).
Qed.

Lemma Forall_store_impl P (Q : string * V -> Prop) i v v0 d :
  Forall P d -> Dict.slot i d = Some v0 ->
  (forall kv, P kv -> Q kv) -> (forall k, P (k, v0) -> Q (k, v)) ->
  Forall Q (Dict.store i v d).
Proof.
  intros Hall. revert i. unfold Dict.slot, Dict.store.
  induction Hall as [|[k' v'] r Hkv Hr IH]; intros [|i]; simpl; try discriminate.
  - intros [= ->] HPQ Hv. constructor; auto. eapply Forall_impl; eauto.
  - intros Hs HPQ Hv. constructor; auto. apply (IH i Hs HPQ Hv).
Qed.

Lemma Forall_update_all P (f : V -> V) d :
  Forall P d -> (forall k v, P (k, v) -> P (k, f v)) -> Forall P (Dict.update_all f d).
Proof.
  intros Hall Hf. unfold Dict.update_all.
  induction Hall as [|[k v] r Hkv Hr IH]; simpl; constructor; auto.
Qed.

Lemma length_update_all (f : V -> V) d : length (Dict.update_all f d) = length d.
Proof. unfold Dict.update_all. apply length_map. Qed.
End Tables.

(** ** The steps of a running simulation *)

Lemma running_mono n b c b' c' e :
  b <= b' -> c <= c' -> running n b c e -> running n b' c' e.
Proof.
  intros Hb Hc (Hs & Hn & Hall & Hp). split; [exact Hs|]. split; [exact Hn|].
  split; [|lia]. eapply Forall_impl; [exact Hall|].
  intros [k v] [Hid Hcr]. split; [exact Hid|]. simpl in *. lia.
Qed.

Lemma running_set n b c e k v v0 :
  running n b c e -> Dict.get k (Engine.clinics e) = Some v0 ->
  Clinic.clinic_id v = k -> 0 <= Clinic.credits v <= c ->
  running n b c (Engine.set_clinics (Dict.set k v (Engine.clinics e)) e).
Proof.
  intros (Hs & Hn & Hall & Hp) Hg Hid Hcr. destruct e. simpl in *.
  split; [exact Hs|]. split; [|split; [|exact Hp]]; simpl.
  - rewrite (length_set_present _ _ _ _ Hg). exact Hn.
  - apply Forall_set_key; [exact Hall|]. split; simpl; auto.
Qed.

Section Steps.
Context {R : Type} (E : Entropy R).
Implicit Types (w : World R).

Lemma read_history_running clinic_id token w c1 n b c :
  Dict.get clinic_id (Engine.clinics (engine w)) = Some c1 ->
  running n b c (engine w) ->
  exists l w',
    read_history clinic_id token w = Return l w' /\ running n (b + 1) c (engine w').
Proof.
  intros Hc Hrun.
  destruct (can_read_returns clinic_id token w c1 Hc) as (ok & m & Hcr & _).
  destruct (get_slot _ _ _ Hc) as (i & Hf & Hs).
  assert (Hsame : running n (b + 1) c (engine w))
    by (eapply running_mono; [| |exact Hrun]; lia).
  destruct ok; [destruct (Z_lt_le_dec (Clinic.credits c1) (Engine.read_cost (engine w)))
                  as [Hlt|Hge]|].
  - unfold read_history. unfold mbind at 1. unfold M_bind at 1. rewrite Hcr.
    run. rewrite Hf. simpl. rewrite Hs. simpl.
    apply Z.ltb_lt in Hlt. rewrite Hlt. simpl. eauto.
  - destruct Hrun as (Hset & Hn & Hall & Hp).
    pose proof Hset as (Hrc & _ & _ & _ & _ & _ & Hrate).
    pose proof (Forall_get _ _ _ _ Hall Hc) as [Hid Hcr1]. simpl in Hid, Hcr1.
    rewrite (read_history_granted_run clinic_id token w c1
               (PyFloat.mul (PyFloat.of_int 3) (PyFloat.lit 5 10)) 1 m Hc Hcr Hge).
    + eexists. eexists. split; [reflexivity|]. simpl.
      destruct (engine w). simpl in *. subst.
      split; [exact Hset|]. split; [|split]; simpl.
      * now rewrite (length_set_present _ _ _ _ Hc).
      * apply Forall_set_key; [exact Hall|]. split; simpl; [congruence|lia].
      * lia.
    + rewrite Hrc, Hrate. reflexivity.
    + vm_compute. reflexivity.
  - unfold read_history. unfold mbind at 1. unfold M_bind at 1. rewrite Hcr.
    simpl. eauto.
Qed.

Lemma publish_history_refused clinic_id entry w c1 :
  Dict.get clinic_id (Engine.clinics (engine w)) = Some c1 ->
  Clinic.opted_in c1 = false \/ Clinic.credits c1 < Engine.publish_stake (engine w) ->
  publish_history E clinic_id entry w = Return false w.
Proof.
  intros Hc Hrej. destruct (get_slot _ _ _ Hc) as (i & Hf & Hs).
  unfold publish_history. run. rewrite Hf. simpl. rewrite Hs.
  destruct (Clinic.opted_in c1); simpl.
  - destruct Hrej as [|Hlt]; [discriminate|].
    apply Z.ltb_lt in Hlt. now rewrite Hlt.
  - reflexivity.
Qed.

Lemma publish_history_running clinic_id entry w c1 n b c :
  Dict.get clinic_id (Engine.clinics (engine w)) = Some c1 ->
  HistoryEntry.author_clinic_id entry = clinic_id ->
  running n b c (engine w) ->
  exists ok w',
    publish_history E clinic_id entry w = Return ok w'
    /\ running n b (c + 2) (engine w').
Proof.
  intros Hc Hauthor Hrun.
  assert (Hsame : running n b (c + 2) (engine w))
    by (eapply running_mono; [| |exact Hrun]; lia).
  destruct (Clinic.opted_in c1) eqn:Hin;
    [destruct (Z_lt_le_dec (Clinic.credits c1) (Engine.publish_stake (engine w)))
       as [Hlt|Hge]|].
  - rewrite (publish_history_refused _ _ _ _ Hc (or_intror Hlt)). eauto.
  - destruct Hrun as (Hset & Hn & Hall & Hp).
    pose proof Hset as (_ & Hrew & Hst & _ & _ & Hsl & _).
    pose proof (Forall_get _ _ _ _ Hall Hc) as [Hid Hcr1]. simpl in Hid, Hcr1.
    set (booked := Clinic.set_last_round_contribution
                     (Clinic.last_round_contribution c1 + 1)
                     (Clinic.set_credits
                        (Clinic.credits c1 - Engine.publish_stake (engine w)
                         + Engine.publish_reward (engine w)) c1)).
    assert (Ha1 : Dict.get (HistoryEntry.author_clinic_id entry)
                    (Dict.set clinic_id booked (Engine.clinics (engine w))) = Some booked)
      by (rewrite Hauthor; apply get_set_eq).
    rewrite (publish_history_accepted_run E clinic_id entry w c1 booked Hc Hin Hge Ha1).
    eexists. eexists. split; [reflexivity|]. simpl.
    rewrite Hauthor, set_set.
    destruct (engine w). simpl in *. subst.
    split; [exact Hset|]. split; [|split; [|exact Hp]]; simpl.
    + destruct (_ && _); now rewrite (length_set_present _ _ _ _ Hc).
    + destruct (_ && _); (apply Forall_set_key; [|split; simpl; [congruence|lia]]).
      all: eapply Forall_impl; [exact Hall|].
      all: intros [k v] [Hk Hv]; split; [exact Hk|simpl in *; lia].
  - rewrite (publish_history_refused _ _ _ _ Hc (or_introl Hin)). eauto.
Qed.
Lemma choice_returns {A} (xs : list A) w :
  picks_in_range E -> xs <> [] ->
  exists x r, choice E xs w = Return x (mkWorld (engine w) (heap w) r (wall w) (reads w)).
Proof.
  intros Hpick Hne. unfold choice. destruct xs as [|x0 xs]; [congruence|].
  specialize (Hpick (length (x0 :: xs)) (rng w) ltac:(simpl; lia)).
  destruct (rng_below E (length (x0 :: xs)) (rng w)) as [i r]. simpl fst in Hpick.
  destruct (nth_error (x0 :: xs) i) as [x|] eqn:Hx.
  - eauto.
  - apply nth_error_None in Hx. lia.
Qed.

Lemma get_of_slot i c1 n b c (e : Engine.t) :
  running n b c e -> Dict.slot i (Engine.clinics e) = Some c1 ->
  exists c2, Dict.get (Clinic.clinic_id c1) (Engine.clinics e) = Some c2.
Proof.
  intros (_ & _ & Hall & _) Hs.
  destruct (slot_In _ _ _ Hs) as [k Hin].
  rewrite Forall_forall in Hall. pose proof (Hall _ (proj2 (list_elem_of_In _ _) Hin)) as [Hid _].
  simpl in Hid. rewrite Hid. eapply In_get; eauto.
Qed.

Lemma attempt_read_running patients i total w n b c :
  picks_in_range E -> patients <> [] -> (i < n)%nat ->
  running n b c (engine w) ->
  exists total' w',
    attempt_read E patients i total w = Return total' w'
    /\ running n (b + 1) c (engine w')
    /\ total <= total' <= total + 1.
Proof.
  intros Hpick Hne Hi Hrun.
  assert (Hsame : running n (b + 1) c (engine w))
    by (eapply running_mono; [| |exact Hrun]; lia).
  destruct (slot_Some_lt i (Engine.clinics (engine w))) as [c1 Hs];
    [destruct Hrun as (_ & -> & _); exact Hi|].
  destruct (get_of_slot _ _ _ _ _ _ Hrun Hs) as [c2 Hc2].
  unfold attempt_read, random. unfold mbind at 1. unfold M_bind at 1.
  destruct (rng_random E (rng w)) as [u r].
  destruct (PyFloat.lt u (PyFloat.lit 55 100)); [|eexists; eexists; split; [reflexivity|];
                                                   split; [exact Hsame|lia]].
  unfold mbind at 1. unfold M_bind at 1.
  match goal with
  | |- context [choice E patients ?w0] =>
      destruct (choice_returns patients w0 Hpick Hne) as (pid & r' & ->)
  end.
  simpl engine. simpl heap. simpl wall. simpl reads.
  unfold issue_patient_token, float_add_int. run. rewrite Hs. simpl.
  change (float_of_int 3600) with (Ok (PyFloat.of_int 3600)). simpl.
  match goal with
  | |- context [read_history ?cid ?t ?w0] =>
      destruct (read_history_running cid t w0 c2 n b c Hc2 Hrun) as (l & w' & -> & Hr)
  end.
  destruct (is_nil _); eexists; eexists; (split; [reflexivity|]); split; auto; lia.
Qed.
Lemma attempt_publish_running patients i total w n b c :
  picks_in_range E -> patients <> [] -> (i < n)%nat ->
  running n b c (engine w) ->
  exists total' w',
    attempt_publish E patients i total w = Return total' w'
    /\ running n b (c + 2) (engine w')
    /\ total <= total' <= total + 1.
Proof.
  intros Hpick Hne Hi Hrun.
  assert (Hsame : running n b (c + 2) (engine w))
    by (eapply running_mono; [| |exact Hrun]; lia).
  destruct (slot_Some_lt i (Engine.clinics (engine w))) as [c1 Hs];
    [destruct Hrun as (_ & -> & _); exact Hi|].
  destruct (get_of_slot _ _ _ _ _ _ Hrun Hs) as [c2 Hc2].
  unfold attempt_publish, uniform, random. run. rewrite Hs. simpl.
  repeat first
    [ match goal with
      | |- context [publish_history E ?cid ?x ?w0] =>
          destruct (publish_history_running cid x w0 c2 n b c Hc2 eq_refl Hrun)
            as (ok & w' & -> & Hr)
      end
    | match goal with
      | |- context [choice E patients ?w0] =>
          destruct (choice_returns patients w0 Hpick Hne) as (pid & r' & ->)
      end
    | match goal with
      | |- context [rng_random E ?r] => destruct (rng_random E r) as [? ?]
      end
    | match goal with
      | |- context [if ?t then _ else _] => destruct t
      end
    | progress simpl ].
  all: eexists; eexists; (split; [reflexivity|]); split; auto; lia.
Qed.

Lemma consider_opt_out_running i w n b c :
  (i < n)%nat -> running n b c (engine w) ->
  exists w', consider_opt_out E i w = Return tt w' /\ running n b c (engine w').
Proof.
  intros Hi Hrun.
  destruct (slot_Some_lt i (Engine.clinics (engine w))) as [c1 Hs];
    [destruct Hrun as (_ & -> & _); exact Hi|].
  unfold consider_opt_out, random. run. rewrite Hs. simpl.
  destruct (Clinic.credits c1 <? 3); simpl; [|eauto].
  destruct (rng_random E (rng w)) as [u r]. simpl.
  destruct (PyFloat.lt u _); simpl; [|eauto].
  destruct (_ || _); simpl; [|eauto].
  rewrite Hs. simpl. eexists. split; [reflexivity|]. simpl.
  destruct Hrun as (Hset & Hn & Hall & Hp). destruct (engine w). simpl in *.
  split; [exact Hset|]. split; [|split; [|exact Hp]]; simpl.
  - now rewrite length_store.
  - eapply Forall_store; [exact Hall|exact Hs|]. intros k Hk. exact Hk.
Qed.

Lemma clinic_turn_running patients i totals w n b c :
  picks_in_range E -> patients <> [] -> (i < n)%nat ->
  running n b c (engine w) ->
  exists totals' w',
    clinic_turn E patients i totals w = Return totals' w'
    /\ running n (b + 1) (c + 2) (engine w')
    /\ fst totals <= fst totals' <= fst totals + 1
    /\ snd totals <= snd totals' <= snd totals + 1.
Proof.
  intros Hpick Hne Hi Hrun.
  destruct (slot_Some_lt i (Engine.clinics (engine w))) as [c1 Hs];
    [destruct Hrun as (_ & -> & _); exact Hi|].
  unfold clinic_turn. unfold mbind at 1. unfold M_bind at 1.
  unfold read_clinic at 1. rewrite Hs.
  destruct (negb (Clinic.opted_in c1)).
  { eexists. eexists. split; [reflexivity|]. split; [|lia].
    eapply running_mono; [| |exact Hrun]; lia. }
  destruct (attempt_read_running patients i (fst totals) w n b c Hpick Hne Hi Hrun)
    as (tr & w1 & Hread & Hrun1 & Htr).
  unfold mbind at 1. unfold M_bind at 1. rewrite Hread.
  destruct (attempt_publish_running patients i (snd totals) w1 n (b + 1) c Hpick Hne Hi Hrun1)
    as (tp & w2 & Hpub & Hrun2 & Htp).
  unfold mbind at 1. unfold M_bind at 1. rewrite Hpub.
  destruct (consider_opt_out_running i w2 n (b + 1) (c + 2) Hi Hrun2) as (w3 & Hout & Hrun3).
  unfold mbind at 1. unfold M_bind at 1. rewrite Hout.
  eexists. eexists. split; [reflexivity|]. simpl. auto.
Qed.
Lemma decay_credits_running w n b c :
  running n b c (engine w) ->
  exists w', decay_credits w = Return tt w' /\ running n b c (engine w').
Proof.
  intros (Hset & Hn & Hall & Hp). unfold decay_credits. run.
  eexists. split; [reflexivity|]. simpl.
  pose proof Hset as (_ & _ & _ & Hdecay & _).
  destruct (engine w). simpl in *. subst.
  split; [exact Hset|]. split; [|split; [|exact Hp]]; simpl.
  - apply length_update_all.
  - apply Forall_update_all; [exact Hall|]. intros k v [Hid Hcr]. unfold decay_one.
    destruct (Clinic.opted_in v && _); split; simpl in *; auto; lia.
Qed.

Lemma for_each_indexed {A} (xs : list A) (body : A -> M R unit) :
  forall (J : nat -> World R -> Prop),
  (forall k x w, nth_error xs k = Some x -> J k w ->
     exists w', body x w = Return tt w' /\ J (S k) w') ->
  forall w, J 0%nat w ->
  exists w', for_each xs body w = Return tt w' /\ J (length xs) w'.
Proof.
  induction xs as [|x r IH]; intros J Hbody w HJ; simpl.
  - eauto.
  - destruct (Hbody 0%nat x w eq_refl HJ) as (w1 & Hx & HJ1).
    unfold mbind, M_bind. rewrite Hx.
    apply (IH (fun k => J (S k))); [|exact HJ1].
    intros k y w0 Hy. apply (Hbody (S k)). exact Hy.
Qed.

Lemma for_fold_indexed {A S} (xs : list A) (body : A -> S -> M R S) :
  forall (J : nat -> S -> World R -> Prop),
  (forall k x s w, nth_error xs k = Some x -> J k s w ->
     exists s' w', body x s w = Return s' w' /\ J (Datatypes.S k) s' w') ->
  forall acc w, J 0%nat acc w ->
  exists s' w', for_fold xs acc body w = Return s' w' /\ J (length xs) s' w'.
Proof.
  induction xs as [|x r IH]; intros J Hbody acc w HJ; simpl.
  - eauto.
  - destruct (Hbody 0%nat x acc w eq_refl HJ) as (s1 & w1 & Hx & HJ1).
    unfold mbind, M_bind. rewrite Hx.
    apply (IH (fun k => J (Datatypes.S k))); [|exact HJ1].
    intros k y s0 w0 Hy. apply (Hbody (Datatypes.S k)). exact Hy.
Qed.

Lemma select_from_length {V} (p : V -> bool) (d : Dict.t V) a :
  (length (Dict.select_from a p d) <= length d)%nat.
Proof.
  unfold Dict.select_from. revert a. induction d as [|[k v] r IH]; intros a; simpl; [lia|].
  destruct (p v); simpl; specialize (IH (S a)); lia.
Qed.

Lemma clinic_ok_mono c c' kc : c <= c' -> clinic_ok c kc -> clinic_ok c' kc.
Proof. intros Hc [Hid Hcr]. split; [exact Hid|lia]. Qed.

Lemma distribute_pool_running w n b c :
  running n b c (engine w) -> b < 2 ^ 1000 ->
  exists w',
    distribute_pool w = Return tt w'
    /\ running n b (c + 32 * b * Z.of_nat n) (engine w').
Proof.
  intros (Hset & Hn & Hall & Hp) Hb.
  assert (Hreset : forall w0 c0,
             running n b c0 (engine w0) ->
             exists w', reset_contributions w0 = Return tt w' /\ running n b c0 (engine w')).
  { intros w0 c0 (Hset0 & Hn0 & Hall0 & Hp0). unfold reset_contributions. run.
    eexists. split; [reflexivity|]. simpl. destruct (engine w0). simpl in *.
    split; [exact Hset0|]. split; [|split; [|exact Hp0]]; simpl.
    - rewrite length_update_all. exact Hn0.
    - apply Forall_update_all; [exact Hall0|]. intros k v Hk. exact Hk. }
  unfold distribute_pool.
  unfold mbind at 1 2. unfold M_bind at 1 2. unfold self at 1 2.
  set (d := Engine.clinics (engine w)).
  set (contributors := Dict.select (fun c => 0 <? Clinic.last_round_contribution c) d).
  set (total := fold_left Z.add (map (contribution d) contributors) 0).
  destruct (is_nil contributors || (Engine.pool_balance (engine w) <=? 0)) eqn:Hguard.
  { apply Hreset. split; [exact Hset|]. split; [exact Hn|]. split; [|exact Hp].
    eapply Forall_impl; [exact Hall|]. intros kc. apply clinic_ok_mono. nia. }
  apply orb_false_iff in Hguard. destruct Hguard as [_ Hpool]. apply Z.leb_gt in Hpool.
  set (J := fun (k : nat) (w' : World R) =>
              simulation_settings (engine w')
              /\ length (Engine.clinics (engine w')) = n
              /\ Forall (clinic_ok (c + 32 * b * Z.of_nat k)) (Engine.clinics (engine w'))
              /\ Engine.pool_balance (engine w') = Engine.pool_balance (engine w)
              /\ forall i, In i contributors ->
                   contribution (Engine.clinics (engine w')) i = contribution d i).
  unfold mbind at 1. unfold M_bind at 1.
  match goal with
  | |- context [for_each ?xs ?body w] =>
      destruct (for_each_indexed xs body J) with (w := w)
        as (w1 & -> & Hset1 & Hn1 & Hall1 & Hpool1 & _)
  end.
  - intros k x [e h r cl m] Hx (Hset0 & Hn0 & Hall0 & Hpool0 & Hcontr). simpl in *.
    apply nth_error_In in Hx.
    pose proof (contribution_selected d x Hx) as Hpos.
    pose proof (fold_add_member (contribution d) contributors x Hx
                  (contribution_selected d)) as Hle.
    fold total in Hle. rewrite <- (Hcontr x Hx) in Hpos, Hle.
    unfold contribution in Hpos, Hle.
    run. destruct (Dict.slot x (Engine.clinics e)) as [cx|] eqn:Hs; [|lia]. simpl.
    destruct (pool_share_returns (Engine.pool_balance e)
                (Clinic.last_round_contribution cx) total) as [share Hshare]; [lia|lia|].
    pose proof (pool_share_bound (Engine.pool_balance e)
                  (Clinic.last_round_contribution cx) total share
                  ltac:(lia) ltac:(lia) Hshare) as Hbound.
    rewrite Hshare. simpl. rewrite Hs. simpl. eexists. split; [reflexivity|].
    destruct e. simpl in *.
    split; [exact Hset0|]. split; [|split; [|split; [exact Hpool0|]]]; simpl.
    + rewrite length_store. exact Hn0.
    + eapply Forall_store_impl; [exact Hall0|exact Hs| |].
      * intros kc. apply clinic_ok_mono. nia.
      * intros k0 [Hid Hcr]. split; simpl in *; [exact Hid|nia].
    + intros i Hi. rewrite (contribution_store_credits _ _ _ _ _ Hs). auto.
  - split; [exact Hset|]. split; [exact Hn|]. split; [|split; [reflexivity|auto]].
    eapply Forall_impl; [exact Hall|]. intros kc. apply clinic_ok_mono. lia.
  - run.
    match goal with
    | |- context [reset_contributions ?w0] =>
        apply (Hreset w0 (c + 32 * b * Z.of_nat n))
    end.
    destruct (engine w1). simpl in *.
    split; [exact Hset1|]. split; [exact Hn1|]. split; [|simpl; lia].
    eapply Forall_impl; [exact Hall1|]. intros kc. apply clinic_ok_mono.
    pose proof (select_from_length (fun c => 0 <? Clinic.last_round_contribution c) d 0)
      as Hlen.
    fold (Dict.select (fun c => 0 <? Clinic.last_round_contribution c) d) in Hlen.
    fold contributors in Hlen. subst d. rewrite Hn in Hlen. nia.
Qed.
Lemma round_running patients totals w n b c :
  picks_in_range E -> patients <> [] ->
  running n b c (engine w) -> b + Z.of_nat n < 2 ^ 1000 ->
  exists totals' w',
    round E patients totals w = Return totals' w'
    /\ running n (b + Z.of_nat n)
         (c + 2 * Z.of_nat n + 32 * (b + Z.of_nat n) * Z.of_nat n) (engine w')
    /\ fst totals <= fst totals' <= fst totals + Z.of_nat n
    /\ snd totals <= snd totals' <= snd totals + Z.of_nat n.
Proof.
  intros Hpick Hne Hrun Hb.
  destruct (decay_credits_running w n b c Hrun) as (w1 & Hdecay & Hrun1).
  unfold round. unfold mbind at 1. unfold M_bind at 1. rewrite Hdecay.
  unfold mbind at 1. unfold M_bind at 1. unfold self at 1.
  unfold Dict.slots. pose proof Hrun1 as (_ & Hn1 & _). rewrite Hn1.
  set (J := fun (k : nat) (t : Z * Z) (w' : World R) =>
              running n (b + Z.of_nat k) (c + 2 * Z.of_nat k) (engine w')
              /\ fst totals <= fst t <= fst totals + Z.of_nat k
              /\ snd totals <= snd t <= snd totals + Z.of_nat k).
  unfold mbind at 1. unfold M_bind at 1.
  destruct (for_fold_indexed (seq 0 n) (clinic_turn E patients) J) with (acc := totals) (w := w1)
    as (t & w2 & -> & Hrun2 & Ht).
  - intros k x s w0 Hx (Hrun0 & Hs1 & Hs2).
    apply nth_error_In, in_seq in Hx.
    destruct (clinic_turn_running patients x s w0 n _ _ Hpick Hne ltac:(lia) Hrun0)
      as (s' & w' & Hturn & Hrun' & Hf & Hsn).
    exists s', w'. split; [exact Hturn|]. split; [|lia].
    eapply running_mono; [| |exact Hrun']; lia.
  - split; [|lia]. eapply running_mono; [| |exact Hrun1]; lia.
  - rewrite length_seq in Hrun2, Ht.
    destruct (distribute_pool_running w2 n _ _ Hrun2 Hb) as (w3 & Hdist & Hrun3).
    unfold mbind at 1. unfold M_bind at 1. rewrite Hdist.
    eexists. eexists. split; [reflexivity|]. split; [exact Hrun3|exact Ht].
Qed.
Lemma rounds_running patients (T : nat) w n c0 :
  picks_in_range E -> patients <> [] ->
  running n 0 c0 (engine w) ->
  Z.of_nat T * Z.of_nat n < 2 ^ 1000 ->
  let G := 2 * Z.of_nat n + 32 * (Z.of_nat T * Z.of_nat n) * Z.of_nat n in
  exists totals w',
    for_fold (seq 0 T) (0, 0) (fun _ => round E patients) w = Return totals w'
    /\ running n (Z.of_nat T * Z.of_nat n) (c0 + Z.of_nat T * G) (engine w')
    /\ 0 <= fst totals <= Z.of_nat T * Z.of_nat n
    /\ 0 <= snd totals <= Z.of_nat T * Z.of_nat n.
Proof.
  intros Hpick Hne Hrun HT G.
  set (J := fun (k : nat) (t : Z * Z) (w' : World R) =>
              running n (Z.of_nat k * Z.of_nat n) (c0 + Z.of_nat k * G) (engine w')
              /\ 0 <= fst t <= Z.of_nat k * Z.of_nat n
              /\ 0 <= snd t <= Z.of_nat k * Z.of_nat n).
  destruct (for_fold_indexed (seq 0 T) (fun _ => round E patients) J)
    with (acc := (0, 0)) (w := w) as (t & w' & Hfold & HJ).
  - intros k x s w0 Hx (Hrun0 & Hs1 & Hs2).
    pose proof (proj1 (nth_error_Some (seq 0 T) k) ltac:(congruence)) as Hk.
    rewrite length_seq in Hk.
    assert (Hkn : Z.of_nat k * Z.of_nat n + Z.of_nat n <= Z.of_nat T * Z.of_nat n) by nia.
    destruct (round_running patients s w0 n _ _ Hpick Hne Hrun0 ltac:(lia))
      as (s' & w1 & Hround & Hrun1 & Hf & Hsn).
    exists s', w1. split; [exact Hround|]. split; [|lia].
    eapply running_mono; [| |exact Hrun1]; [lia|]. subst G. nia.
  - split; [|simpl; lia]. eapply running_mono; [| |exact Hrun]; lia.
  - rewrite length_seq in HJ. exists t, w'. split; [exact Hfold|exact HJ].
Qed.

Lemma opt_in_rate_run w : exists q, opt_in_rate w = Return q w.
Proof.
  unfold opt_in_rate. run.
  destruct (Engine.clinics (engine w)) as [|kc d] eqn:Hd; [eauto|].
  simpl is_nil. cbv iota.
  destruct (int_truediv_returns
              (Z.of_nat (length (List.filter (fun kc => Clinic.opted_in (snd kc)) (kc :: d))))
              (Z.of_nat (length (kc :: d)))) as (q & -> & _).
  - pose proof (List.filter_length_le (fun kc => Clinic.opted_in (snd kc)) (kc :: d)). lia.
  - simpl length. lia.
  - eauto.
Qed.

Lemma credits_sum_bound c (d : Dict.t Clinic.t) :
  Forall (clinic_ok c) d ->
  0 <= fold_left Z.add (map Clinic.credits (Dict.values d)) 0 <= Z.of_nat (length d) * c.
Proof.
  intros Hall.
  assert (Hacc : forall a, a <= fold_left Z.add (map Clinic.credits (Dict.values d)) a
                           <= a + Z.of_nat (length d) * c).
  { unfold Dict.values. induction Hall as [|[k v] r [_ Hcr] _ IH]; intros a; simpl; [lia|].
    specialize (IH (a + Clinic.credits v)). simpl in Hcr. lia. }
  specialize (Hacc 0). lia.
Qed.

Lemma report_returns totals w n b c :
  running n b c (engine w) ->
  (1 <= n)%nat -> Z.of_nat n < 2 ^ 53 -> c < 2 ^ 900 ->
  0 <= fst totals < 2 ^ 1000 -> 0 <= snd totals < 2 ^ 1000 ->
  exists stats,
    report totals w = Return stats w
    /\ stat_total_reads stats = PyFloat.of_int (fst totals)
    /\ stat_total_publishes stats = PyFloat.of_int (snd totals).
Proof.
  intros (Hset & Hn & Hall & Hp) Hn1 Hn53 Hc Hr Hpub.
  unfold report. unfold mbind at 1. unfold M_bind at 1.
  destruct (opt_in_rate_run w) as [q ->].
  run. rewrite Hn.
  pose proof (credits_sum_bound c _ Hall) as Hsum. rewrite Hn in Hsum.
  destruct (int_truediv_returns_gen
              (fold_left Z.add (map Clinic.credits (Dict.values (Engine.clinics (engine w)))) 0)
              (Z.of_nat n) 900) as [avg ->]; try lia.
  { pose proof (Z.pow_pos_nonneg 2 900). nia. }
  simpl.
  destruct (Engine.clinics (engine w)) as [|kc d] eqn:Hd; [simpl in Hn; lia|].
  simpl is_nil. cbv iota. unfold float_div_int.
  destruct (float_of_int_small (Z.of_nat n) ltac:(lia)) as (y & -> & ->). simpl.
  destruct (float_of_int_returns (fst totals) Hr) as [fr Hfr].
  destruct (float_of_int_returns (snd totals) Hpub) as [fp Hfp].
  rewrite Hfr, Hfp. simpl.
  pose proof (List.filter_length_le (fun kc => Clinic.opted_in (snd kc)) (kc :: d)) as Hle.
  rewrite Hn in Hle. simpl in Hle.
  match goal with
  | |- context [float_of_int ?z] => destruct (float_of_int_returns z) as [fc ->]
  end.
  { pose proof (Z.pow_lt_mono_r 2 53 1000). lia. }
  simpl. eexists. split; [reflexivity|]. simpl.
  unfold float_of_int in Hfr, Hfp.
  destruct (PyFloat.is_inf (PyFloat.of_int (fst totals))); [discriminate|].
  destruct (PyFloat.is_inf (PyFloat.of_int (snd totals))); [discriminate|].
  split; congruence.
Qed.
Lemma registration_running starter frf lqf c (xs : list nat) w :
  0 <= starter <= c ->
  simulation_settings (engine w) ->
  Forall (clinic_ok c) (Engine.clinics (engine w)) ->
  Engine.pool_balance (engine w) = 0 ->
  exists w',
    for_each xs (register_clinic E starter frf lqf) w = Return tt w'
    /\ simulation_settings (engine w')
    /\ Forall (clinic_ok c) (Engine.clinics (engine w'))
    /\ Engine.pool_balance (engine w') = 0.
Proof.
  intros Hst Hset Hall Hpool.
  apply (for_each_returns
           (fun w0 => simulation_settings (engine w0)
                      /\ Forall (clinic_ok c) (Engine.clinics (engine w0))
                      /\ Engine.pool_balance (engine w0) = 0)); [|auto].
  intros i w0 _ (Hset0 & Hall0 & Hpool0).
  destruct (register_clinic_run E starter frf lqf i w0) as (c0 & w1 & Hrun & Hid & Hcr & He).
  exists w1. split; [exact Hrun|]. rewrite He. destruct (engine w0). simpl in *.
  split; [exact Hset0|]. split; [|exact Hpool0].
  apply Forall_set_key; [exact Hall0|]. split; simpl; [reflexivity|lia].
Qed.

(** [simulate] returns.  When the random source picks indices within
    range, with at least one clinic and one patient, fewer than [2 ^ 32]
    clinics and rounds and starter credits from 0 to [2 ^ 64], [simulate]
    raises no exception: every clinic it looks up is registered, no balance
    is negative, the pool and the balances stay within the range of floats,
    and the sequences it divides by or chooses from are not empty.  The two
    counters of the result are whole numbers of at most one read and one
    publish per clinic and round. *)
Theorem simulate_returns n_clinics n_patients rounds starter_credits
        free_rider_fraction low_quality_fraction seed w :
  picks_in_range E ->
  1 <= n_clinics < 2 ^ 32 -> 1 <= n_patients -> rounds < 2 ^ 32 ->
  0 <= starter_credits < 2 ^ 64 ->
  exists stats w' total_reads total_publishes,
    simulate E n_clinics n_patients rounds starter_credits
             free_rider_fraction low_quality_fraction seed w = Return stats w'
    /\ stat_total_reads stats = PyFloat.of_int total_reads
    /\ stat_total_publishes stats = PyFloat.of_int total_publishes
    /\ 0 <= total_reads <= Z.max 0 rounds * n_clinics
    /\ 0 <= total_publishes <= Z.max 0 rounds * n_clinics
    /\ Forall (fun kc => 0 <= Clinic.credits (snd kc)) (Engine.clinics (engine w'))
    /\ 0 <= Engine.pool_balance (engine w').
Proof.
  intros Hpick Hn Hp Hrounds Hstarter.
  set (w2 := mkWorld (Engine.init 3 4 2 1 3 (PyFloat.lit 12 100) (PyFloat.lit 45 100) 6
                                  (PyFloat.lit 5 10))
                     (heap w) (rng_seed E seed) (wall w) (reads w)).
  set (patients := map (fun i => ("P" ++ fmt_d 4 i)%string) (range n_patients)).
  assert (Hpatients : patients <> []).
  { subst patients. unfold range. destruct (Z.to_nat n_patients) eqn:Hz; [lia|]. discriminate. }
  destruct (registration_loop E starter_credits free_rider_fraction low_quality_fraction
              (Z.to_nat n_clinics) 0%nat w2) as (w3 & Hreg & Hk3).
  { intros i _ []. }
  destruct (registration_running starter_credits free_rider_fraction low_quality_fraction
              starter_credits (seq 0 (Z.to_nat n_clinics)) w2)
    as (w3' & Hreg' & Hset3 & Hall3 & Hpool3);
    [lia|repeat split|constructor|reflexivity|].
  rewrite Hreg in Hreg'. injection Hreg' as <-.
  set (n := Z.to_nat n_clinics).
  assert (Hlen : length (Engine.clinics (engine w3)) = n).
  { transitivity (length (Dict.keys (Engine.clinics (engine w3)))).
    - unfold Dict.keys. now rewrite length_map.
    - rewrite Hk3. simpl. now rewrite length_map, length_seq. }
  assert (Hrun3 : running n 0 starter_credits (engine w3)).
  { split; [exact Hset3|]. split; [exact Hlen|]. split; [exact Hall3|lia]. }
  set (T := Z.to_nat rounds).
  assert (HnZ : Z.of_nat n = n_clinics) by (subst n; lia).
  assert (HTZ : Z.of_nat T = Z.max 0 rounds) by (subst T; lia).
  assert (HTn : 0 <= Z.of_nat T * Z.of_nat n <= 2 ^ 32 * 2 ^ 32).
  { split; [lia|]. apply Z.mul_le_mono_nonneg; lia. }
  destruct (rounds_running patients T w3 n starter_credits Hpick Hpatients Hrun3)
    as (totals & w4 & Hrounds4 & Hrun4 & Hreads & Hpubs).
  { eapply Z.le_lt_trans; [apply HTn|]. reflexivity. }
  destruct (report_returns totals w4 n _ _ Hrun4) as (stats & Hreport & Hsr & Hsp).
  - subst n. lia.
  - rewrite HnZ. eapply Z.lt_trans; [apply Hn|]. reflexivity.
  - assert (H1 : 0 <= Z.of_nat T * Z.of_nat n * Z.of_nat n <= 2 ^ 32 * 2 ^ 32 * 2 ^ 32).
    { split; [lia|]. apply Z.mul_le_mono_nonneg; lia. }
    assert (H2 : 0 <= 2 * Z.of_nat n + 32 * (Z.of_nat T * Z.of_nat n) * Z.of_nat n
                 <= 2 * 2 ^ 32 + 32 * (2 ^ 32 * 2 ^ 32 * 2 ^ 32)) by lia.
    assert (H3 : Z.of_nat T * (2 * Z.of_nat n + 32 * (Z.of_nat T * Z.of_nat n) * Z.of_nat n)
                 <= 2 ^ 32 * (2 * 2 ^ 32 + 32 * (2 ^ 32 * 2 ^ 32 * 2 ^ 32))).
    { apply Z.mul_le_mono_nonneg; lia. }
    assert (H4 : 2 ^ 64 + 2 ^ 32 * (2 * 2 ^ 32 + 32 * (2 ^ 32 * 2 ^ 32 * 2 ^ 32)) < 2 ^ 900)
      by reflexivity.
    lia.
  - split; [lia|]. eapply Z.le_lt_trans; [apply Hreads|].
    eapply Z.le_lt_trans; [apply HTn|]. reflexivity.
  - split; [lia|]. eapply Z.le_lt_trans; [apply Hpubs|].
    eapply Z.le_lt_trans; [apply HTn|]. reflexivity.
  - exists stats, w4, (fst totals), (snd totals).
    split.
    + change (simulate E n_clinics n_patients rounds starter_credits free_rider_fraction
                       low_quality_fraction seed w)
        with ((for_each (range n_clinics)
                 (register_clinic E starter_credits free_rider_fraction
                                  low_quality_fraction) ≫= fun _ =>
               for_fold (range rounds) (0, 0) (fun _ => round E patients) ≫= report) w2).
      unfold mbind at 1. unfold M_bind at 1. unfold range at 1. rewrite Hreg.
      unfold mbind, M_bind. unfold range. fold T. rewrite Hrounds4. exact Hreport.
    + split; [exact Hsr|]. split; [exact Hsp|].
      rewrite <- HnZ, <- HTZ. split; [exact Hreads|]. split; [exact Hpubs|].
      destruct Hrun4 as (_ & _ & Hall4 & Hpool4). split; [|lia].
      eapply Forall_impl; [exact Hall4|]. intros kc [_ Hcr]. lia.
Qed.
End Steps.

Lemma still_picks_in_range : picks_in_range still.
Proof. intros n r Hn. exact Hn. Defined.

(** The simulation of the demo, under the random source [still]. *)
Lemma simulate_returns_witness :
  exists stats w',
    simulate still 200 400 45 10 (PyFloat.lit 18 100) (PyFloat.lit 10 100) 7
             (world_of (default_engine [] 0))
    = Return stats w'.
Proof.
  destruct (simulate_returns still 200 400 45 10 (PyFloat.lit 18 100) (PyFloat.lit 10 100) 7
              (world_of (default_engine [] 0)))
    as (stats & w' & _ & _ & Hrun & _).
  - exact still_picks_in_range.
  - split; [lia|reflexivity].
  - lia.
  - reflexivity.
  - split; [lia|reflexivity].
  - exists stats, w'. exact Hrun.
Defined.

(** * A simulation without patients *)

Section NoPatients.
Context {R : Type} (E : Entropy R).
Implicit Types (w : World R).

Lemma attempt_read_no_patients i t w t' w' :
  attempt_read E [] i t w = Return t' w' -> t' = t.
Proof.
  unfold attempt_read, random. run.
  destruct (rng_random E (rng w)) as [u r]. simpl.
  destruct (PyFloat.lt u _); simpl; [discriminate|]. now intros [= <- _].
Qed.

Lemma attempt_publish_no_patients i t w t' w' :
  attempt_publish E [] i t w = Return t' w' -> t' = t.
Proof.
  unfold attempt_publish, random. run.
  destruct (Dict.slot i _) as [c|]; simpl; [|discriminate].
  destruct (negb (Clinic.free_ride c)); simpl; [|now intros [= <- _]].
  destruct (Clinic.credits c <? 6); simpl; [discriminate|].
  destruct (rng_random E (rng w)) as [u r]. simpl.
  destruct (PyFloat.lt u _); simpl; [discriminate|]. now intros [= <- _].
Qed.

Lemma clinic_turn_no_patients i t w t' w' :
  clinic_turn E [] i t w = Return t' w' -> t' = t.
Proof.
  unfold clinic_turn. unfold mbind at 1. unfold M_bind at 1.
  destruct (read_clinic i w) as [c w0|x w0]; [|discriminate].
  destruct (negb (Clinic.opted_in c)); [now intros [= <- _]|].
  unfold mbind at 1. unfold M_bind at 1.
  destruct (attempt_read E [] i (fst t) w0) as [tr w1|x w1] eqn:Hr; [|discriminate].
  apply attempt_read_no_patients in Hr.
  unfold mbind at 1. unfold M_bind at 1.
  destruct (attempt_publish E [] i (snd t) w1) as [tp w2|x w2] eqn:Hp; [|discriminate].
  apply attempt_publish_no_patients in Hp.
  unfold mbind at 1. unfold M_bind at 1.
  destruct (consider_opt_out E i w2) as [[] w3|x w3]; [|discriminate].
  intros [= <- _]. subst. now destruct t.
Qed.

Lemma for_fold_same {A S} (xs : list A) (body : A -> S -> M R S) :
  (forall x s w s' w', body x s w = Return s' w' -> s' = s) ->
  forall acc w s' w', for_fold xs acc body w = Return s' w' -> s' = acc.
Proof.
  intros Hbody. induction xs as [|x r IH]; intros acc w s' w'; simpl.
  - now intros [= <- _].
  - unfold mbind, M_bind. destruct (body x acc w) as [s1 w1|e w1] eqn:Hx; [|discriminate].
    apply Hbody in Hx. subst s1. apply IH.
Qed.

Lemma round_no_patients t w t' w' : round E [] t w = Return t' w' -> t' = t.
Proof.
  unfold round. unfold mbind at 1. unfold M_bind at 1.
  destruct (decay_credits w) as [[] w0|x w0]; [|discriminate].
  unfold mbind at 1. unfold M_bind at 1. unfold self at 1.
  unfold mbind at 1. unfold M_bind at 1.
  destruct (for_fold _ t (clinic_turn E []) w0) as [t1 w1|x w1] eqn:Hloop; [|discriminate].
  apply for_fold_same in Hloop; [|intros; eapply clinic_turn_no_patients; eauto].
  unfold mbind at 1. unfold M_bind at 1.
  destruct (distribute_pool w1) as [[] w2|x w2]; [|discriminate].
  intros [= <- _]. exact Hloop.
Qed.

Lemma report_counters totals w stats w' :
  report totals w = Return stats w' ->
  stat_total_reads stats = PyFloat.of_int (fst totals)
  /\ stat_total_publishes stats = PyFloat.of_int (snd totals).
Proof.
  unfold report. unfold mbind at 1. unfold M_bind at 1.
  destruct (opt_in_rate w) as [q w0|x w0]; [|discriminate].
  unfold float_of_int. run.
  destruct (int_truediv _ _); simpl; [|discriminate].
  destruct (is_nil _); simpl; [discriminate|].
  destruct (float_div_int _ _); simpl; [|discriminate].
  destruct (PyFloat.is_inf (PyFloat.of_int (fst totals))); simpl; [discriminate|].
  destruct (PyFloat.is_inf (PyFloat.of_int (snd totals))); simpl; [discriminate|].
  destruct (PyFloat.is_inf _); simpl; [discriminate|].
  intros [= <- _]. simpl. auto.
Qed.

(** Without patients nothing can be read or published: every attempt
    starts with [random.choice(patients)], which raises [IndexError] on the
    empty list, so that a simulation with [n_patients <= 0] that returns has
    counted no read and no publish. *)
Theorem simulate_without_patients n_clinics n_patients rounds starter_credits
        free_rider_fraction low_quality_fraction seed w stats w' :
  n_patients <= 0 ->
  simulate E n_clinics n_patients rounds starter_credits
           free_rider_fraction low_quality_fraction seed w = Return stats w' ->
  stat_total_reads stats = PyFloat.zero /\ stat_total_publishes stats = PyFloat.zero.
Proof.
  intros Hn. unfold simulate, range at 2.
  replace (Z.to_nat n_patients) with 0%nat by lia. simpl map.
  unfold mbind at 1. unfold M_bind at 1. unfold seed_random at 1.
  unfold mbind at 1. unfold M_bind at 1. unfold new_engine, update_self at 1.
  unfold mbind at 1. unfold M_bind at 1.
  destruct (for_each _ _ _) as [[] w3|x w3]; [|discriminate].
  unfold mbind at 1. unfold M_bind at 1.
  destruct (for_fold _ _ _ w3) as [totals w4|x w4] eqn:Hrounds; [|discriminate].
  apply for_fold_same in Hrounds; [|intros; eapply round_no_patients; eauto].
  subst totals. intros Hreport. apply report_counters in Hreport. exact Hreport.
Qed.
End NoPatients.

Lemma simulate_without_patients_witness :
  exists stats w',
    simulate idle 1 0 2 10 (PyFloat.lit 18 100) (PyFloat.lit 10 100) 7
             (world_of (default_engine [] 0)) = Return stats w'
    /\ stat_total_reads stats = PyFloat.zero
    /\ stat_total_publishes stats = PyFloat.zero.
Proof.
  destruct (simulate idle 1 0 2 10 (PyFloat.lit 18 100) (PyFloat.lit 10 100) 7
                     (world_of (default_engine [] 0))) as [stats w'|x w'] eqn:Hrun.
  - exists stats, w'. split; [reflexivity|].
    apply (simulate_without_patients idle 1 0 2 10 (PyFloat.lit 18 100) (PyFloat.lit 10 100) 7
             (world_of (default_engine [] 0)) stats w'); [lia|exact Hrun].
  - vm_compute in Hrun. discriminate Hrun.
Defined.

(** * Published histories *)

#[global] Instance histories_grow_refl {R} : Reflexive (histories_grow (R := R)).
Proof. intros w Hwf. split; [exact Hwf|]. intros pid. reflexivity. Qed.

#[global] Instance histories_grow_trans {R} : Transitive (histories_grow (R := R)).
Proof.
  intros w1 w2 w3 H12 H23 Hwf. destruct (H12 Hwf) as [Hwf2 Hp2].
  destruct (H23 Hwf2) as [Hwf3 Hp3]. split; [exact Hwf3|].
  intros pid. etransitivity; eauto.
Qed.

Section HistorySteps.
Context {R : Type} (E : Entropy R).
Implicit Types (w : World R).

Lemma histories_frame w w' :
  Engine.patient_histories (engine w') = Engine.patient_histories (engine w) ->
  heap w' = heap w -> histories_grow w w'.
Proof.
  intros He Hh Hwf. unfold histories_wf, histories_allocated, history in *.
  rewrite He, Hh. split; [exact Hwf|]. intros pid. reflexivity.
Qed.

Lemma hist_update_self f :
  (forall e, Engine.patient_histories (f e) = Engine.patient_histories e) ->
  stable (histories_grow (R := R)) (update_self f).
Proof. intros Hf w. apply histories_frame; [apply Hf|reflexivity]. Qed.

Lemma hist_write_clinic i f : stable (histories_grow (R := R)) (write_clinic i f).
Proof.
  apply stable_write_clinic; [apply _|]. intros w c Hs.
  apply histories_frame; [destruct (engine w)|]; reflexivity.
Qed.

Lemma hist_time : stable (histories_grow (R := R)) time.
Proof. intros w. now apply histories_frame. Qed.

Lemma hist_random : stable (histories_grow (R := R)) (random E).
Proof.
  intros w. unfold random. destruct (rng_random E (rng w)). now apply histories_frame.
Qed.

Lemma hist_choice {A} (xs : list A) : stable (histories_grow (R := R)) (choice E xs).
Proof.
  intros w. unfold choice. destruct xs as [|x r]; [reflexivity|].
  destruct (rng_below E _ (rng w)) as [i r'].
  destruct (nth_error _ i); now apply histories_frame.
Qed.

Lemma hist_new_list items : stable (histories_grow (R := R)) (new_list items).
Proof.
  intros w Hwf. simpl. split; [now apply wf_alloc|]. intros pid.
  unfold history. destruct (Engine.patient_histories (engine w) !! pid) as [l|] eqn:Hl;
    [|reflexivity].
  destruct Hwf as [Halloc _]. destruct (Halloc pid l Hl) as [xs Hxs].
  rewrite lookup_insert_ne; [reflexivity|].
  intros <-. rewrite fresh_unallocated in Hxs. discriminate.
Qed.

(** The append of a published entry to the history of its patient, followed
    by the rest of [publish_history]. *)
Lemma hist_store_entry {B} pid x (k : M R B) :
  stable (histories_grow (R := R)) k ->
  stable (histories_grow (R := R))
    (histories ← self Engine.patient_histories;
     stored ← match histories !! pid with
              | Some l => mret l
              | None =>
                  l ← new_list [];
                  update_self (Engine.set_patient_histories (<[pid := l]> histories));;
                  mret l
              end;
     list_append stored x;; k).
Proof.
  intros Hk w.
  set (known := Engine.patient_histories (engine w) !! pid).
  set (l := match known with Some l => l | None => fresh (dom (heap w)) end).
  set (hs := match known with
             | Some _ => Engine.patient_histories (engine w)
             | None => <[pid := l]> (Engine.patient_histories (engine w))
             end).
  set (h1 := match known with Some _ => heap w | None => <[l := []]> (heap w) end).
  set (w1 := mkWorld (Engine.set_patient_histories hs (engine w))
                     (<[l := history (engine w) (heap w) pid ++ [x]]> h1)
                     (rng w) (wall w) (reads w)).
  assert (Hrun : (histories ← self Engine.patient_histories;
                  stored ← match histories !! pid with
                           | Some l => mret l
                           | None =>
                               l ← new_list [];
                               update_self (Engine.set_patient_histories
                                              (<[pid := l]> histories));;
                               mret l
                           end;
                  list_append stored x;; k) w = k w1).
  { subst w1 h1 hs l known. unfold history. run.
    destruct (Engine.patient_histories (engine w) !! pid) as [l0|] eqn:Hl; simpl.
    - destruct (engine w); reflexivity.
    - rewrite lookup_insert_eq. reflexivity. }
  rewrite Hrun. etransitivity; [|apply Hk].
  intros Hwf.
  destruct (history_stored (engine w) (engine w1) (heap w) pid x Hwf) as (H1 & H2 & H3).
  { subst w1. destruct (engine w); reflexivity. }
  split; [exact H3|]. intros pid'. destruct (decide (pid' = pid)) as [->|Hne].
  - exists [x]. exact H1.
  - exists []. rewrite app_nil_r. exact (H2 pid' Hne).
Qed.

Ltac hist_step :=
  first
    [ apply hist_store_entry
    | apply hist_time | apply hist_random | apply hist_choice | apply hist_new_list
    | apply hist_write_clinic
    | apply hist_update_self; intros []; reflexivity
    | stab_step ].
Ltac hist := repeat hist_step.

Lemma hist_issue_patient_token pid cid ttl :
  stable (histories_grow (R := R)) (issue_patient_token pid cid ttl).
Proof. unfold issue_patient_token. hist. Qed.

Lemma hist_can_read cid token : stable (histories_grow (R := R)) (can_read cid token).
Proof. unfold can_read. hist. Qed.

Lemma hist_read_history cid token :
  stable (histories_grow (R := R)) (read_history cid token).
Proof. unfold read_history. hist; try apply hist_can_read; hist. Qed.

Lemma hist_maybe_dispute entry : stable (histories_grow (R := R)) (_maybe_dispute entry).
Proof. unfold _maybe_dispute. hist. Qed.

Lemma hist_publish_history cid entry :
  stable (histories_grow (R := R)) (publish_history E cid entry).
Proof. unfold publish_history. hist; try apply hist_maybe_dispute; hist. Qed.

Lemma hist_decay_credits : stable (histories_grow (R := R)) decay_credits.
Proof. unfold decay_credits. hist. Qed.

Lemma hist_reset_contributions : stable (histories_grow (R := R)) reset_contributions.
Proof. unfold reset_contributions. hist. Qed.

Lemma hist_distribute_pool : stable (histories_grow (R := R)) distribute_pool.
Proof. unfold distribute_pool. hist; try apply hist_reset_contributions; hist. Qed.

Lemma hist_opt_in_rate : stable (histories_grow (R := R)) opt_in_rate.
Proof. unfold opt_in_rate. hist. Qed.

Lemma hist_attempt_read patients clinic total :
  stable (histories_grow (R := R)) (attempt_read E patients clinic total).
Proof.
  unfold attempt_read.
  hist; try apply hist_issue_patient_token; try apply hist_read_history; hist.
Qed.

Lemma hist_attempt_publish patients clinic total :
  stable (histories_grow (R := R)) (attempt_publish E patients clinic total).
Proof.
  unfold attempt_publish, uniform.
  hist; try apply hist_publish_history; hist.
Qed.

Lemma hist_consider_opt_out clinic :
  stable (histories_grow (R := R)) (consider_opt_out E clinic).
Proof. unfold consider_opt_out. hist. Qed.

Lemma hist_clinic_turn patients clinic totals :
  stable (histories_grow (R := R)) (clinic_turn E patients clinic totals).
Proof.
  unfold clinic_turn.
  hist; try apply hist_attempt_read; try apply hist_attempt_publish;
    try apply hist_consider_opt_out; hist.
Qed.

Lemma hist_round patients totals :
  stable (histories_grow (R := R)) (round E patients totals).
Proof.
  unfold round.
  hist; try apply hist_decay_credits; try apply hist_clinic_turn;
    try apply hist_distribute_pool; hist.
Qed.

Lemma hist_report totals : stable (histories_grow (R := R)) (report totals).
Proof. unfold report. hist; try apply hist_opt_in_rate; hist. Qed.

(** Published histories are append-only.  In a world whose list objects
    are well formed (each history has its own, allocated list), after every
    operation of the engine and of the round driver, returning or raising,
    the list objects are well formed and the history that each patient had
    is a prefix of the history it has: no operation removes, reorders or
    rewrites a published entry. *)
Theorem histories_append_only op w :
  histories_wf (engine w) (heap w) ->
  histories_wf (engine (world_after E op w)) (heap (world_after E op w))
  /\ forall pid,
       history (engine w) (heap w) pid
       `prefix_of` history (engine (world_after E op w)) (heap (world_after E op w)) pid.
Proof.
  change (histories_grow w (world_after E op w)).
  destruct op; unfold world_after.
  - apply hist_issue_patient_token.
  - apply hist_can_read.
  - apply hist_read_history.
  - apply hist_publish_history.
  - apply hist_maybe_dispute.
  - apply hist_decay_credits.
  - apply hist_distribute_pool.
  - apply hist_opt_in_rate.
  - apply hist_attempt_read.
  - apply hist_attempt_publish.
  - apply hist_consider_opt_out.
  - apply hist_clinic_turn.
  - apply hist_round.
  - apply stable_for_fold; [apply _ ..|]. intros ? ?. apply hist_round.
  - apply hist_report.
Qed.
End HistorySteps.

Lemma histories_append_only_witness :
  let w := reading_world (PyFloat.lit 5 10) 5 in
  [entry_B_P]
  `prefix_of` history (engine (world_after still (Round ["P"%string] (0, 0)) w))
                      (heap (world_after still (Round ["P"%string] (0, 0)) w)) "P".
Proof.
  intros w.
  apply (proj2 (histories_append_only still (Round ["P"%string] (0, 0)) w
                  (reading_world_wf _ _)) "P"%string).
Defined.
